(** * git-sidecar: a shallow embedding of [src/main.py] in Rocq

    The development follows the module structure of [main.py]:
    - [Py]: the Python string primitives the code calls, and a result type
      for raised exceptions;
    - [ConfigParser]: the parts of Python's [configparser.ConfigParser] the
      program relies on (sections, the [DEFAULT] section, basic
      interpolation, [write] and [read]);
    - [ConfigManager]: [ConfigManager.get] / [set] / [get_path];
    - [RepoIdentifier]: [normalize_url] (with the [urlsplit] steps it uses)
      and [get_repo_identifier];
    - [Regex]: a backtracking matcher for the regular-expression syntax used
      by [BranchAnalyzer], and [BranchAnalyzer] itself;
    - [DirectoryManager]: the sanitizers, [get_workspace_base],
      [find_existing_ticket_dir] and [create_ticket_directory] over a small
      file-system model.

    Strings are Rocq [string]s (ASCII characters); [len] is [String.length]. *)

From Stdlib Require Import String Ascii List Bool Arith ZArith Lia.
Import ListNotations.
Open Scope bool_scope.
Open Scope string_scope.
Open Scope nat_scope.

(* ------------------------------------------------------------------ *)
(** ** Python primitives *)

Module Py.

(** Exceptions raised by the code paths we model. *)
Inductive exn :=
| ValueError
| IndexError
| NoSectionError
| NoOptionError
| DuplicateSectionError
| DuplicateOptionError
| MissingSectionHeaderError
| ParsingError
| InterpolationSyntaxError
| InterpolationMissingOptionError
| InterpolationDepthError
| FileExistsError
| NotADirectoryError
| OSError
| ReError.

(** A computation that returns a value or raises. *)
Inductive res (A : Type) :=
| Ok (a : A)
| Err (e : exn).
Arguments Ok {A} a.
Arguments Err {A} e.

Definition bind {A B} (r : res A) (k : A -> res B) : res B :=
  match r with Ok a => k a | Err e => Err e end.

Notation "'let*' x := c 'in' k" := (bind c (fun x => k))
  (at level 200, x name, c at level 100, k at level 200).

Definition ch (n : nat) : ascii := ascii_of_nat n.

(** [str.isspace] on one ASCII character (also what [\s] matches). *)
Definition isspace (c : ascii) : bool :=
  let n := nat_of_ascii c in
  ((9 <=? n) && (n <=? 13)) || ((28 <=? n) && (n <=? 32)).

Definition ascii_eqb (a b : ascii) : bool :=
  if ascii_dec a b then true else false.

Fixpoint mem_char (c : ascii) (s : string) : bool :=
  match s with
  | EmptyString => false
  | String d s' => ascii_eqb c d || mem_char c s'
  end.

(** [str.lower] / [str.upper] restricted to ASCII. *)
Definition lower_char (c : ascii) : ascii :=
  let n := nat_of_ascii c in
  if (65 <=? n) && (n <=? 90) then ascii_of_nat (n + 32) else c.
Definition upper_char (c : ascii) : ascii :=
  let n := nat_of_ascii c in
  if (97 <=? n) && (n <=? 122) then ascii_of_nat (n - 32) else c.

Fixpoint map_chars (f : ascii -> ascii) (s : string) : string :=
  match s with
  | EmptyString => EmptyString
  | String c s' => String (f c) (map_chars f s')
  end.

Definition lower (s : string) : string := map_chars lower_char s.
Definition upper (s : string) : string := map_chars upper_char s.

(** [s.lstrip(chars)] / [s.rstrip(chars)] / [s.strip(chars)] for a
    character predicate. *)
Fixpoint lstrip_by (p : ascii -> bool) (s : string) : string :=
  match s with
  | EmptyString => EmptyString
  | String c s' => if p c then lstrip_by p s' else s
  end.

Fixpoint rstrip_by (p : ascii -> bool) (s : string) : string :=
  match s with
  | EmptyString => EmptyString
  | String c s' =>
      match rstrip_by p s' with
      | EmptyString => if p c then EmptyString else String c EmptyString
      | r => String c r
      end
  end.

Definition strip_by (p : ascii -> bool) (s : string) : string :=
  rstrip_by p (lstrip_by p s).

(** [s.strip()], [s.rstrip()]: whitespace. *)
Definition strip (s : string) : string := strip_by isspace s.
Definition rstrip (s : string) : string := rstrip_by isspace s.
(** [s.strip(chars)] *)
Definition strip_chars (chars : string) (s : string) : string :=
  strip_by (fun c => mem_char c chars) s.

Definition startswith (p s : string) : bool := String.prefix p s.

Definition endswith (p s : string) : bool :=
  (String.length p <=? String.length s) &&
  String.eqb (substring (String.length s - String.length p) (String.length p) s) p.

(** [s[:n]] and [s[n:]] for [0 <= n]. *)
Definition take (n : nat) (s : string) : string := substring 0 n s.
Definition drop (n : nat) (s : string) : string :=
  substring n (String.length s - n) s.

(** [s.find(c)] for one character: [None] stands for [-1]. *)
Fixpoint find_char (c : ascii) (s : string) : option nat :=
  match s with
  | EmptyString => None
  | String d s' =>
      if ascii_eqb c d then Some 0
      else option_map S (find_char c s')
  end.

(** [s.rfind(c)] for one character. *)
Fixpoint rfind_char (c : ascii) (s : string) : option nat :=
  match s with
  | EmptyString => None
  | String d s' =>
      match rfind_char c s' with
      | Some i => Some (S i)
      | None => if ascii_eqb c d then Some 0 else None
      end
  end.

(** [s.split(c, 1)] when [c in s]; [None] when [c] does not occur. *)
Fixpoint split_once (c : ascii) (s : string) : option (string * string) :=
  match s with
  | EmptyString => None
  | String d s' =>
      if ascii_eqb c d then Some (EmptyString, s')
      else option_map (fun '(a, b) => (String d a, b)) (split_once c s')
  end.

(** [s.split(c)] (a separator of one character). *)
Fixpoint split_on (c : ascii) (s : string) : list string :=
  match s with
  | EmptyString => [EmptyString]
  | String d s' =>
      if ascii_eqb c d then EmptyString :: split_on c s'
      else match split_on c s' with
           | w :: ws => String d w :: ws
           | [] => [String d EmptyString]
           end
  end.

(** [s.split()]: split on runs of whitespace, dropping empty words. *)
Fixpoint split_ws_aux (cur : string) (s : string) : list string :=
  match s with
  | EmptyString => if String.eqb cur "" then [] else [cur]
  | String d s' =>
      if isspace d then
        app (if String.eqb cur "" then [] else [cur]) (split_ws_aux "" s')
      else split_ws_aux (cur ++ String d EmptyString) s'
  end.
Definition split_ws (s : string) : list string := split_ws_aux "" s.

(** [s.replace(c, r)] for a single character [c]. *)
Fixpoint replace_char (c : ascii) (r : string) (s : string) : string :=
  match s with
  | EmptyString => EmptyString
  | String d s' =>
      if ascii_eqb c d then r ++ replace_char c r s'
      else String d (replace_char c r s')
  end.

(** [s.replace(old, new)] for a non-empty [old]: left to right,
    non-overlapping. *)
Fixpoint replace_str_fuel (fuel : nat) (old new s : string) : string :=
  match fuel with
  | 0 => s
  | S f =>
      match s with
      | EmptyString => EmptyString
      | String d s' =>
          if String.prefix old s
          then new ++ replace_str_fuel f old new (drop (String.length old) s)
          else String d (replace_str_fuel f old new s')
      end
  end.
Definition replace_str (old new s : string) : string :=
  replace_str_fuel (S (String.length s)) old new s.

(** ['sep'.join(ws)] *)
Fixpoint join (sep : string) (ws : list string) : string :=
  match ws with
  | [] => ""
  | [w] => w
  | w :: ws' => w ++ sep ++ join sep ws'
  end.

(** Python's [dict] as an association list in insertion order:
    [d[k] = v] keeps the position of an existing key. *)
Fixpoint assoc {V} (k : string) (l : list (string * V)) : option V :=
  match l with
  | [] => None
  | (k', v) :: l' => if String.eqb k k' then Some v else assoc k l'
  end.

Fixpoint assoc_set {V} (k : string) (v : V) (l : list (string * V))
  : list (string * V) :=
  match l with
  | [] => [(k, v)]
  | (k', v') :: l' =>
      if String.eqb k k' then (k', v) :: l' else (k', v') :: assoc_set k v l'
  end.

Definition assoc_mem {V} (k : string) (l : list (string * V)) : bool :=
  match assoc k l with Some _ => true | None => false end.

End Py.

Import Py.

(* ------------------------------------------------------------------ *)
(** ** [configparser.ConfigParser] (default options: strict, interpolation
    [BasicInterpolation], delimiters [=] and [:], comment prefixes [#] and
    [;], no inline comments, empty lines allowed in values) *)

Module ConfigParser.

(** The parser state: [_defaults] and [_sections], both in insertion order. *)
Record cp := mk_cp {
  cp_defaults : list (string * string);
  cp_sections : list (string * list (string * string))
}.

Definition empty_cp : cp := mk_cp [] [].

Definition default_section : string := "DEFAULT".

(** [optionxform] *)
Definition optionxform (o : string) : string := lower o.

Definition sections (c : cp) : list string := map fst (cp_sections c).

Definition has_section (c : cp) (s : string) : bool := assoc_mem s (cp_sections c).

Definition has_option (c : cp) (s o : string) : bool :=
  if String.eqb s "" || String.eqb s default_section then
    assoc_mem (optionxform o) (cp_defaults c)
  else match assoc s (cp_sections c) with
       | None => false
       | Some d => assoc_mem (optionxform o) d
                   || assoc_mem (optionxform o) (cp_defaults c)
       end.

(** [BasicInterpolation._KEYCRE = %\(([^)]+)\)s], matched just after the
    ["%("]: the name runs to the first [")"], which must be followed by
    ["s"]. Returns the name and the rest after [")s"]. *)
Definition keyref (s : string) : option (string * string) :=
  match split_once ")" s with
  | Some (name, String c rest) =>
      if String.eqb name "" then None
      else if ascii_eqb c "s" then Some (name, rest) else None
  | _ => None
  end.

Definition MAX_INTERPOLATION_DEPTH : nat := 10.

(** [BasicInterpolation._interpolate_some]; [lv] is the number of nesting
    levels still allowed ([MAX_INTERPOLATION_DEPTH + 1 - depth]); [mp] is the
    [ChainMap] of the section and the defaults. The [while rest] loop runs on
    a fuel bounded by the length of [rest] (each round consumes a character). *)
Fixpoint interp (lv : nat) (mp : list (string * string)) (rest : string)
  : res string :=
  match lv with
  | 0 => Err InterpolationDepthError
  | S lv' =>
      let fix loop (fuel : nat) (rest : string) : res string :=
        match fuel with
        | 0 => Ok rest
        | S f =>
            match find_char "%" rest with
            | None => Ok rest
            | Some p =>
                let pre := take p rest in
                match drop (S p) rest with
                | String c r' =>
                    if ascii_eqb c "%" then
                      let* t := loop f r' in Ok (pre ++ "%" ++ t)
                    else if ascii_eqb c "(" then
                      match keyref r' with
                      | None => Err InterpolationSyntaxError
                      | Some (name, after) =>
                          match assoc (optionxform name) mp with
                          | None => Err InterpolationMissingOptionError
                          | Some v =>
                              let* v' := (if mem_char "%" v then interp lv' mp v
                                          else Ok v) in
                              let* t := loop f after in
                              Ok (pre ++ v' ++ t)
                          end
                      end
                    else Err InterpolationSyntaxError
                | EmptyString => Err InterpolationSyntaxError
                end
            end
        end
      in loop (S (String.length rest)) rest
  end.

(** [_unify_values(section, None)]: the section's options over the
    defaults. *)
Definition unify (c : cp) (s : string) : res (list (string * string)) :=
  match assoc s (cp_sections c) with
  | Some d => Ok (app d (cp_defaults c))
  | None => if String.eqb s default_section then Ok (cp_defaults c)
            else Err NoSectionError
  end.

(** [ConfigParser.get(section, option)] (no [raw], no [vars], no
    [fallback]). *)
Definition get (c : cp) (s o : string) : res string :=
  let* d := unify c s in
  match assoc (optionxform o) d with
  | None => Err NoOptionError
  | Some v => interp MAX_INTERPOLATION_DEPTH d v
  end.

(** [KEYCRE.sub('', s)] *)
Fixpoint keycre_sub_fuel (fuel : nat) (s : string) : string :=
  match fuel with
  | 0 => s
  | S f =>
      match s with
      | EmptyString => EmptyString
      | String c s' =>
          match s' with
          | String d s'' =>
              if ascii_eqb c "%" && ascii_eqb d "(" then
                match keyref s'' with
                | Some (_, after) => keycre_sub_fuel f after
                | None => String c (keycre_sub_fuel f s')
                end
              else String c (keycre_sub_fuel f s')
          | EmptyString => s
          end
      end
  end.
Definition keycre_sub (s : string) : string :=
  keycre_sub_fuel (S (String.length s)) s.

(** [BasicInterpolation.before_set] *)
Definition before_set (v : string) : res unit :=
  let tmp := keycre_sub (replace_str "%%" "" v) in
  if mem_char "%" tmp then Err ValueError else Ok tt.

(** [ConfigParser.add_section] *)
Definition add_section (c : cp) (s : string) : res cp :=
  if String.eqb s default_section then Err ValueError
  else if has_section c s then Err DuplicateSectionError
  else Ok (mk_cp (cp_defaults c) (app (cp_sections c) [(s, [])])).

(** [ConfigParser.set(section, option, value)] *)
Definition set (c : cp) (s o v : string) : res cp :=
  let* _ := (if String.eqb v "" then Ok tt else before_set v) in
  if String.eqb s "" || String.eqb s default_section then
    Ok (mk_cp (assoc_set (optionxform o) v (cp_defaults c)) (cp_sections c))
  else match assoc s (cp_sections c) with
       | None => Err NoSectionError
       | Some d =>
           Ok (mk_cp (cp_defaults c)
                     (assoc_set s (assoc_set (optionxform o) v d) (cp_sections c)))
       end.

(** [RawConfigParser._write_section] with delimiter [" = "]. *)
Definition write_section (name : string) (items : list (string * string)) : string :=
  "[" ++ name ++ "]" ++ String "010" EmptyString
  ++ String.concat ""
       (map (fun '(k, v) => k ++ " = " ++ replace_char "010" (String "010" (String "009" EmptyString)) v
                              ++ String "010" EmptyString) items)
  ++ String "010" EmptyString.

(** [RawConfigParser.write]: the text of the file. *)
Definition write (c : cp) : string :=
  (match cp_defaults c with
   | [] => ""
   | ds => write_section default_section ds
   end)
  ++ String.concat "" (map (fun '(n, items) => write_section n items) (cp_sections c)).

(** *** [RawConfigParser._read] *)

(** A value while reading: an untouched string, or the list of lines of an
    option read in this pass (joined by [_join_multiline_values]). *)
Inductive pval := PStr (s : string) | PLines (l : list string).

(** [cursect]: none yet, the defaults, or a named section. *)
Inductive cursor := CurNone | CurDefault | CurSect (name : string).

Record rstate := mk_rs {
  rs_defaults : list (string * pval);
  rs_sections : list (string * list (string * pval));
  rs_cur : cursor;
  rs_sectname : string;
  rs_optname : option string;
  rs_indent : nat;
  rs_added_sects : list string;
  rs_added_opts : list (string * string);
  rs_err : bool
}.

Definition nl : string := String "010" EmptyString.

(** Universal-newline translation of text-mode reading. *)
Fixpoint newline_translate (s : string) : string :=
  match s with
  | EmptyString => EmptyString
  | String c s' =>
      if ascii_eqb c "013" then
        match s' with
        | String d s'' =>
            if ascii_eqb d "010" then String "010" (newline_translate s'')
            else String "010" (newline_translate s')
        | EmptyString => String "010" EmptyString
        end
      else String c (newline_translate s')
  end.

(** Iterating over the file: lines without their terminators. *)
Definition file_lines (text : string) : list string :=
  let parts := split_on "010" (newline_translate text) in
  match rev parts with
  | EmptyString :: rest => rev rest
  | _ => parts
  end.

(** [SECTCRE = \[(?P<header>.+)\]] matched at the start of a stripped line:
    the header runs to the last ["]"] and is not empty. *)
Fixpoint last_close (s : string) : option nat :=
  match s with
  | EmptyString => None
  | String c s' =>
      match last_close s' with
      | Some i => Some (S i)
      | None => if ascii_eqb c "]" then Some 0 else None
      end
  end.

Definition sect_header (value : string) : option string :=
  match value with
  | String c rest =>
      if ascii_eqb c "[" then
        match last_close rest with
        | Some (S i) => Some (take (S i) rest)
        | _ => None
        end
      else None
  | EmptyString => None
  end.

(** [OPTCRE] on a stripped line: the option is what precedes the first
    delimiter ([=] or [:]) without trailing blanks, the value what follows it
    without surrounding blanks. *)
Fixpoint split_delim (s : string) : option (string * string) :=
  match s with
  | EmptyString => None
  | String c s' =>
      if ascii_eqb c "=" || ascii_eqb c ":" then Some (EmptyString, s')
      else option_map (fun '(a, b) => (String c a, b)) (split_delim s')
  end.

(** [NONSPACECRE.search(line).start()] *)
Fixpoint first_nonspace (s : string) : nat :=
  match s with
  | EmptyString => 0
  | String c s' => if isspace c then S (first_nonspace s') else 0
  end.

Definition cur_dict (st : rstate) : option (list (string * pval)) :=
  match rs_cur st with
  | CurNone => None
  | CurDefault => Some (rs_defaults st)
  | CurSect n => assoc n (rs_sections st)
  end.

Definition upd_cur (st : rstate) (f : list (string * pval) -> list (string * pval))
  : rstate :=
  match rs_cur st with
  | CurNone => st
  | CurDefault =>
      mk_rs (f (rs_defaults st)) (rs_sections st) (rs_cur st) (rs_sectname st)
            (rs_optname st) (rs_indent st) (rs_added_sects st) (rs_added_opts st)
            (rs_err st)
  | CurSect n =>
      match assoc n (rs_sections st) with
      | None => st
      | Some d =>
          mk_rs (rs_defaults st) (assoc_set n (f d) (rs_sections st)) (rs_cur st)
                (rs_sectname st) (rs_optname st) (rs_indent st) (rs_added_sects st)
                (rs_added_opts st) (rs_err st)
      end
  end.

(** [cursect[optname].append(x)] *)
Definition append_to_opt (st : rstate) (o : string) (x : string) : rstate :=
  upd_cur st (fun d => match assoc o d with
                       | Some (PLines l) => assoc_set o (PLines (app l [x])) d
                       | _ => d
                       end).

Definition optname_set (st : rstate) : option string :=
  match rs_optname st with
  | Some o => if String.eqb o "" then None else Some o
  | None => None
  end.

Definition cur_set (st : rstate) : bool :=
  match rs_cur st with CurNone => false | _ => true end.

(** The "section header or option line" branch of [_read], after
    [indent_level = cur_indent_level]. *)
Definition header_or_option (st : rstate) (value : string) : res rstate :=
  match sect_header value with
  | Some h =>
      match assoc h (rs_sections st) with
      | Some _ =>
          if existsb (String.eqb h) (rs_added_sects st)
          then Err DuplicateSectionError
          else Ok (mk_rs (rs_defaults st) (rs_sections st) (CurSect h) h None
                         (rs_indent st) (h :: rs_added_sects st) (rs_added_opts st)
                         (rs_err st))
      | None =>
          if String.eqb h default_section then
            Ok (mk_rs (rs_defaults st) (rs_sections st) CurDefault h None
                      (rs_indent st) (rs_added_sects st) (rs_added_opts st)
                      (rs_err st))
          else
            Ok (mk_rs (rs_defaults st) (app (rs_sections st) [(h, [])]) (CurSect h)
                      h None (rs_indent st) (h :: rs_added_sects st)
                      (rs_added_opts st) (rs_err st))
      end
  | None =>
      if negb (cur_set st) then Err MissingSectionHeaderError
      else match split_delim value with
           | Some (opt, v) =>
               let optg := rstrip opt in
               let o := optionxform optg in
               if existsb (fun '(a, b) => String.eqb a (rs_sectname st) && String.eqb b o)
                          (rs_added_opts st)
               then Err DuplicateOptionError
               else
                 let st' := upd_cur st (fun d => assoc_set o (PLines [strip v]) d) in
                 Ok (mk_rs (rs_defaults st') (rs_sections st') (rs_cur st')
                           (rs_sectname st') (Some o) (rs_indent st')
                           (rs_added_sects st') ((rs_sectname st, o) :: rs_added_opts st')
                           (rs_err st' || String.eqb optg ""))
           | None =>
               Ok (mk_rs (rs_defaults st) (rs_sections st) (rs_cur st)
                         (rs_sectname st) (rs_optname st) (rs_indent st)
                         (rs_added_sects st) (rs_added_opts st) true)
           end
  end.

Definition with_indent (st : rstate) (n : nat) : rstate :=
  mk_rs (rs_defaults st) (rs_sections st) (rs_cur st) (rs_sectname st)
        (rs_optname st) n (rs_added_sects st) (rs_added_opts st) (rs_err st).

(** One iteration of the loop of [_read]. *)
Definition read_line (st : rstate) (line : string) : res rstate :=
  let sl := strip line in
  let comment := startswith "#" sl || startswith ";" sl in
  let value := if comment then "" else sl in
  if String.eqb value "" then
    match optname_set st with
    | Some o => if negb comment && cur_set st then Ok (append_to_opt st o "")
                else Ok st
    | None => Ok st
    end
  else
    let cur_indent := first_nonspace line in
    let continuation :=
      match optname_set st with
      | Some o => cur_set st && (rs_indent st <? cur_indent)
      | None => false
      end in
    match optname_set st with
    | Some o => if continuation then Ok (append_to_opt st o value)
                else header_or_option (with_indent st cur_indent) value
    | None => header_or_option (with_indent st cur_indent) value
    end.

Fixpoint read_lines (st : rstate) (lines : list string) : res rstate :=
  match lines with
  | [] => Ok st
  | l :: ls => let* st' := read_line st l in read_lines st' ls
  end.

(** [_join_multiline_values] *)
Definition join_val (v : pval) : string :=
  match v with
  | PStr s => s
  | PLines l => rstrip (join nl l)
  end.

Definition join_dict (d : list (string * pval)) : list (string * string) :=
  map (fun '(k, v) => (k, join_val v)) d.

Definition to_pdict (d : list (string * string)) : list (string * pval) :=
  map (fun '(k, v) => (k, PStr v)) d.

Definition start_state (c : cp) : rstate :=
  mk_rs (to_pdict (cp_defaults c))
        (map (fun '(n, d) => (n, to_pdict d)) (cp_sections c))
        CurNone "" None 0 [] [] false.

(** [ConfigParser.read(file)] into the existing parser [c], given the text
    of the file: [_read], [_join_multiline_values], then the accumulated
    [ParsingError] if a line could not be parsed. *)
Definition read (text : string) (c : cp) : res cp :=
  let* st := read_lines (start_state c) (file_lines text) in
  if rs_err st then Err ParsingError
  else Ok (mk_cp (join_dict (rs_defaults st))
                 (map (fun '(n, d) => (n, join_dict d)) (rs_sections st))).

End ConfigParser.

(* ------------------------------------------------------------------ *)
(** ** [pathlib.PurePosixPath] and [os.path.expanduser] *)

Module PathLib.

(** A path as pathlib keeps it: its root ([""], ["/"] or ["//"]) and its
    parts; two paths are [==] exactly when both agree. *)
Record path := mk_path { p_root : string; p_parts : list string }.

Definition path_eqb (p q : path) : bool :=
  String.eqb (p_root p) (p_root q)
  && (fix eq (a b : list string) : bool :=
        match a, b with
        | [], [] => true
        | x :: a', y :: b' => String.eqb x y && eq a' b'
        | _, _ => false
        end) (p_parts p) (p_parts q).

Fixpoint count_lead (c : ascii) (s : string) : nat :=
  match s with
  | String d s' => if ascii_eqb c d then S (count_lead c s') else 0
  | EmptyString => 0
  end.

(** [_PosixFlavour.splitroot] and [parse_parts] for one string. *)
Definition parse (s : string) : path :=
  let n := count_lead "/" s in
  let root := if n =? 0 then "" else if n =? 2 then "//" else "/" in
  let rel := drop n s in
  mk_path root (filter (fun x => negb (String.eqb x "" || String.eqb x "."))
                       (split_on "/" rel)).

(** [p / s] *)
Definition div (p : path) (s : string) : path :=
  let q := parse s in
  if String.eqb (p_root q) "" then mk_path (p_root p) (app (p_parts p) (p_parts q))
  else q.

(** The process environment [expanduser] consults: [$HOME] and the password
    database. *)
Record env := mk_env { env_home : string; env_pwnam : string -> option string }.

(** [posixpath.expanduser] *)
Definition expanduser (e : env) (p : string) : string :=
  if negb (startswith "~" p) then p
  else
    let i := match find_char "/" (drop 1 p) with
             | Some j => S j
             | None => String.length p
             end in
    let userhome :=
      if i =? 1 then Some (env_home e)
      else env_pwnam e (substring 1 (i - 1) p) in
    match userhome with
    | None => p
    | Some h =>
        match rstrip_by (fun c => ascii_eqb c "/") h ++ drop i p with
        | EmptyString => "/"
        | r => r
        end
    end.

(** [Path.home()] *)
Definition home (e : env) : path := parse (expanduser e "~").

End PathLib.

(* ------------------------------------------------------------------ *)
(** ** [ConfigManager] *)

Module ConfigManager.
Import PathLib.
Module CP := ConfigParser.

(** An instance: its [configparser] object, the text of its configuration
    file, and its [_repo_id]. *)
Record cm := mk_cm {
  config : CP.cp;
  config_file : string;
  repo_id0 : option string
}.

(** Python truthiness of an optional string. *)
Definition truthy (o : option string) : option string :=
  match o with
  | Some s => if String.eqb s "" then None else Some s
  | None => None
  end.

(** The parser after [_create_default_config]'s four section assignments. *)
Definition default_config : CP.cp :=
  CP.mk_cp []
    [("default.paths",
       [("workspace_base", "~/tickets"); ("tools_library_path", "~/tools")]);
     ("default.branches",
       [("standard_branches", "main, master, develop, stage, production")]);
     ("default.ticket_pattern",
       [("prefix_pattern", "[A-Za-z]{1,10}"); ("separator", "[-_]");
        ("number_pattern", "\d+"); ("description_pattern", ".*")]);
     ("default.links",
       [("current_ticket_link_locations", "~/Downloads");
        ("current_ticket_link_filename", "CurrentTicket");
        ("tools_to_link", "notebooks, scripts, utils")])].

(** [_load_config]: read the file into the existing parser. *)
Definition load_config (st : cm) : res cm :=
  let* c := CP.read (config_file st) (config st) in
  Ok (mk_cm c (config_file st) (repo_id0 st)).

(** [_save_config]: write the parser over the file. *)
Definition save_config (st : cm) : cm :=
  mk_cm (config st) (CP.write (config st)) (repo_id0 st).

(** [ConfigManager(config_file, repo_id)]: [file] is the text of the file,
    [None] when it does not exist yet. *)
Definition init (file : option string) (repo_id : option string) : res cm :=
  match file with
  | Some text => load_config (mk_cm CP.empty_cp text repo_id)
  | None => load_config (save_config (mk_cm default_config "" repo_id))
  end.

(** [ConfigManager.get(section, key, fallback, repo_id)] *)
Definition get (st : cm) (section key : string) (fallback repo_id : option string)
  : res string :=
  let effective_repo_id :=
    match repo_id with Some r => Some r | None => repo_id0 st end in
  let from_default :=
    let default_section := "default." ++ section in
    if CP.has_section (config st) default_section
       && CP.has_option (config st) default_section key
    then CP.get (config st) default_section key
    else Ok (match truthy fallback with Some f => f | None => "" end) in
  match truthy effective_repo_id with
  | Some r =>
      let repo_section := "repo:" ++ r in
      let dot_key := section ++ "." ++ key in
      if CP.has_section (config st) repo_section
         && CP.has_option (config st) repo_section dot_key
      then CP.get (config st) repo_section dot_key
      else from_default
  | None => from_default
  end.

(** The section and key [set] writes to. *)
Definition set_target (section key : string) (repo_id : option string) (default : bool)
  : string * string :=
  if default then ("default." ++ section, key)
  else match truthy repo_id with
       | Some r => ("repo:" ++ r, section ++ "." ++ key)
       | None => (section, key)
       end.

(** [ConfigManager.set(section, key, value, repo_id, default)] *)
Definition set (st : cm) (section key value : string) (repo_id : option string)
  (default : bool) : res cm :=
  let '(target_section, target_key) := set_target section key repo_id default in
  let* c1 := (if CP.has_section (config st) target_section then Ok (config st)
              else CP.add_section (config st) target_section) in
  let* c2 := CP.set c1 target_section target_key value in
  load_config (save_config (mk_cm c2 (config_file st) (repo_id0 st))).

(** [ConfigManager.get_path(section, key, fallback, repo_id)] *)
Definition get_path (e : env) (st : cm) (section key : string)
  (fallback repo_id : option string) : res path :=
  let effective_repo_id :=
    match repo_id with Some r => Some r | None => repo_id0 st end in
  let* value := get st section key fallback effective_repo_id in
  if negb (String.eqb value "") then Ok (parse (expanduser e value))
  else Ok (match truthy fallback with Some f => parse f | None => home e end).

End ConfigManager.

(* ------------------------------------------------------------------ *)
(** ** [RepoIdentifier] *)

Module RepoIdentifier.
Import PathLib.

Section Normalize.

(** [urllib.parse._check_bracketed_netloc] (it calls [ipaddress]): whether it
    accepts a netloc holding both ["["] and ["]"]. *)
Variable bracketed_netloc_ok : string -> bool.

(** [_splitnetloc(url, 2)]: the netloc ends at the first of ["/?#"]. *)
Fixpoint split_netloc (s : string) : string * string :=
  match s with
  | EmptyString => (EmptyString, EmptyString)
  | String c s' =>
      if ascii_eqb c "/" || ascii_eqb c "?" || ascii_eqb c "#" then (EmptyString, s)
      else let '(a, b) := split_netloc s' in (String c a, b)
  end.

(** [_splitparams(url)]: the params start at the first [";"] after the last
    ["/"]. *)
Definition split_params (url : string) : string :=
  if mem_char "/" url then
    let last_slash := match rfind_char "/" url with Some i => i | None => 0 end in
    match find_char ";" (drop last_slash url) with
    | Some j => take (last_slash + j) url
    | None => url
    end
  else match find_char ";" url with
       | Some j => take j url
       | None => url
       end.

(** [urlparse(url)] restricted to a URL that starts with ["http://"] or
    ["https://"]: its [netloc] and [path]. *)
Definition urlparse_netloc_path (url : string) : res (string * string) :=
  (* [lstrip] of C0 controls is a no-op on such a URL; then the unsafe
     bytes are removed *)
  let url := replace_char "009" "" (replace_char "013" "" (replace_char "010" "" url)) in
  (* the scheme runs to the first [":"] *)
  let rest := match split_once ":" url with Some (_, r) => r | None => url end in
  let* nr :=
    (if startswith "//" rest then
       let '(netloc, r) := split_netloc (drop 2 rest) in
       let lb := mem_char "[" netloc in
       let rb := mem_char "]" netloc in
       if (lb && negb rb) || (rb && negb lb) then Err ValueError
       else if lb && rb && negb (bracketed_netloc_ok netloc) then Err ValueError
       else Ok (netloc, r)
     else Ok ("", rest)) in
  let '(netloc, r) := nr in
  let r := match split_once "#" r with Some (a, _) => a | None => r end in
  let r := match split_once "?" r with Some (a, _) => a | None => r end in
  let r := if mem_char ";" r then split_params r else r in
  Ok (netloc, r).

(** [RepoIdentifier.normalize_url] *)
Definition normalize_url (url : string) : res string :=
  if String.eqb url "" then Ok ""
  else
    let url := if endswith ".git" url then take (String.length url - 4) url else url in
    if startswith "git@" url then
      let url := drop 4 url in
      match split_once ":" url with
      | Some (host, path) => Ok (host ++ "/" ++ path)
      | None => Ok url
      end
    else if startswith "http://" url || startswith "https://" url then
      let* np := urlparse_netloc_path url in
      let '(host, path) := np in
      let path := strip_chars "/" path in
      let host := match split_once ":" host with Some (h, _) => h | None => host end in
      Ok (if String.eqb path "" then host else host ++ "/" ++ path)
    else Ok url.

End Normalize.

(** The outcome of one [subprocess.run(..., check=True)]: its [stdout], a
    non-zero exit ([CalledProcessError]), no [git] executable
    ([FileNotFoundError]), or another [OSError] (say [PermissionError]). *)
Inductive proc :=
| Completed (stdout : string)
| CalledProcessError
| FileNotFound
| OtherOSError.

(** What [get_repo_identifier] observes of its surroundings. *)
Record git_env := mk_git_env {
  git_dir : option path;                  (* [self.git_dir] *)
  remote_get_url : string -> proc;        (* [git remote get-url <name>] *)
  remote_v : proc;                        (* [git remote -v] *)
  resolved : path -> string;              (* [str(p.resolve())] *)
  md5_hex : string -> string;             (* [hashlib.md5(s.encode()).hexdigest()] *)
  bracketed_ok : string -> bool           (* [_check_bracketed_netloc] accepts *)
}.

(** [RepoIdentifier.get_remote_url(name)] *)
Definition get_remote_url (g : git_env) (name : string) : res (option string) :=
  match git_dir g with
  | None => Ok None
  | Some _ =>
      match remote_get_url g name with
      | Completed out => Ok (Some (strip out))
      | CalledProcessError | FileNotFound => Ok None
      | OtherOSError => Err OSError
      end
  end.

(** The loop of [get_all_remotes] over the lines of the listing. *)
Fixpoint parse_remotes (acc : list (string * string)) (lines : list string)
  : res (list (string * string)) :=
  match lines with
  | [] => Ok acc
  | line :: ls =>
      if String.eqb line "" then parse_remotes acc ls
      else match split_on "009" line with
           | name :: field :: _ =>
               match split_ws field with
               | [] => Err IndexError
               | url :: _ =>
                   parse_remotes (if assoc_mem name acc then acc
                                  else app acc [(name, url)]) ls
               end
           | _ => parse_remotes acc ls
           end
  end.

(** [RepoIdentifier.get_all_remotes()] *)
Definition get_all_remotes (g : git_env) : res (list (string * string)) :=
  match git_dir g with
  | None => Ok []
  | Some _ =>
      match remote_v g with
      | Completed out => parse_remotes [] (split_on "010" (strip out))
      | CalledProcessError | FileNotFound => Ok []
      | OtherOSError => Err OSError
      end
  end.

(** [Path.parent] and [Path.name] *)
Definition parent (p : path) : path := mk_path (p_root p) (removelast (p_parts p)).
Definition name (p : path) : string := last (p_parts p) "".

(** [RepoIdentifier._get_local_identifier()] *)
Definition get_local_identifier (g : git_env) : string :=
  match git_dir g with
  | None => "local/unknown"
  | Some gd =>
      let repo_root := parent gd in
      let repo_name := name repo_root in
      let path_hash := take 8 (md5_hex g (resolved g repo_root)) in
      "local/" ++ repo_name ++ "-" ++ path_hash
  end.

(** The loop over the other remotes in [get_repo_identifier]. *)
Fixpoint first_other (g : git_env) (remotes : list (string * string))
  : res (option string) :=
  match remotes with
  | [] => Ok None
  | (remote_name, url) :: rs =>
      if negb (String.eqb remote_name "origin") then
        let* normalized := normalize_url (bracketed_ok g) url in
        if negb (String.eqb normalized "") then Ok (Some normalized)
        else first_other g rs
      else first_other g rs
  end.

(** [RepoIdentifier.get_repo_identifier()] *)
Definition get_repo_identifier (g : git_env) : res string :=
  let* origin_url := get_remote_url g "origin" in
  let* from_origin :=
    (match ConfigManager.truthy origin_url with
     | Some u =>
         let* normalized := normalize_url (bracketed_ok g) u in
         Ok (if String.eqb normalized "" then None else Some normalized)
     | None => Ok None
     end) in
  match from_origin with
  | Some n => Ok n
  | None =>
      let* remotes := get_all_remotes g in
      let* other := first_other g remotes in
      match other with
      | Some n => Ok n
      | None => Ok (get_local_identifier g)
      end
  end.

End RepoIdentifier.

(* ------------------------------------------------------------------ *)
(** ** Python regular expressions ([re.compile] / [Pattern.match]) for the
    syntax [BranchAnalyzer] and [find_existing_ticket_dir] build *)

Module Regex.

(** Members of a character set. *)
Inductive citem :=
| CIChar (c : ascii)
| CIRange (lo hi : ascii)
| CICat (negated : bool) (cat : ascii).  (* [\d] [\w] [\s], or [\D] [\W] [\S] *)

Inductive re :=
| REps
| RChar (c : ascii)
| RAny                                   (* [.] : anything but a newline *)
| RSet (neg : bool) (items : list citem)
| RCat1 (negated : bool) (cat : ascii)   (* [\d], [\D], ... outside a set *)
| RBol                                   (* [^] *)
| REol                                   (* [$] *)
| RGroup (n : nat) (r : re)
| RCat (r1 r2 : re)
| RAlt (r1 r2 : re)
| RRep (r : re) (mn : nat) (mx : option nat) (greedy : bool).

Definition is_digit (c : ascii) : bool :=
  let n := nat_of_ascii c in (48 <=? n) && (n <=? 57).
Definition is_alpha (c : ascii) : bool :=
  let n := nat_of_ascii c in ((65 <=? n) && (n <=? 90)) || ((97 <=? n) && (n <=? 122)).

Definition cat_matches (cat c : ascii) : bool :=
  if ascii_eqb cat "d" then is_digit c
  else if ascii_eqb cat "w" then is_alpha c || is_digit c || ascii_eqb c "_"
  else isspace c.

Definition citem_matches (c : ascii) (it : citem) : bool :=
  match it with
  | CIChar d => ascii_eqb c d
  | CIRange lo hi => (nat_of_ascii lo <=? nat_of_ascii c) && (nat_of_ascii c <=? nat_of_ascii hi)
  | CICat neg cat => xorb neg (cat_matches cat c)
  end.

(** One character against a single-character node; [icase] is
    [re.IGNORECASE]. *)
Definition char_ok (icase : bool) (r : re) (c : ascii) : bool :=
  let variants := if icase then [c; lower_char c; upper_char c] else [c] in
  match r with
  | RChar d => if icase then ascii_eqb (lower_char c) (lower_char d) else ascii_eqb c d
  | RAny => negb (ascii_eqb c "010")
  | RSet neg items => xorb neg (existsb (fun v => existsb (citem_matches v) items) variants)
  | RCat1 neg cat => xorb neg (cat_matches cat c)
  | _ => false
  end.

(** Captures: group number to [(start, end)], the latest first. *)
Definition caps := list (nat * (nat * nat)).

Inductive mres := Matched (c : caps) | NoMatch | OutOfFuel.

Definition orelse (a : mres) (b : unit -> mres) : mres :=
  match a with NoMatch => b tt | _ => a end.

(** The backtracking matcher in continuation-passing style: alternatives and
    repetitions are tried in the order of Python's [sre] (greedy repeats
    take one more iteration first, lazy ones last); an iteration beyond the
    minimum that matches the empty string is not taken. [OutOfFuel] is kept
    apart from [NoMatch]. *)
Fixpoint mt (fuel : nat) (icase : bool) (inp : string) (r : re) (i : nat) (cs : caps)
  (k : nat -> caps -> mres) : mres :=
  match fuel with
  | 0 => OutOfFuel
  | S f =>
      match r with
      | REps => k i cs
      | RChar _ | RAny | RSet _ _ | RCat1 _ _ =>
          match String.get i inp with
          | Some c => if char_ok icase r c then k (S i) cs else NoMatch
          | None => NoMatch
          end
      | RBol => if i =? 0 then k i cs else NoMatch
      | REol =>
          if (i =? String.length inp)
             || ((S i =? String.length inp) && (match String.get i inp with
                                                  | Some c => ascii_eqb c "010"
                                                  | None => false end))
          then k i cs else NoMatch
      | RGroup n r1 => mt f icase inp r1 i cs (fun j cs' => k j ((n, (i, j)) :: cs'))
      | RCat r1 r2 => mt f icase inp r1 i cs (fun j cs' => mt f icase inp r2 j cs' k)
      | RAlt r1 r2 => orelse (mt f icase inp r1 i cs k) (fun _ => mt f icase inp r2 i cs k)
      | RRep r1 mn mx g =>
          match mn with
          | S mn' =>
              mt f icase inp r1 i cs
                 (fun j cs' => mt f icase inp (RRep r1 mn' (option_map pred mx) g) j cs' k)
          | 0 =>
              match mx with
              | Some 0 => k i cs
              | _ =>
                  let more := fun _ : unit =>
                    mt f icase inp r1 i cs
                       (fun j cs' => if j =? i then NoMatch
                                     else mt f icase inp (RRep r1 0 (option_map pred mx) g) j cs' k) in
                  if g then orelse (more tt) (fun _ => k i cs)
                  else orelse (k i cs) more
              end
          end
      end
  end.

(** [Pattern.match(s)]: anchored at the start only. *)
Definition rmatch (fuel : nat) (icase : bool) (r : re) (s : string) : mres :=
  mt fuel icase s r 0 [] (fun _ cs => Matched cs).

(** [m.group(n)]; [None] when the group did not take part. *)
Definition group (s : string) (cs : caps) (n : nat) : option string :=
  match find (fun '(m, _) => m =? n) cs with
  | Some (_, (a, b)) => Some (substring a (b - a) s)
  | None => None
  end.

(** A fuel that the matcher never exhausts on an input of length [n]
    (lemma [RegexFacts.mt_adequate] below). *)
Fixpoint need (n : nat) (r : re) : nat :=
  match r with
  | RGroup _ r1 => S (need n r1)
  | RCat a b | RAlt a b => S (Nat.max (need n a) (need n b))
  | RRep a mn _ _ => S (mn + n + need n a)
  | _ => 1
  end.

Definition match_fuel (r : re) (s : string) : nat := need (String.length s) r.

End Regex.

(** [re._parser.parse] for the supported syntax. [PUnsupported] marks
    syntax outside it (look-arounds, back-references, inline flags,
    [\x]/[\u] escapes, possessive repeats, ...), which is not an error of
    Python's. *)
Module RegexParser.
Import Regex.

Inductive presult :=
| POk (r : re) (rest : string) (ngroups : nat)
| PError
| PUnsupported.

Fixpoint digits (s : string) : string * string :=
  match s with
  | String c s' => if is_digit c then let '(a, b) := digits s' in (String c a, b)
                   else (EmptyString, s)
  | EmptyString => (EmptyString, EmptyString)
  end.

Fixpoint nat_of_digits_acc (acc : nat) (s : string) : nat :=
  match s with
  | String c s' => nat_of_digits_acc (acc * 10 + (nat_of_ascii c - 48)) s'
  | EmptyString => acc
  end.
Definition nat_of_digits (s : string) : nat := nat_of_digits_acc 0 s.

Inductive qresult := QNone | QOk (mn : nat) (mx : option nat) (rest : string) | QErr.

(** A repeat operator at the head of [s]: [*], [+], [?] or a well-formed
    [{m}], [{m,}], [{,n}], [{m,n}]; another ["{"] is a literal. *)
Definition quant (s : string) : qresult :=
  match s with
  | String c s' =>
      if ascii_eqb c "*" then QOk 0 None s'
      else if ascii_eqb c "+" then QOk 1 None s'
      else if ascii_eqb c "?" then QOk 0 (Some 1) s'
      else if ascii_eqb c "{" then
        match s' with
        | String d _ =>
            if ascii_eqb d "}" then QNone
            else
              let '(lo, r1) := digits s' in
              let '(hi, comma, r2) :=
                match r1 with
                | String e r1' => if ascii_eqb e "," then
                                    let '(h, r2) := digits r1' in (h, true, r2)
                                  else (lo, false, r1)
                | EmptyString => (lo, false, r1)
                end in
              match r2 with
              | String e r3 =>
                  if ascii_eqb e "}" then
                    let mn := if String.eqb lo "" then 0 else nat_of_digits lo in
                    let mx := if String.eqb hi "" then None else Some (nat_of_digits hi) in
                    match mx with
                    | Some m => if m <? mn then QErr else QOk mn mx r3
                    | None => QOk mn mx r3
                    end
                  else QNone
              | EmptyString => QNone
              end
        | EmptyString => QNone
        end
      else QNone
  | EmptyString => QNone
  end.

Inductive eresult := ELit (c : ascii) | ECat (neg : bool) (cat : ascii) | EError | EUnsupported.

(** [_escape] / [_class_escape] for the character after the backslash. *)
Definition escape_code (in_class : bool) (e : ascii) : eresult :=
  if mem_char e "dDsSwW" then ECat (negb (ascii_eqb (lower_char e) e)) (lower_char e)
  else if ascii_eqb e "n" then ELit "010"
  else if ascii_eqb e "t" then ELit "009"
  else if ascii_eqb e "r" then ELit "013"
  else if ascii_eqb e "f" then ELit "012"
  else if ascii_eqb e "v" then ELit "011"
  else if ascii_eqb e "a" then ELit "007"
  else if in_class && ascii_eqb e "b" then ELit "008"
  else if mem_char e "AbBZxuUN" || is_digit e then EUnsupported
  else if is_alpha e then EError
  else ELit e.

(** The body of a character set, after ["["] and an optional ["^"]. *)
Fixpoint p_set (fuel : nat) (neg : bool) (items : list citem) (s : string) : presult :=
  match fuel with
  | 0 => PUnsupported
  | S f =>
      match s with
      | EmptyString => PError
      | String c s1 =>
          if ascii_eqb c "]" && negb (match items with [] => true | _ => false end)
          then POk (RSet neg (rev items)) s1 0
          else
            let code1 :=
              if ascii_eqb c "\" then
                match s1 with
                | String e s2 => (escape_code true e, s2)
                | EmptyString => (EError, s1)
                end
              else (ELit c, s1) in
            let '(e1, s2) := code1 in
            let item_of (e : eresult) :=
              match e with
              | ELit x => Some (CIChar x)
              | ECat n ct => Some (CICat n ct)
              | _ => None
              end in
            match e1 with
            | EError => PError
            | EUnsupported => PUnsupported
            | _ =>
                match s2 with
                | String dash s3 =>
                    if ascii_eqb dash "-" then
                      match s3 with
                      | EmptyString => PError
                      | String d s4 =>
                          if ascii_eqb d "]" then
                            match item_of e1 with
                            | Some it => POk (RSet neg (rev (CIChar "-" :: it :: items))) s4 0
                            | None => PError
                            end
                          else
                            let '(e2, s5) :=
                              if ascii_eqb d "\" then
                                match s4 with
                                | String x s5 => (escape_code true x, s5)
                                | EmptyString => (EError, s4)
                                end
                              else (ELit d, s4) in
                            match e1, e2 with
                            | ELit lo, ELit hi =>
                                if nat_of_ascii hi <? nat_of_ascii lo then PError
                                else p_set f neg (CIRange lo hi :: items) s5
                            | _, EUnsupported => PUnsupported
                            | _, _ => PError
                            end
                      end
                    else
                      match item_of e1 with
                      | Some it => p_set f neg (it :: items) s2
                      | None => PError
                      end
                | EmptyString =>
                    match item_of e1 with
                    | Some it => p_set f neg (it :: items) s2
                    | None => PError
                    end
                end
            end
      end
  end.

Definition is_anchor (r : re) : bool :=
  match r with RBol | REol => true | _ => false end.

Fixpoint p_alt (n : nat) (s : string) (g : nat) {struct n} : presult :=
  match n with
  | 0 => PUnsupported
  | S n' =>
      match p_cat n' s g with
      | POk r1 s1 g1 =>
          match s1 with
          | String c s2 =>
              if ascii_eqb c "|" then
                match p_alt n' s2 g1 with
                | POk r2 s3 g2 => POk (RAlt r1 r2) s3 g2
                | e => e
                end
              else POk r1 s1 g1
          | EmptyString => POk r1 s1 g1
          end
      | e => e
      end
  end
with p_cat (n : nat) (s : string) (g : nat) {struct n} : presult :=
  match n with
  | 0 => PUnsupported
  | S n' =>
      match s with
      | EmptyString => POk REps s g
      | String c _ =>
          if ascii_eqb c "|" || ascii_eqb c ")" then POk REps s g
          else match p_piece n' s g with
               | POk r1 s1 g1 =>
                   match p_cat n' s1 g1 with
                   | POk r2 s2 g2 => POk (RCat r1 r2) s2 g2
                   | e => e
                   end
               | e => e
               end
      end
  end
with p_piece (n : nat) (s : string) (g : nat) {struct n} : presult :=
  match n with
  | 0 => PUnsupported
  | S n' =>
      match p_atom n' s g with
      | POk a s1 g1 =>
          match quant s1 with
          | QNone => POk a s1 g1
          | QErr => PError
          | QOk mn mx s2 =>
              if is_anchor a then PError
              else
                let lazy := match s2 with
                            | String c s3 => if ascii_eqb c "?" then Some (false, s3)
                                             else if ascii_eqb c "+" then None
                                             else Some (true, s2)
                            | EmptyString => Some (true, s2)
                            end in
                match lazy with
                | None => PUnsupported
                | Some (greedy, s3) =>
                    match quant s3 with
                    | QNone => POk (RRep a mn mx greedy) s3 g1
                    | _ => PError
                    end
                end
          end
      | e => e
      end
  end
with p_atom (n : nat) (s : string) (g : nat) {struct n} : presult :=
  match n with
  | 0 => PUnsupported
  | S n' =>
      match s with
      | EmptyString => PError
      | String c s' =>
          if ascii_eqb c "(" then
            let group_body (capture : bool) (body : string) :=
              let g0 := if capture then S g else g in
              match p_alt n' body g0 with
              | POk r (String d rest) g1 =>
                  if ascii_eqb d ")" then
                    POk (if capture then RGroup (S g) r else r) rest g1
                  else PError
              | POk _ EmptyString _ => PError
              | e => e
              end in
            if startswith "?:" s' then group_body false (drop 2 s')
            else if startswith "?P<" s' then
              match split_once ">" (drop 3 s') with
              | Some (nm, body) => if String.eqb nm "" then PError else group_body true body
              | None => PError
              end
            else if startswith "?" s' then PUnsupported
            else group_body true s'
          else if ascii_eqb c "[" then
            let with_groups (p : presult) :=
              match p with POk r rest _ => POk r rest g | e => e end in
            match s' with
            | String d s'' => if ascii_eqb d "^" then with_groups (p_set (S (String.length s'')) true [] s'')
                              else with_groups (p_set (S (String.length s')) false [] s')
            | EmptyString => PError
            end
          else if ascii_eqb c "." then POk RAny s' g
          else if ascii_eqb c "^" then POk RBol s' g
          else if ascii_eqb c "$" then POk REol s' g
          else if ascii_eqb c "\" then
            match s' with
            | String e s'' =>
                match escape_code false e with
                | ELit x => POk (RChar x) s'' g
                | ECat ng ct => POk (RCat1 ng ct) s'' g
                | EError => PError
                | EUnsupported => PUnsupported
                end
            | EmptyString => PError
            end
          else if mem_char c "*+?" then PError
          else if ascii_eqb c "{" then
            match quant s with
            | QOk _ _ _ | QErr => PError
            | QNone => POk (RChar c) s' g
            end
          else POk (RChar c) s' g
      end
  end.

Inductive compiled := Compiled (r : re) (ngroups : nat) | CompileError | CompileUnsupported.

(** [re.compile(pattern)] *)
Definition compile (pat : string) : compiled :=
  match p_alt (4 * String.length pat + 8) pat 0 with
  | POk r EmptyString g => Compiled r g
  | POk _ _ _ | PError => CompileError
  | PUnsupported => CompileUnsupported
  end.

(** [re.escape] *)
Definition special_chars : string :=
  "()[]{}?*+-|^$\.&~# " ++ String "009" (String "010" (String "013" (String "011" (String "012" EmptyString)))).

Fixpoint escape (s : string) : string :=
  match s with
  | EmptyString => EmptyString
  | String c s' => if mem_char c special_chars then String "\" (String c (escape s'))
                   else String c (escape s')
  end.

End RegexParser.

(* ------------------------------------------------------------------ *)
(** ** [BranchAnalyzer] *)

Module BranchAnalyzer.
Import Regex RegexParser.

(** [ConfigManager.get_list(section, key)] *)
Definition get_list (st : ConfigManager.cm) (section key : string) : res (list string) :=
  let* value := ConfigManager.get st section key None (ConfigManager.repo_id0 st) in
  if String.eqb value "" then Ok []
  else Ok (map strip (filter (fun item => negb (String.eqb (strip item) ""))
                             (split_on "," value))).

(** The pattern text [__init__] hands to [re.compile]. *)
Definition build_pattern (prefix_pattern separator number_pattern description_pattern : string)
  : string :=
  let sep_pattern :=
    if startswith "[" separator && endswith "]" separator then separator
    else escape separator in
  "^(" ++ prefix_pattern ++ ")(" ++ sep_pattern ++ ")(" ++ number_pattern ++ ")("
  ++ sep_pattern ++ ")(" ++ description_pattern ++ ")$".

Record analyzer := mk_analyzer {
  standard_branches : list string;
  pattern : compiled
}.

(** [BranchAnalyzer(config)]: [re.error] surfaces as [ReError]. *)
Definition init (st : ConfigManager.cm) : res analyzer :=
  let* standard := get_list st "branches" "standard_branches" in
  let* prefix_pattern := ConfigManager.get st "ticket_pattern" "prefix_pattern" None None in
  let* separator := ConfigManager.get st "ticket_pattern" "separator" None None in
  let* number_pattern := ConfigManager.get st "ticket_pattern" "number_pattern" None None in
  let* description_pattern :=
    ConfigManager.get st "ticket_pattern" "description_pattern" None None in
  match compile (build_pattern prefix_pattern separator number_pattern description_pattern) with
  | CompileError => Err ReError
  | c => Ok (mk_analyzer standard c)
  end.

(** The dictionary [extract_ticket_info] returns. *)
Record ticket_info := mk_ticket {
  prefix : option string;
  number : option string;
  description : option string;
  full : string
}.

(** [Raised e]: the call raises [e]. [Unmodelled]: a pattern outside the
    supported syntax ([OutOfFuel] does not occur, by [Regex_adequate]). *)
Inductive extract_result :=
  Ticket (t : ticket_info) | NotTicket | Raised (e : exn) | Unmodelled.

(** [BranchAnalyzer.extract_ticket_info(branch_name)]: [match.group(i)]
    raises [IndexError] when the pattern has fewer than [i] groups; the
    dictionary asks for group 5 at the latest. *)
Definition extract_ticket_info (a : analyzer) (branch_name : string) : extract_result :=
  match pattern a with
  | Compiled r ngroups =>
      match rmatch (match_fuel r branch_name) false r branch_name with
      | Matched cs =>
          if Nat.ltb ngroups 5 then Raised IndexError
          else Ticket (mk_ticket (group branch_name cs 1) (group branch_name cs 3)
                                 (group branch_name cs 5) branch_name)
      | NoMatch => NotTicket
      | OutOfFuel => Unmodelled
      end
  | _ => Unmodelled
  end.

(** [BranchAnalyzer.is_standard_branch(branch_name)] *)
Definition is_standard_branch (a : analyzer) (branch_name : string) : bool :=
  existsb (String.eqb branch_name) (standard_branches a).

End BranchAnalyzer.

(* ------------------------------------------------------------------ *)
(** ** [DirectoryManager] *)

Module DirectoryManager.
Import PathLib Regex RegexParser.

(** The file system: absolute paths (as lists of names) with their kind,
    in the order in which [os.listdir] enumerates them. The root always
    exists. [..] is not resolved: it is an ordinary name here. *)
Inductive kind := Dir | File.
Definition fs := list (list string * kind).

Definition names_eqb (a b : list string) : bool :=
  if list_eq_dec string_dec a b then true else false.

Definition kind_of (f : fs) (a : list string) : option kind :=
  match a with
  | [] => Some Dir
  | _ => option_map snd (find (fun e => names_eqb (fst e) a) f)
  end.

(** The process the code runs in: its environment ([$HOME], the password
    database), its working directory and [platform.system() == 'Windows']. *)
Record os := mk_os { os_env : env; os_cwd : list string; os_windows : bool }.

(** The absolute names of a path. *)
Definition abs (o : os) (p : path) : list string :=
  if String.eqb (p_root p) "" then app (os_cwd o) (p_parts p) else p_parts p.

(** [Path.mkdir(parents=True, exist_ok=True)]: every missing ancestor and
    the path itself are created; an existing file on the way raises. *)
Fixpoint mkdir_from (f : fs) (pre rest : list string) : res fs :=
  match rest with
  | [] => Ok f
  | c :: rest' =>
      let p := app pre [c] in
      match kind_of f p with
      | Some Dir => mkdir_from f p rest'
      | Some File =>
          Err (match rest' with [] => FileExistsError | _ => NotADirectoryError end)
      | None => mkdir_from (app f [(p, Dir)]) p rest'
      end
  end.

Definition mkdir (o : os) (f : fs) (p : path) : res fs := mkdir_from f [] (abs o p).

(** [Path.exists()] *)
Definition exists_ (o : os) (f : fs) (p : path) : bool :=
  match kind_of f (abs o p) with Some _ => true | None => false end.

(** [Path.is_dir()] *)
Definition is_dir (o : os) (f : fs) (p : path) : bool :=
  match kind_of f (abs o p) with Some Dir => true | _ => false end.

(** The name of [b] when it is an immediate child of [a]. *)
Fixpoint child_name (a b : list string) : option string :=
  match a, b with
  | [], [n] => Some n
  | x :: a', y :: b' => if String.eqb x y then child_name a' b' else None
  | _, _ => None
  end.

(** [os.listdir(a)]: the names of [a]'s entries in enumeration order. *)
Definition listdir (f : fs) (a : list string) : list string :=
  flat_map (fun e => match child_name a (fst e) with Some n => [n] | None => [] end) f.

(** [p._make_child_relpath(name)], which [Path.iterdir] yields. *)
Definition child (p : path) (name : string) : path :=
  mk_path (p_root p) (app (p_parts p) [name]).

(** [Path.iterdir()] *)
Definition iterdir (o : os) (f : fs) (p : path) : list path :=
  map (child p) (listdir f (abs o p)).

(** [invalid_chars] of both sanitizers: less-than, greater-than, colon,
    double quote, slash, backslash, bar, question mark and star. *)
Definition invalid_chars : string := "<>:" ++ String "034" "/\|?*".

Fixpoint replace_all_chars (chars : string) (r : string) (s : string) : string :=
  match chars with
  | EmptyString => s
  | String c chars' => replace_all_chars chars' r (replace_char c r s)
  end.

(** [DirectoryManager._sanitize_repo_name(repo_id)] *)
Definition sanitize_repo_name (repo_id : string) : string :=
  let name := if startswith "local/" repo_id then replace_str "local/" "" repo_id
              else repo_id in
  let name := replace_all_chars invalid_chars "_" name in
  let name := replace_char "/" "_" name in
  if 255 <? String.length name then take 255 name else name.

Definition reserved : list string :=
  ["CON"; "PRN"; "AUX"; "NUL"]
  ++ map (fun i => "COM" ++ String (ascii_of_nat (48 + i)) EmptyString) (seq 1 9)
  ++ map (fun i => "LPT" ++ String (ascii_of_nat (48 + i)) EmptyString) (seq 1 9).

(** The Windows ceiling, from the estimate [workspace_path_len]. *)
Definition max_name_len (workspace_path_len : Z) : Z :=
  Z.max 50 (260 - workspace_path_len - 50).

(** [DirectoryManager.sanitize_directory_name(name)] *)
Definition sanitize_directory_name (is_windows : bool) (name : string) : string :=
  let sanitized := replace_all_chars invalid_chars "_" name in
  let sanitized := strip_chars ". " sanitized in
  let sanitized := if existsb (String.eqb (upper sanitized)) reserved
                   then "_" ++ sanitized else sanitized in
  if is_windows then
    let workspace_path_len := 100%Z in
    let m := max_name_len workspace_path_len in
    if (m <? Z.of_nat (String.length sanitized))%Z then take (Z.to_nat m) sanitized
    else sanitized
  else if 255 <? String.length sanitized then take 255 sanitized else sanitized.

(** [DirectoryManager.get_workspace_base(repo_id)] for the manager of [st]. *)
Definition get_workspace_base (o : os) (st : ConfigManager.cm) (f : fs)
  (repo_id : option string) : res (path * fs) :=
  let* workspace_base :=
    ConfigManager.get_path (os_env o) st "paths" "workspace_base" None repo_id in
  let* default_workspace_base :=
    ConfigManager.get_path (os_env o) st "paths" "workspace_base" (Some "~/tickets") None in
  let workspace_base :=
    match ConfigManager.truthy repo_id with
    | Some r =>
        if path_eqb workspace_base default_workspace_base
        then div workspace_base (sanitize_repo_name r)
        else workspace_base
    | None => workspace_base
    end in
  let* f' := mkdir o f workspace_base in
  Ok (workspace_base, f').

(** The pattern [find_existing_ticket_dir] compiles (with [re.IGNORECASE]). *)
Definition ticket_dir_pattern (prefix number : string) : string :=
  "^" ++ escape prefix ++ "[-_]" ++ escape number ++ "([-_].*)?$".

(** [pattern.match(name)] with [re.IGNORECASE]. *)
Definition matches (r : re) (name : string) : bool :=
  match rmatch (match_fuel r name) true r name with
  | Matched _ => true
  | _ => false
  end.

(** The loop of [find_existing_ticket_dir]. *)
Fixpoint first_match (o : os) (f : fs) (r : re) (items : list path) : option path :=
  match items with
  | [] => None
  | item :: items' =>
      if is_dir o f item && matches r (last (p_parts item) "")
      then Some item
      else first_match o f r items'
  end.

(** [DirectoryManager.find_existing_ticket_dir(prefix, number, repo_id)] *)
Definition find_existing_ticket_dir (o : os) (st : ConfigManager.cm) (f : fs)
  (prefix number : string) (repo_id : option string) : res (option path * fs) :=
  let* wf := get_workspace_base o st f repo_id in
  let '(workspace_base, f1) := wf in
  if negb (exists_ o f1 workspace_base) then Ok (None, f1)
  else
    match compile (ticket_dir_pattern prefix number) with
    | Compiled r _ => Ok (first_match o f1 r (iterdir o f1 workspace_base), f1)
    | _ => Err ReError
    end.

(** [DirectoryManager.create_ticket_directory(branch_name, ticket_info,
    repo_id)], with [ticket_info['prefix']] and [ticket_info['number']]. *)
Definition create_ticket_directory (o : os) (st : ConfigManager.cm) (f : fs)
  (branch_name prefix number : string) (repo_id : option string) : res (path * fs) :=
  let* wf := get_workspace_base o st f repo_id in
  let '(workspace_base, f1) := wf in
  let* ef := find_existing_ticket_dir o st f1 prefix number repo_id in
  let '(existing, f2) := ef in
  match existing with
  | Some e => Ok (e, f2)
  | None =>
      let ticket_dir :=
        div workspace_base (sanitize_directory_name (os_windows o) branch_name) in
      let* f3 := mkdir o f2 ticket_dir in
      Ok (ticket_dir, f3)
  end.

End DirectoryManager.

(* ------------------------------------------------------------------ *)
(** ** [RawConfigParser.items] and [remove_section] *)

Module RawConfigParser.
Module CP := ConfigParser.

(** [d = self._defaults.copy(); d.update(self._sections[section])]: the
    defaults in their order, each overridden by the section, then the
    section's own options in its order. *)
Definition merge (defaults sect : list (string * string)) : list (string * string) :=
  fold_left (fun d '(k, v) => assoc_set k v d) sect defaults.

(** A list comprehension whose element expression may raise: the first
    exception propagates. *)
Fixpoint map_res {A B} (f : A -> res B) (l : list A) : res (list B) :=
  match l with
  | [] => Ok []
  | x :: l' => let* y := f x in let* ys := map_res f l' in Ok (y :: ys)
  end.

(** [RawConfigParser.items(section)] (no [raw], no [vars]): every option
    of the merged dictionary, interpolated against it. *)
Definition items (c : CP.cp) (section : string) : res (list (string * string)) :=
  let* d := match assoc section (CP.cp_sections c) with
            | Some s => Ok (merge (CP.cp_defaults c) s)
            | None => if String.eqb section CP.default_section then Ok (CP.cp_defaults c)
                      else Err NoSectionError
            end in
  map_res (fun '(option, value) =>
             let* v := CP.interp CP.MAX_INTERPOLATION_DEPTH d value in Ok (option, v)) d.


End RawConfigParser.

(* ------------------------------------------------------------------ *)
(** ** The other methods of [ConfigManager] *)

Module ConfigManagerExt.
Import ConfigManager.
Module CP := ConfigParser.
Module RCP := RawConfigParser.

(** [ConfigManager.get_list(section, key, fallback, repo_id)];
    [fallback or []] is [[]] for [None] and for an empty list alike. *)
Definition get_list (st : cm) (section key : string) (fallback : option (list string))
  (repo_id : option string) : res (list string) :=
  let effective_repo_id := match repo_id with Some r => Some r | None => repo_id0 st end in
  let* value := get st section key None effective_repo_id in
  if negb (String.eqb value "") then
    Ok (map strip (filter (fun item => negb (String.eqb (strip item) "")) (split_on "," value)))
  else Ok (match fallback with Some l => l | None => [] end).

(** [ConfigManager.get_repo_config(repo_id)]: [dict] of the items, whose
    keys are already distinct. *)
Definition get_repo_config (st : cm) (repo_id : string) : res (list (string * string)) :=
  let repo_section := "repo:" ++ repo_id in
  if CP.has_section (config st) repo_section then RCP.items (config st) repo_section
  else Ok [].

(** [ConfigManager.repo_is_configured(repo_id)] *)
Definition repo_is_configured (st : cm) (repo_id : string) : res bool :=
  let repo_section := "repo:" ++ repo_id in
  if CP.has_section (config st) repo_section then
    let* it := RCP.items (config st) repo_section in
    Ok (0 <? length it)
  else Ok false.

(** [ConfigManager.list_configured_repos()] *)
Definition list_configured_repos (st : cm) : list string :=
  map (fun section => drop 5 section)
      (filter (fun section => startswith "repo:" section) (CP.sections (config st))).


End ConfigManagerExt.

(* ------------------------------------------------------------------ *)
(** ** [RepoIdentifier.get_repo_name_for_path] *)

Module RepoIdentifierExt.
Import PathLib RepoIdentifier.

(** [RepoIdentifier.get_repo_name_for_path()] *)
Definition get_repo_name_for_path (g : git_env) : res string :=
  let* identifier := get_repo_identifier g in
  if startswith "local/" identifier then Ok (drop 6 identifier)
  else
    let parts := split_on "/" identifier in
    if 2 <=? length parts then Ok (last parts "") else Ok identifier.

End RepoIdentifierExt.

(* ------------------------------------------------------------------ *)
(** ** [GitHookManager.find_git_repo], [CurrentTicketLinker] and
    [TicketManager.list_ticket_directories] *)

Module GitHookManager.
Import PathLib DirectoryManager.

(** The [while current != current.parent] loop, on the absolute names of
    [current]: only the root is its own parent. [fuel] counts the rounds
    left; one per name of the start suffices. *)
Fixpoint find_loop (f : fs) (fuel : nat) (current : list string) : option (list string) :=
  match fuel with
  | 0 => None
  | S n =>
      match current with
      | [] => None
      | _ :: _ =>
          let git_dir := app current [".git"] in
          match kind_of f git_dir with
          | Some _ => Some git_dir
          | None => find_loop f n (removelast current)
          end
      end
  end.

(** [GitHookManager.find_git_repo()], the same code as
    [RepoIdentifier._find_git_repo()]: both callers start from
    [Path.cwd()], absolute and, with no symbolic links in the model,
    already resolved. *)
Definition find_git_repo (o : os) (f : fs) : option path :=
  let current := os_cwd o in
  option_map (fun a => mk_path "/" a) (find_loop f (length current) current).

End GitHookManager.

Module CurrentTicketLinker.
Import PathLib.

(** [CurrentTicketLinker.get_link_locations(repo_id)] *)
Definition get_link_locations (e : env) (st : ConfigManager.cm) (repo_id : option string)
  : res (list path) :=
  let* locations_str :=
    ConfigManager.get st "links" "current_ticket_link_locations" (Some "") repo_id in
  Ok (map (fun loc => parse (expanduser e (strip loc)))
          (filter (fun loc => negb (String.eqb (strip loc) "")) (split_on "," locations_str))).

End CurrentTicketLinker.

Module TicketManager.
Import PathLib DirectoryManager.

(** [TicketManager.list_ticket_directories(repo_id)]; [self.repo_id] is
    the repository id its [ConfigManager] was built with. *)
Definition list_ticket_directories (o : os) (st : ConfigManager.cm) (f : fs)
  (repo_id : option string) : res (list path * fs) :=
  let effective_repo_id :=
    match repo_id with Some r => Some r | None => ConfigManager.repo_id0 st end in
  let* wf := get_workspace_base o st f effective_repo_id in
  let '(workspace_base, f1) := wf in
  if negb (exists_ o f1 workspace_base) then Ok ([], f1)
  else Ok (filter (fun d => is_dir o f1 d) (iterdir o f1 workspace_base), f1).

End TicketManager.


(* ================================================================== *)
(** * Specification-side definitions

    What the claims about the program are stated with: read from the
    specification's words, to be compared with the embedding above. *)

Module Spec.
Import Py.
Module CP := ConfigParser.

(** The value stored in section [s] under option [o], counting the
    [DEFAULT] options that [configparser] shows in every section. *)
Definition stored (c : CP.cp) (s o : string) : option string :=
  match assoc s (CP.cp_sections c) with
  | Some d => assoc (CP.optionxform o) (app d (CP.cp_defaults c))
  | None => None
  end.

(** The precedence of [get]: the repository override, the default, the
    supplied fallback, the empty string. *)
Definition precedence (c : CP.cp) (effective_repo_id : option string)
  (section key : string) (fallback : option string) : string :=
  let from_repo :=
    match effective_repo_id with
    | Some r => if String.eqb r "" then None
                else stored c ("repo:" ++ r) (section ++ "." ++ key)
    | None => None
    end in
  match from_repo with
  | Some v => v
  | None =>
      match stored c ("default." ++ section) key with
      | Some v => v
      | None => match fallback with Some f => f | None => "" end
      end
  end.

(** No stored value holds a [%], so interpolation leaves all of them
    alone. *)
Definition pct_free (c : CP.cp) : bool :=
  forallb (fun kv => negb (mem_char "%" (snd kv))) (CP.cp_defaults c)
  && forallb (fun sd => forallb (fun kv => negb (mem_char "%" (snd kv))) (snd sd))
             (CP.cp_sections c).

(** A section that belongs to a repository other than [effective_repo_id]. *)
Definition other_repo_section (effective_repo_id : option string) (s : string) : Prop :=
  exists r, s = "repo:" ++ r /\ ConfigManager.truthy effective_repo_id <> Some r.

(** A configuration whose override for repository [x] is stored as [%%],
    the way a user escapes a percent sign in the file. *)
Definition pct_state : ConfigManager.cm :=
  ConfigManager.mk_cm
    (CP.mk_cp [] [("repo:x", [("paths.workspace_base", "%%")])]) "" (Some "x").

(** The manager of a fresh installation: no configuration file yet. *)
Definition fresh : ConfigManager.cm :=
  match ConfigManager.init None None with
  | Ok st => st
  | Err _ => ConfigManager.mk_cm CP.empty_cp "" None
  end.

(** The manager after a legacy [set("paths", "k", "v")]. *)
Definition legacy_after : ConfigManager.cm :=
  match ConfigManager.set fresh "paths" "k" "v" None false with
  | Ok st => st
  | Err _ => fresh
  end.

(** The configuration after [set('ticket_pattern', 'prefix_pattern',
    '(JIRA|PROJ)', default=True)]: a prefix fragment with its own group. *)
Definition grouped_prefix : res ConfigManager.cm :=
  ConfigManager.set fresh "ticket_pattern" "prefix_pattern" "(JIRA|PROJ)" None true.

(** No character of [s] is one of [cs]. *)
Fixpoint avoids (cs s : string) : bool :=
  match s with
  | EmptyString => true
  | String c s' => negb (mem_char c cs) && avoids cs s'
  end.

(** The characters that end a plain host, or that [urlparse] drops or
    treats specially in one. *)
Definition netloc_stop : string := "/?#[]" ++ String "009" (String "010" (String "013" "")).
(** The characters that end a plain path (query, fragment, parameters),
    or that [urlparse] drops. *)
Definition path_stop : string := "?#;" ++ String "009" (String "010" (String "013" "")).

(** The URL the [origin] remote yields: none outside a repository, when
    [git] fails, or when it prints nothing. *)
Definition origin_url (g : RepoIdentifier.git_env) : option string :=
  match RepoIdentifier.git_dir g with
  | None => None
  | Some _ =>
      match RepoIdentifier.remote_get_url g "origin" with
      | RepoIdentifier.Completed out => ConfigManager.truthy (Some (strip out))
      | _ => None
      end
  end.

(** The URLs of the remotes other than [origin], in listing order. *)
Definition other_urls (remotes : list (string * string)) : list string :=
  map snd (filter (fun nu => negb (String.eqb (fst nu) "origin")) remotes).

Fixpoint first_nonempty (l : list string) : option string :=
  match l with
  | [] => None
  | x :: l' => if String.eqb x "" then first_nonempty l' else Some x
  end.

(** The identity chain: the normalised origin URL, else the first
    non-empty normalised URL of another remote, else the local identity. *)
Definition identity_chain (origin : option string) (others : list string)
  (local : string) : string :=
  let fallback := match first_nonempty others with Some n => n | None => local end in
  match origin with
  | Some n => if String.eqb n "" then fallback else n
  | None => fallback
  end.

(** A repository at [/home/u/proj] whose [origin] is [https://[bad/x]. *)
Definition bad_origin_env : RepoIdentifier.git_env :=
  RepoIdentifier.mk_git_env
    (Some (PathLib.mk_path "/" ["home"; "u"; "proj"; ".git"]))
    (fun _ => RepoIdentifier.Completed ("https://[bad/x" ++ String "010" ""))
    (RepoIdentifier.Completed "")
    (fun _ => "/home/u/proj") (fun _ => "0123456789abcdef") (fun _ => true).

(** The same repository, whose [git] cannot be run ([PermissionError]). *)
Definition no_exec_env : RepoIdentifier.git_env :=
  RepoIdentifier.mk_git_env
    (Some (PathLib.mk_path "/" ["home"; "u"; "proj"; ".git"]))
    (fun _ => RepoIdentifier.OtherOSError) RepoIdentifier.OtherOSError
    (fun _ => "/home/u/proj") (fun _ => "0123456789abcdef") (fun _ => true).

(** A working directory outside any repository ([git_dir] is [None]), on a
    machine whose [git] cannot be run. *)
Definition outside_env : RepoIdentifier.git_env :=
  RepoIdentifier.mk_git_env None
    (fun _ => RepoIdentifier.OtherOSError) RepoIdentifier.OtherOSError
    (fun _ => "/home/u") (fun _ => "0123456789abcdef") (fun _ => true).

(** The same repository with remotes [upstream] and [origin], where only
    [upstream] answers. *)
Definition two_remotes_env : RepoIdentifier.git_env :=
  RepoIdentifier.mk_git_env
    (Some (PathLib.mk_path "/" ["home"; "u"; "proj"; ".git"]))
    (fun _ => RepoIdentifier.CalledProcessError)
    (RepoIdentifier.Completed
       ("upstream" ++ String "009" "git@example.org:team/proj.git (fetch)" ++ String "010" ""
        ++ "origin" ++ String "009" "https://example.org/o/p (fetch)"))
    (fun _ => "/home/u/proj") (fun _ => "0123456789abcdef") (fun _ => true).

(** A POSIX process of user [u], whose home is [/home/u], working in it. *)
Definition os0 : DirectoryManager.os :=
  DirectoryManager.mk_os (PathLib.mk_env "/home/u" (fun _ => None)) ["home"; "u"] false.

(** The file a user leaves after [set('paths', 'workspace_base', '/work/x',
    repo_id='r')] on a fresh installation, opened again the way
    [TicketManager(config_file, repo_id='r')] opens it: with the instance
    [repo_id] ['r']. *)
Definition instance_override : ConfigManager.cm :=
  match ConfigManager.set fresh "paths" "workspace_base" "/work/x" (Some "r") false with
  | Ok st =>
      match ConfigManager.init (Some (ConfigManager.config_file st)) (Some "r") with
      | Ok st' => st'
      | Err _ => fresh
      end
  | Err _ => fresh
  end.

(** The strings a regular expression matches: [sem icase inp r i j] when
    [r] matches [inp] from position [i] to position [j]. A character node
    matches one character it accepts, [^] the start, [$] the end or the
    place just before a final newline; a repeat takes its minimum number
    of iterations, then optional ones up to its maximum. An optional
    iteration that matches the empty string is left out: it reaches no new
    position. *)
Definition single (r : Regex.re) : bool :=
  match r with
  | Regex.RChar _ | Regex.RAny | Regex.RSet _ _ | Regex.RCat1 _ _ => true
  | _ => false
  end.

Definition eol_at (inp : string) (i : nat) : bool :=
  (i =? String.length inp)
  || ((S i =? String.length inp)
      && match String.get i inp with Some c => ascii_eqb c "010" | None => false end).

Inductive sem (icase : bool) (inp : string) : Regex.re -> nat -> nat -> Prop :=
| sem_eps i : sem icase inp Regex.REps i i
| sem_single r i c :
    single r = true -> String.get i inp = Some c -> Regex.char_ok icase r c = true ->
    sem icase inp r i (S i)
| sem_bol : sem icase inp Regex.RBol 0 0
| sem_eol i : eol_at inp i = true -> sem icase inp Regex.REol i i
| sem_group n r i j : sem icase inp r i j -> sem icase inp (Regex.RGroup n r) i j
| sem_cat r1 r2 i j k :
    sem icase inp r1 i j -> sem icase inp r2 j k -> sem icase inp (Regex.RCat r1 r2) i k
| sem_altl r1 r2 i j : sem icase inp r1 i j -> sem icase inp (Regex.RAlt r1 r2) i j
| sem_altr r1 r2 i j : sem icase inp r2 i j -> sem icase inp (Regex.RAlt r1 r2) i j
| sem_rep_zero r mx g i : sem icase inp (Regex.RRep r 0 mx g) i i
| sem_rep_once r mn mx g i j k :
    sem icase inp r i j -> sem icase inp (Regex.RRep r mn (option_map pred mx) g) j k ->
    sem icase inp (Regex.RRep r (S mn) mx g) i k
| sem_rep_more r mx g i j k :
    mx <> Some 0 -> i <> j -> sem icase inp r i j ->
    sem icase inp (Regex.RRep r 0 (option_map pred mx) g) j k ->
    sem icase inp (Regex.RRep r 0 mx g) i k.

(** A name that the pattern of [find_existing_ticket_dir] accepts under
    [re.IGNORECASE]:
    the prefix and the number compared without case, a separator, then
    nothing or a separator followed by characters other than a newline;
    [$] also accepts one final newline. *)
Definition is_sep (c : ascii) : Prop := c = "-"%char \/ c = "_"%char.

Definition no_newline (s : string) : Prop := ~ In "010"%char (list_ascii_of_string s).

Definition ticket_name_ok (prefix number name : string) : Prop :=
  exists a sep b rest nl,
    name = a ++ String sep (b ++ rest ++ nl)
    /\ lower a = lower prefix /\ is_sep sep /\ lower b = lower number
    /\ (rest = "" \/ exists sep' u, rest = String sep' u /\ is_sep sep' /\ no_newline u)
    /\ (nl = "" \/ nl = String "010" "").

(** Scenario D: under [/home/u/tickets], a directory [JIRA-1234], a file
    [jira_123] and the directory [JIRA-123-old-name], in this order. *)
Definition tickets_fs : DirectoryManager.fs :=
  [(["home"], DirectoryManager.Dir); (["home"; "u"], DirectoryManager.Dir);
   (["home"; "u"; "tickets"], DirectoryManager.Dir);
   (["home"; "u"; "tickets"; "JIRA-1234"], DirectoryManager.Dir);
   (["home"; "u"; "tickets"; "jira_123"], DirectoryManager.File);
   (["home"; "u"; "tickets"; "JIRA-123-old-name"], DirectoryManager.Dir)].

(** The root [/home/u/tickets] of Scenario D. *)
Definition tickets_root : PathLib.path := PathLib.mk_path "/" ["home"; "u"; "tickets"].











(** A 300-character name. *)
Definition name300 : string := String.concat "" (repeat "abcdefghij" 30).

End Spec.

(* ================================================================== *)
(** * Properties *)

(* ------------------------------------------------------------------ *)
(** ** Facts about the string primitives *)

Module StringFacts.
Import Py DirectoryManager.

Lemma length_replace_char_1 (c d : ascii) (s : string) :
  String.length (replace_char c (String d EmptyString) s) = String.length s.
Proof. induction s as [|x s IH]; simpl; [reflexivity|]. destruct (ascii_eqb c x); simpl; lia. Qed.

Lemma get_replace_char_1 (c d : ascii) (s : string) (i : nat) :
  String.get i (replace_char c (String d EmptyString) s)
  = option_map (fun x => if ascii_eqb c x then d else x) (String.get i s).
Proof.
  revert i; induction s as [|x s IH]; intros i; simpl; [destruct i; reflexivity|].
  destruct (ascii_eqb c x) eqn:E; destruct i; simpl; rewrite ?E; auto.
Qed.

Lemma ascii_eqb_true (a b : ascii) : ascii_eqb a b = true <-> a = b.
Proof. unfold ascii_eqb; destruct (ascii_dec a b); split; congruence. Qed.

Lemma ascii_eqb_refl (a : ascii) : ascii_eqb a a = true.
Proof. apply ascii_eqb_true; reflexivity. Qed.

Lemma mem_char_spec (c : ascii) (s : string) :
  mem_char c s = true <-> exists i, String.get i s = Some c.
Proof.
  induction s as [|d s IH]; simpl.
  - split; [discriminate|intros [[|i] H]; discriminate].
  - rewrite Bool.orb_true_iff, ascii_eqb_true, IH. split.
    + intros [->|[i Hi]]; [exists 0; reflexivity|exists (S i); exact Hi].
    + intros [[|i] Hi]; simpl in Hi; [left; congruence|right; eauto].
Qed.

Lemma length_replace_all_chars (chars : string) (d : ascii) (s : string) :
  String.length (replace_all_chars chars (String d EmptyString) s) = String.length s.
Proof.
  revert s; induction chars as [|c chars IH]; intros s; simpl; [reflexivity|].
  rewrite IH; apply length_replace_char_1.
Qed.

Lemma get_replace_all_chars (chars : string) (d : ascii) (s : string) (i : nat) :
  mem_char d chars = false ->
  String.get i (replace_all_chars chars (String d EmptyString) s)
  = option_map (fun x => if mem_char x chars then d else x) (String.get i s).
Proof.
  revert s; induction chars as [|c chars IH]; intros s Hd; simpl in *.
  - destruct (String.get i s); reflexivity.
  - apply Bool.orb_false_iff in Hd as [Hdc Hd].
    rewrite IH by exact Hd. rewrite get_replace_char_1.
    destruct (String.get i s) as [x|]; simpl; [|reflexivity].
    f_equal. destruct (ascii_eqb c x) eqn:E; simpl.
    + apply ascii_eqb_true in E; subst x. rewrite Hd, ascii_eqb_refl. reflexivity.
    + replace (ascii_eqb x c) with false; [reflexivity|].
      symmetry; apply Bool.not_true_iff_false; intros H%ascii_eqb_true; subst x.
      rewrite ascii_eqb_refl in E; discriminate.
Qed.

Lemma lstrip_by_keep (p : ascii -> bool) (c : ascii) (s : string) :
  p c = false -> lstrip_by p (String c s) = String c s.
Proof. simpl; intros ->; reflexivity. Qed.

(** [rstrip] keeps a string whose last character it does not strip. *)
Lemma rstrip_by_keep (p : ascii -> bool) (s : string) (c : ascii) :
  String.get (String.length s - 1) s = Some c -> p c = false -> rstrip_by p s = s.
Proof.
  induction s as [|x s IH]; simpl; [discriminate|].
  destruct s as [|y s'].
  - simpl; intros [= ->] ->; reflexivity.
  - intros Hg Hp. replace (String.length (String y s') - 0) with (S (String.length s')) in Hg by (simpl; lia).
    simpl in Hg. rewrite IH; [reflexivity| |exact Hp].
    simpl; replace (String.length s' - 0) with (String.length s') by lia; exact Hg.
Qed.

Lemma strip_by_keep (p : ascii -> bool) (s : string) (c d : ascii) :
  String.get 0 s = Some c -> p c = false ->
  String.get (String.length s - 1) s = Some d -> p d = false ->
  strip_by p s = s.
Proof.
  intros Hc Hp Hd Hq. destruct s as [|x s']; [discriminate|].
  simpl in Hc; injection Hc as ->. unfold strip_by. rewrite lstrip_by_keep by exact Hp.
  exact (rstrip_by_keep p _ d Hd Hq).
Qed.

Lemma length_substring_0 (n : nat) (s : string) :
  String.length (substring 0 n s) = Nat.min n (String.length s).
Proof.
  revert s; induction n as [|n IH]; intros s; simpl; [destruct s; reflexivity|].
  destruct s as [|c s]; simpl; [reflexivity|]. rewrite IH; reflexivity.
Qed.

Lemma length_take (n : nat) (s : string) :
  String.length (take n s) = Nat.min n (String.length s).
Proof. apply length_substring_0. Qed.

Lemma get_lt (i : nat) (s : string) :
  i < String.length s -> exists c, String.get i s = Some c.
Proof.
  revert i; induction s as [|c s IH]; intros i H; simpl in H; [lia|].
  destruct i as [|i]; simpl; [eauto|]. apply IH; lia.
Qed.

Lemma get_some_lt (i : nat) (s : string) (c : ascii) :
  String.get i s = Some c -> i < String.length s.
Proof.
  revert i; induction s as [|d s IH]; intros i H; [destruct i; discriminate|].
  destruct i as [|i]; simpl; [lia|]. apply IH in H; lia.
Qed.

Lemma length_map_chars (f : ascii -> ascii) (s : string) :
  String.length (map_chars f s) = String.length s.
Proof. induction s; simpl; auto. Qed.

End StringFacts.

(* ------------------------------------------------------------------ *)
(** ** [sanitize_directory_name]: the length ceiling *)

Module SanitizeProps.
Import Py DirectoryManager StringFacts.

Lemma max_name_len_100 : max_name_len 100 = 110%Z.
Proof. reflexivity. Qed.

Lemma max_name_len_ge_50 (w : Z) : (50 <= max_name_len w)%Z.
Proof. unfold max_name_len; lia. Qed.

Lemma windows_cut_le (m : Z) (s : string) : (0 <= m)%Z ->
  (Z.of_nat (String.length (if (m <? Z.of_nat (String.length s))%Z
                            then take (Z.to_nat m) s else s)) <= m)%Z.
Proof.
  intros Hm. destruct (Z.ltb_spec m (Z.of_nat (String.length s))) as [H|H]; [|exact H].
  rewrite length_take. lia.
Qed.

Lemma posix_cut_le (s : string) :
  String.length (if 255 <? String.length s then take 255 s else s) <= 255.
Proof.
  destruct (Nat.ltb_spec 255 (String.length s)); [rewrite length_take|]; lia.
Qed.

Lemma reserved_short : Forall (fun x => String.length x <= 4) reserved.
Proof. repeat constructor. Qed.

Lemma not_reserved (s : string) : 4 < String.length s ->
  existsb (String.eqb (upper s)) reserved = false.
Proof.
  intros Hs. apply Bool.not_true_iff_false. intros [x [Hx Hq]]%existsb_exists.
  apply String.eqb_eq in Hq. pose proof (proj1 (Forall_forall _ _) reserved_short x Hx) as Hl.
  rewrite <- Hq in Hl. unfold upper in Hl. rewrite length_map_chars in Hl. lia.
Qed.

(** After the character replacement nothing is trimmed from a name that
    neither starts nor ends with a dot or a space. *)
Lemma strip_after_replace (name : string) :
  0 < String.length name ->
  (forall c, String.get 0 name = Some c -> mem_char c ". " = false) ->
  (forall c, String.get (String.length name - 1) name = Some c -> mem_char c ". " = false) ->
  strip_chars ". " (replace_all_chars invalid_chars "_" name)
  = replace_all_chars invalid_chars "_" name.
Proof.
  intros Hlen Hfirst Hlast.
  assert (Hinv : mem_char "_" invalid_chars = false) by reflexivity.
  assert (Hmap : forall x, mem_char x ". " = false ->
            mem_char (if mem_char x invalid_chars then "_" else x) ". " = false).
  { intros x Hx. destruct (mem_char x invalid_chars); [reflexivity|exact Hx]. }
  set (s1 := replace_all_chars invalid_chars "_" name).
  assert (Hl1 : String.length s1 = String.length name) by apply length_replace_all_chars.
  assert (G : forall i, String.get i s1
             = option_map (fun x => if mem_char x invalid_chars then "_"%char else x) (String.get i name))
    by (intros i; apply get_replace_all_chars; exact Hinv).
  assert (Hl : 0 < String.length s1) by lia.
  destruct (get_lt 0 s1 Hl) as [c0 H0].
  destruct (get_lt (String.length s1 - 1) s1) as [cl Hcl]; [lia|].
  unfold strip_chars; apply strip_by_keep with (c := c0) (d := cl); [exact H0| |exact Hcl|].
  - rewrite G in H0. destruct (String.get 0 name) as [x|] eqn:E; simpl in H0; [|discriminate].
    injection H0 as <-. apply Hmap, Hfirst; first [exact E | reflexivity].
  - rewrite Hl1, G in Hcl.
    destruct (String.get (String.length name - 1) name) as [x|] eqn:E; simpl in Hcl; [|discriminate].
    injection Hcl as <-. apply Hmap, Hlast; first [exact E | reflexivity].
Qed.

(** C7: [sanitize_directory_name] caps the name at 255 characters off
    Windows, and on Windows at [max_name_len 100 = max(50, 260 - 100 - 50)
    = 110]; that cap is at least 50 whatever the base-path estimate; a
    300-character name that starts and ends with neither a dot nor a space
    comes out of the Windows branch with exactly 110 characters. *)
Theorem sanitize_directory_name_ceiling (name : string) :
  String.length (sanitize_directory_name false name) <= 255
  /\ (Z.of_nat (String.length (sanitize_directory_name true name)) <= max_name_len 100)%Z
  /\ max_name_len 100 = 110%Z
  /\ (forall w, (50 <= max_name_len w)%Z)
  /\ (String.length name = 300 ->
      (forall c, String.get 0 name = Some c -> mem_char c ". " = false) ->
      (forall c, String.get 299 name = Some c -> mem_char c ". " = false) ->
      String.length (sanitize_directory_name true name) = 110).
Proof.
  split; [|split; [|split; [exact max_name_len_100|split; [exact max_name_len_ge_50|]]]].
  - unfold sanitize_directory_name; cbv beta iota zeta. apply posix_cut_le.
  - unfold sanitize_directory_name; cbv beta iota zeta. apply windows_cut_le.
    rewrite max_name_len_100; lia.
  - intros Hlen Hfirst Hlast.
    unfold sanitize_directory_name; cbv beta iota zeta.
    rewrite strip_after_replace; [| lia | exact Hfirst | rewrite Hlen; exact Hlast].
    rewrite not_reserved by (rewrite length_replace_all_chars; lia).
    rewrite max_name_len_100, length_replace_all_chars, Hlen.
    replace ((110 <? Z.of_nat 300)%Z) with true by reflexivity.
    rewrite length_take, length_replace_all_chars, Hlen. reflexivity.
Qed.

Lemma sanitize_directory_name_ceiling_witness :
  String.length (sanitize_directory_name true Spec.name300) = 110.
Proof.
  apply (proj2 (proj2 (proj2 (proj2 (sanitize_directory_name_ceiling Spec.name300))))).
  - vm_compute; reflexivity.
  - intros c Hc; vm_compute in Hc; injection Hc as <-; reflexivity.
  - intros c Hc; vm_compute in Hc; injection Hc as <-; reflexivity.
Defined.

End SanitizeProps.

(* ------------------------------------------------------------------ *)
(** ** Facts about the [configparser] model and [ConfigManager.get] *)

Module ConfigFacts.
Import Py StringFacts.
Module CP := ConfigParser.

Lemma assoc_app {V} (k : string) (l1 l2 : list (string * V)) :
  assoc k (app l1 l2) = match assoc k l1 with Some v => Some v | None => assoc k l2 end.
Proof.
  induction l1 as [|[k' v'] l1 IH]; simpl; [reflexivity|].
  destruct (String.eqb k k'); [reflexivity|exact IH].
Qed.

Lemma assoc_in {V} (k : string) (l : list (string * V)) (v : V) :
  assoc k l = Some v -> In (k, v) l.
Proof.
  induction l as [|[k' v'] l IH]; simpl; [discriminate|].
  destruct (String.eqb_spec k k') as [->|_]; [intros [= ->]; left; reflexivity|].
  intros H; right; exact (IH H).
Qed.

Lemma find_char_none (c : ascii) (s : string) :
  mem_char c s = false -> find_char c s = None.
Proof.
  induction s as [|d s IH]; simpl; [reflexivity|].
  intros [H1 H2]%Bool.orb_false_iff. rewrite H1, IH by exact H2; reflexivity.
Qed.

(** Interpolation returns a value without [%] as it is. *)
Lemma interp_no_pct (lv : nat) (mp : list (string * string)) (v : string) :
  mem_char "%" v = false -> CP.interp (S lv) mp v = Ok v.
Proof. intros H. simpl. rewrite find_char_none by exact H. reflexivity. Qed.

Lemma repo_not_default (r : string) :
  String.eqb ("repo:" ++ r) "" || String.eqb ("repo:" ++ r) CP.default_section = false.
Proof. reflexivity. Qed.

Lemma dflt_not_default (s : string) :
  String.eqb ("default." ++ s) "" || String.eqb ("default." ++ s) CP.default_section = false.
Proof. reflexivity. Qed.

(** For an ordinary section, [has_option] and [get] see the section's
    options over the defaults. *)
Lemma has_option_sect (c : CP.cp) (s o : string) :
  String.eqb s "" || String.eqb s CP.default_section = false ->
  CP.has_option c s o
  = match assoc s (CP.cp_sections c) with
    | Some d => assoc_mem (CP.optionxform o) (app d (CP.cp_defaults c))
    | None => false
    end.
Proof.
  intros H. unfold CP.has_option. rewrite H.
  destruct (assoc s (CP.cp_sections c)) as [d|]; [|reflexivity].
  unfold assoc_mem. rewrite assoc_app. destruct (assoc (CP.optionxform o) d); reflexivity.
Qed.

Lemma get_sect (c : CP.cp) (s o : string) (d : list (string * string)) :
  String.eqb s CP.default_section = false ->
  assoc s (CP.cp_sections c) = Some d ->
  CP.get c s o
  = match assoc (CP.optionxform o) (app d (CP.cp_defaults c)) with
    | Some v => CP.interp CP.MAX_INTERPOLATION_DEPTH (app d (CP.cp_defaults c)) v
    | None => Err NoOptionError
    end.
Proof. intros _ H. unfold CP.get, CP.unify. rewrite H. reflexivity. Qed.

(** [has_section], [has_option] and [get] on an ordinary section depend on
    that section and the defaults only. *)
Lemma cp_frame (c c' : CP.cp) (s o : string) :
  String.eqb s "" || String.eqb s CP.default_section = false ->
  CP.cp_defaults c' = CP.cp_defaults c ->
  assoc s (CP.cp_sections c') = assoc s (CP.cp_sections c) ->
  CP.has_section c' s = CP.has_section c s
  /\ CP.has_option c' s o = CP.has_option c s o
  /\ CP.get c' s o = CP.get c s o.
Proof.
  intros Hs Hd Ha. assert (Hs' := proj2 (proj1 (Bool.orb_false_iff _ _) Hs)).
  unfold CP.has_section, assoc_mem. rewrite Ha. split; [reflexivity|split].
  - rewrite !has_option_sect by exact Hs. rewrite Ha, Hd. reflexivity.
  - unfold CP.get, CP.unify. rewrite Ha, Hd, Hs'. reflexivity.
Qed.

Lemma stored_pct_free (c : CP.cp) (s o v : string) :
  Spec.pct_free c = true -> Spec.stored c s o = Some v -> mem_char "%" v = false.
Proof.
  unfold Spec.pct_free, Spec.stored. intros [Hd Hs]%Bool.andb_true_iff.
  destruct (assoc s (CP.cp_sections c)) as [d|] eqn:E; [|discriminate].
  intros H%assoc_in. apply in_app_or in H as [H|H].
  - apply assoc_in in E. rewrite forallb_forall in Hs. specialize (Hs _ E). simpl in Hs.
    rewrite forallb_forall in Hs. specialize (Hs _ H). simpl in Hs.
    apply Bool.negb_true_iff in Hs; exact Hs.
  - rewrite forallb_forall in Hd. specialize (Hd _ H). simpl in Hd.
    apply Bool.negb_true_iff in Hd; exact Hd.
Qed.

(** [ConfigManager.get] on a section that is neither [""] nor [DEFAULT]
    returns the stored value when the configuration holds no [%]. *)
Lemma get_sect_stored (c : CP.cp) (s o : string) :
  String.eqb s "" || String.eqb s CP.default_section = false ->
  Spec.pct_free c = true ->
  (CP.has_section c s && CP.has_option c s o = match Spec.stored c s o with Some _ => true | None => false end)
  /\ (forall v, Spec.stored c s o = Some v -> CP.get c s o = Ok v).
Proof.
  intros Hs Hp. split.
  - rewrite has_option_sect by exact Hs. unfold CP.has_section, assoc_mem, Spec.stored.
    destruct (assoc s (CP.cp_sections c)); reflexivity.
  - intros v Hv. pose proof (stored_pct_free c s o v Hp Hv) as Hn.
    unfold Spec.stored in Hv. destruct (assoc s (CP.cp_sections c)) as [d|] eqn:E; [|discriminate].
    rewrite (get_sect c s o d) by (exact (proj2 (proj1 (Bool.orb_false_iff _ _) Hs)) || exact E).
    rewrite Hv. apply interp_no_pct; exact Hn.
Qed.

(** [ConfigManager.get] reads the defaults, the [default.<section>] section
    and the section of the effective repository, nothing else. *)
Lemma get_frame (st : ConfigManager.cm) (c' : CP.cp) (file : string)
  (section key : string) (fallback repo_id : option string) :
  let eff := match repo_id with Some r => Some r | None => ConfigManager.repo_id0 st end in
  CP.cp_defaults c' = CP.cp_defaults (ConfigManager.config st) ->
  assoc ("default." ++ section) (CP.cp_sections c')
    = assoc ("default." ++ section) (CP.cp_sections (ConfigManager.config st)) ->
  (forall r, ConfigManager.truthy eff = Some r ->
     assoc ("repo:" ++ r) (CP.cp_sections c')
     = assoc ("repo:" ++ r) (CP.cp_sections (ConfigManager.config st))) ->
  ConfigManager.get (ConfigManager.mk_cm c' file (ConfigManager.repo_id0 st)) section key fallback repo_id
  = ConfigManager.get st section key fallback repo_id.
Proof.
  intros eff Hd Hdflt Hrepo. unfold ConfigManager.get. cbn [ConfigManager.config ConfigManager.repo_id0].
  fold eff.
  destruct (cp_frame (ConfigManager.config st) c' ("default." ++ section) key
              (dflt_not_default section) Hd Hdflt) as [D1 [D2 D3]].
  rewrite D1, D2, D3.
  destruct (ConfigManager.truthy eff) as [r|] eqn:Er; [|reflexivity].
  destruct (cp_frame (ConfigManager.config st) c' ("repo:" ++ r) (section ++ "." ++ key)
              (repo_not_default r) Hd (Hrepo r eq_refl)) as [R1 [R2 R3]].
  rewrite R1, R2, R3. reflexivity.
Qed.

End ConfigFacts.

(* ------------------------------------------------------------------ *)
(** ** [ConfigManager.get]: precedence *)

Module GetProps.
Import Py ConfigFacts.
Module CP := ConfigParser.

(** C1 (amended): for every section, key, fallback and [repo_id], with the
    effective repository the argument or else the instance's: when no stored
    value contains [%] (so [configparser]'s interpolation changes nothing),
    [get] returns the override stored under [<section>.<key>] in
    [repo:<id>] (a [DEFAULT] option counts as stored in every section, and
    an empty id consults no repository section), else the value under
    [key] in [default.<section>], else the fallback, else [""]; and in every
    configuration [get] returns the same whatever the sections of other
    repositories hold. *)
Theorem get_precedence (st : ConfigManager.cm) (section key : string)
  (fallback repo_id : option string) :
  let eff := match repo_id with Some r => Some r | None => ConfigManager.repo_id0 st end in
  (Spec.pct_free (ConfigManager.config st) = true ->
   ConfigManager.get st section key fallback repo_id
   = Ok (Spec.precedence (ConfigManager.config st) eff section key fallback))
  /\ (forall c' : CP.cp,
        CP.cp_defaults c' = CP.cp_defaults (ConfigManager.config st) ->
        (forall s, ~ Spec.other_repo_section eff s ->
           assoc s (CP.cp_sections c') = assoc s (CP.cp_sections (ConfigManager.config st))) ->
        ConfigManager.get (ConfigManager.mk_cm c' (ConfigManager.config_file st)
                             (ConfigManager.repo_id0 st)) section key fallback repo_id
        = ConfigManager.get st section key fallback repo_id).
Proof.
  intros eff. split.
  - intros Hp. unfold ConfigManager.get, Spec.precedence. fold eff.
    set (c := ConfigManager.config st).
    destruct (get_sect_stored c ("default." ++ section) key (dflt_not_default section) Hp)
      as [D1 D2].
    assert (Hdef : (if CP.has_section c ("default." ++ section)
                       && CP.has_option c ("default." ++ section) key
                    then CP.get c ("default." ++ section) key
                    else Ok match ConfigManager.truthy fallback with Some f => f | None => "" end)
                   = Ok match Spec.stored c ("default." ++ section) key with
                        | Some v => v
                        | None => match fallback with Some f => f | None => "" end
                        end).
    { rewrite D1. destruct (Spec.stored c ("default." ++ section) key) as [v|] eqn:E.
      - apply D2; first [exact E | reflexivity].
      - destruct fallback as [f|]; simpl; [|reflexivity].
        destruct (String.eqb_spec f ""); subst; reflexivity. }
    destruct eff as [r|] eqn:Eeff; unfold ConfigManager.truthy; cbv beta iota zeta.
    + destruct (String.eqb r "") eqn:Er; [exact Hdef|].
      destruct (get_sect_stored c ("repo:" ++ r) (section ++ "." ++ key) (repo_not_default r) Hp)
        as [R1 R2].
      cbv zeta. rewrite R1. destruct (Spec.stored c ("repo:" ++ r) (section ++ "." ++ key)) as [v|] eqn:E.
      * apply R2; first [exact E | reflexivity].
      * exact Hdef.
    + exact Hdef.
  - intros c' Hd Hs. apply get_frame; [exact Hd| |].
    + apply Hs. intros [r [Hr _]]. destruct section; discriminate Hr.
    + intros r Hr. apply Hs. intros [r' [Hr' Hne]].
      cbn in Hr'. injection Hr' as Hr'. subst r'. exact (Hne Hr).
Qed.

Lemma get_precedence_witness :
  ConfigManager.get Spec.fresh "paths" "workspace_base" None (Some "r") = Ok "~/tickets".
Proof.
  rewrite (proj1 (get_precedence Spec.fresh "paths" "workspace_base" None (Some "r")));
    vm_compute; reflexivity.
Defined.

(** C1 fails as stated: with the override of repository [x] stored as
    [%%], [get] returns [%], not the stored value. *)
Lemma get_precedence_counterexample :
  Spec.stored (ConfigManager.config Spec.pct_state) "repo:x" "paths.workspace_base" = Some "%%"
  /\ ConfigManager.get Spec.pct_state "paths" "workspace_base" None None = Ok "%".
Proof. split; vm_compute; reflexivity. Qed.

End GetProps.

(* ------------------------------------------------------------------ *)
(** ** [ConfigManager.set] *)

Module SetFacts.
Import Py ConfigFacts.
Module CP := ConfigParser.

Lemma assoc_set_same {V} (k : string) (v : V) (l : list (string * V)) :
  assoc k (assoc_set k v l) = Some v.
Proof.
  induction l as [|[k' v'] l IH]; simpl; [rewrite String.eqb_refl; reflexivity|].
  destruct (String.eqb_spec k k') as [->|Hne]; simpl.
  - rewrite String.eqb_refl; reflexivity.
  - apply String.eqb_neq in Hne. rewrite Hne. exact IH.
Qed.

Lemma assoc_set_other {V} (k k2 : string) (v : V) (l : list (string * V)) :
  k2 <> k -> assoc k2 (assoc_set k v l) = assoc k2 l.
Proof.
  intros Hne. induction l as [|[k' v'] l IH]; simpl.
  - apply String.eqb_neq in Hne. rewrite Hne. reflexivity.
  - destruct (String.eqb_spec k k') as [->|_]; simpl.
    + apply String.eqb_neq in Hne. rewrite Hne. reflexivity.
    + destruct (String.eqb k2 k'); [reflexivity|exact IH].
Qed.

Lemma load_config_keeps (st st' : ConfigManager.cm) :
  ConfigManager.load_config st = Ok st' ->
  ConfigManager.config_file st' = ConfigManager.config_file st
  /\ ConfigManager.repo_id0 st' = ConfigManager.repo_id0 st
  /\ CP.read (ConfigManager.config_file st) (ConfigManager.config st) = Ok (ConfigManager.config st').
Proof.
  unfold ConfigManager.load_config. destruct (CP.read _ _) as [c|e]; simpl; [|discriminate].
  intros [= <-]. auto.
Qed.

(** What [set] does before saving: the parser it writes to the file. *)
Lemma set_unfold (st st' : ConfigManager.cm) (section key value : string)
  (repo_id : option string) (default : bool) :
  ConfigManager.set st section key value repo_id default = Ok st' ->
  exists c1 c2,
    (if CP.has_section (ConfigManager.config st) (fst (ConfigManager.set_target section key repo_id default))
     then Ok (ConfigManager.config st)
     else CP.add_section (ConfigManager.config st) (fst (ConfigManager.set_target section key repo_id default)))
    = Ok c1
    /\ CP.set c1 (fst (ConfigManager.set_target section key repo_id default))
              (snd (ConfigManager.set_target section key repo_id default)) value = Ok c2
    /\ ConfigManager.config_file st' = CP.write c2
    /\ ConfigManager.repo_id0 st' = ConfigManager.repo_id0 st
    /\ CP.read (CP.write c2) c2 = Ok (ConfigManager.config st').
Proof.
  unfold ConfigManager.set. destruct (ConfigManager.set_target section key repo_id default) as [ts tk].
  simpl. destruct (if CP.has_section _ ts then _ else _) as [c1|e] eqn:E1; simpl; [|discriminate].
  destruct (CP.set c1 ts tk value) as [c2|e] eqn:E2; simpl; [|discriminate].
  intros H. apply load_config_keeps in H as (H1 & H2 & H3).
  unfold ConfigManager.save_config in *; cbn in H1, H2, H3.
  exists c1, c2. auto.
Qed.

End SetFacts.

(* ------------------------------------------------------------------ *)
(** ** [ConfigManager.set] without a repository: the legacy section *)

Module LegacySetProps.
Import Py ConfigFacts SetFacts.
Module CP := ConfigParser.

Lemma default_dot_neq (s : string) : "default." ++ s <> s.
Proof. intros H. apply (f_equal String.length) in H. simpl in H. lia. Qed.

(** C10 (amended): for a category other than [""] and [DEFAULT] (which
    [configparser] treats as the defaults) and other than the section
    [repo:<id>] of the manager's own repository, [set(category, key, value)]
    with no [repo_id] and [default=False] saves a parser whose section named
    exactly [category] holds [value] under the (lower-cased) [key]; and
    [get(category, key)] is blind to that section: whatever it holds, [get]
    returns the same. *)
Theorem legacy_set_invisible (st st' : ConfigManager.cm) (category key value : string) :
  category <> "" -> category <> CP.default_section ->
  (forall r, ConfigManager.truthy (ConfigManager.repo_id0 st) = Some r -> category <> "repo:" ++ r) ->
  ConfigManager.set st category key value None false = Ok st' ->
  (exists c2 d, ConfigManager.config_file st' = CP.write c2
      /\ assoc category (CP.cp_sections c2) = Some d
      /\ assoc (CP.optionxform key) d = Some value)
  /\ (forall (c' : CP.cp) (fallback : option string),
        CP.cp_defaults c' = CP.cp_defaults (ConfigManager.config st') ->
        (forall s, s <> category ->
           assoc s (CP.cp_sections c') = assoc s (CP.cp_sections (ConfigManager.config st'))) ->
        ConfigManager.get (ConfigManager.mk_cm c' (ConfigManager.config_file st')
                             (ConfigManager.repo_id0 st')) category key fallback None
        = ConfigManager.get st' category key fallback None).
Proof.
  intros Hne Hnd Hrepo Hset.
  destruct (set_unfold _ _ _ _ _ _ _ Hset) as (c1 & c2 & E1 & E2 & Hfile & Hrid & _).
  cbn [ConfigManager.set_target ConfigManager.truthy fst snd] in E1, E2.
  apply String.eqb_neq in Hne. apply String.eqb_neq in Hnd.
  split.
  - assert (Hc1 : exists d1, assoc category (CP.cp_sections c1) = Some d1).
    { destruct (CP.has_section (ConfigManager.config st) category) eqn:Hh.
      - injection E1 as <-. unfold CP.has_section, assoc_mem in Hh.
        destruct (assoc category _) as [d1|]; [eauto|discriminate].
      - unfold CP.add_section in E1. rewrite Hnd, Hh in E1. injection E1 as <-.
        exists []. cbn [CP.cp_sections]. rewrite assoc_app.
        unfold CP.has_section, assoc_mem in Hh. destruct (assoc category _); [discriminate|].
        simpl. rewrite String.eqb_refl. reflexivity. }
    destruct Hc1 as [d1 Hd1].
    unfold CP.set in E2. destruct (if String.eqb value "" then _ else _) as [[]|e]; simpl in E2; [|discriminate].
    rewrite Hne, Hnd, Hd1 in E2. simpl in E2. injection E2 as <-.
    eexists _, _. split; [exact Hfile|]. split.
    + cbn [CP.cp_sections]. apply assoc_set_same.
    + apply assoc_set_same.
  - intros c' fallback Hd Hs. apply get_frame; [exact Hd| |].
    + apply Hs, default_dot_neq.
    + intros r Hr. apply Hs. intros Heq. rewrite Hrid in Hr.
      exact (Hrepo r Hr (eq_sym Heq)).
Qed.

Lemma legacy_set_invisible_witness :
  exists c2 d, ConfigManager.config_file Spec.legacy_after = CP.write c2
    /\ assoc "paths" (CP.cp_sections c2) = Some d
    /\ assoc (CP.optionxform "k") d = Some "v".
Proof.
  refine (proj1 (legacy_set_invisible Spec.fresh Spec.legacy_after "paths" "k" "v" _ _ _ _)).
  - discriminate.
  - discriminate.
  - intros r Hr. vm_compute in Hr. discriminate.
  - vm_compute. reflexivity.
Defined.

(** C10 fails for the category [""]: [configparser] files the option under
    [DEFAULT] and the reload rejects the [[]] header [write] produced; and
    for the category [DEFAULT], [add_section] raises. *)
Lemma legacy_set_invisible_counterexample :
  CP.set (CP.mk_cp [] [("", [])]) "" "k" "v" = Ok (CP.mk_cp [("k", "v")] [("", [])])
  /\ ConfigManager.set Spec.fresh "" "k" "v" None false = Err ParsingError
  /\ ConfigManager.set Spec.fresh "DEFAULT" "k" "v" None false = Err ValueError.
Proof. split; [|split]; vm_compute; reflexivity. Qed.

End LegacySetProps.

(* ------------------------------------------------------------------ *)
(** ** [BranchAnalyzer] *)

Module BranchProps.
Import Py BranchAnalyzer.

(** C4: with the default fragments the compiled pattern puts the prefix,
    separator, number, separator and description fragments in groups 1 to 5
    between the anchors, [JIRA-123-login-fix] gives
    [JIRA], [123], [login-fix] and [123-feature] gives no ticket (scenario
    C); a non-bracketed separator is escaped. But [extract_ticket_info]
    reads the groups 1, 3 and 5 by position: once the prefix fragment is
    [(JIRA|PROJ)], which holds a group of its own, [JIRA-123-login-fix]
    gives the number [-] and the description [-]. *)
Lemma extract_ticket_info_fixed_groups :
  build_pattern "[A-Za-z]{1,10}" "[-_]" "\d+" ".*"
    = "^([A-Za-z]{1,10})([-_])(\d+)([-_])(.*)$"
  /\ build_pattern "P" "." "N" "D" = "^(P)(\.)(N)(\.)(D)$"
  /\ (let* a := init Spec.fresh in
      Ok (extract_ticket_info a "JIRA-123-login-fix", extract_ticket_info a "123-feature"))
     = Ok (Ticket (mk_ticket (Some "JIRA") (Some "123") (Some "login-fix") "JIRA-123-login-fix"),
           NotTicket)
  /\ (let* st := Spec.grouped_prefix in
      let* a := init st in
      Ok (extract_ticket_info a "JIRA-123-login-fix"))
     = Ok (Ticket (mk_ticket (Some "JIRA") (Some "-") (Some "-") "JIRA-123-login-fix")).
Proof. repeat split; vm_compute; reflexivity. Qed.

End BranchProps.

(* ------------------------------------------------------------------ *)
(** ** [RepoIdentifier.normalize_url] *)

Module NormalizeProps.
Import Py RepoIdentifier StringFacts.

Lemma mem_char_app (c : ascii) (a b : string) :
  mem_char c (a ++ b) = mem_char c a || mem_char c b.
Proof. induction a as [|d a IH]; simpl; [reflexivity|]. rewrite IH, Bool.orb_assoc; reflexivity. Qed.

Lemma avoids_mem (cs s : string) (c : ascii) :
  Spec.avoids cs s = true -> mem_char c cs = true -> mem_char c s = false.
Proof.
  induction s as [|d s IH]; simpl; [reflexivity|].
  intros [Hd Hs]%Bool.andb_true_iff Hc. rewrite IH by assumption.
  destruct (ascii_eqb c d) eqn:E; [|reflexivity].
  apply ascii_eqb_true in E; subst d. rewrite Hc in Hd; discriminate.
Qed.

Lemma replace_char_absent (c : ascii) (r s : string) :
  mem_char c s = false -> replace_char c r s = s.
Proof.
  induction s as [|d s IH]; simpl; [reflexivity|].
  intros [Hd Hs]%Bool.orb_false_iff. rewrite Hd, IH by exact Hs; reflexivity.
Qed.

Lemma split_once_absent (c : ascii) (s : string) :
  mem_char c s = false -> split_once c s = None.
Proof.
  induction s as [|d s IH]; simpl; [reflexivity|].
  intros [Hd Hs]%Bool.orb_false_iff. rewrite Hd, IH by exact Hs; reflexivity.
Qed.

Lemma ascii_eqb_sym_false (a b : ascii) :
  ascii_eqb a b = false -> ascii_eqb b a = false.
Proof.
  intros H. apply Bool.not_true_iff_false; intros E%ascii_eqb_true; subst b.
  rewrite ascii_eqb_refl in H; discriminate.
Qed.

Lemma split_netloc_plain (n r : string) :
  mem_char "/" n = false -> mem_char "?" n = false -> mem_char "#" n = false ->
  split_netloc (n ++ String "/" r) = (n, String "/" r).
Proof.
  induction n as [|d n IH]; simpl; [reflexivity|].
  intros [H1 H1']%Bool.orb_false_iff [H2 H2']%Bool.orb_false_iff [H3 H3']%Bool.orb_false_iff.
  rewrite (ascii_eqb_sym_false _ _ H1), (ascii_eqb_sym_false _ _ H2), (ascii_eqb_sym_false _ _ H3).
  simpl. rewrite IH by assumption. reflexivity.
Qed.

Lemma substring_0_length (s : string) : substring 0 (String.length s) s = s.
Proof. induction s as [|c s IH]; simpl; [reflexivity|]. rewrite IH; reflexivity. Qed.

Lemma drop_2 (a b : ascii) (s : string) : drop 2 (String a (String b s)) = s.
Proof. unfold drop; simpl. rewrite Nat.sub_0_r. apply substring_0_length. Qed.

Lemma urlparse_plain (ok : string -> bool) (scheme n r : string) :
  scheme = "http" \/ scheme = "https" ->
  Spec.avoids Spec.netloc_stop n = true ->
  Spec.avoids Spec.path_stop r = true ->
  urlparse_netloc_path ok (scheme ++ "://" ++ n ++ "/" ++ r) = Ok (n, "/" ++ r).
Proof.
  intros Hs Hn Hr.
  assert (N : forall c, mem_char c Spec.netloc_stop = true -> mem_char c n = false)
    by (intros c; apply avoids_mem; exact Hn).
  assert (R : forall c, mem_char c Spec.path_stop = true -> mem_char c r = false)
    by (intros c; apply avoids_mem; exact Hr).
  unfold urlparse_netloc_path.
  assert (U : forall c, In c ["009"; "010"; "013"]%char ->
                mem_char c (scheme ++ "://" ++ n ++ "/" ++ r) = false).
  { intros c Hc. rewrite !mem_char_app, N, R.
    - destruct Hs as [->| ->]; destruct Hc as [<-|[<-|[<-|[]]]]; reflexivity.
    - destruct Hc as [<-|[<-|[<-|[]]]]; reflexivity.
    - destruct Hc as [<-|[<-|[<-|[]]]]; reflexivity. }
  rewrite (replace_char_absent "010") by (apply U; simpl; tauto).
  rewrite (replace_char_absent "013") by (apply U; simpl; tauto).
  rewrite (replace_char_absent "009") by (apply U; simpl; tauto).
  destruct Hs as [->| ->]; simpl.
  all: unfold startswith; simpl String.prefix; cbv iota beta.
  all: rewrite drop_2, split_netloc_plain by (apply N; reflexivity).
  all: rewrite (N "["%char) by reflexivity; rewrite (N "]"%char) by reflexivity; simpl.
  all: replace (String.prefix "" (n ++ String "/" r)) with true by (destruct (n ++ String "/" r); reflexivity).
  all: simpl; rewrite (split_once_absent "#" r) by (apply R; reflexivity).
  all: simpl; rewrite (split_once_absent "?" r) by (apply R; reflexivity).
  all: simpl; rewrite (R ";"%char) by reflexivity; reflexivity.
  all: simpl; rewrite R by reflexivity; reflexivity.
Qed.

Lemma length_app (u v : string) : String.length (u ++ v) = String.length u + String.length v.
Proof. induction u as [|c u IH]; simpl; congruence. Qed.

Lemma substring_app_r (u v : string) :
  substring (String.length u) (String.length v) (u ++ v) = v.
Proof. induction u as [|c u IH]; simpl; [apply substring_0_length|exact IH]. Qed.

Lemma substring_app_l (u v : string) : substring 0 (String.length u) (u ++ v) = u.
Proof. induction u as [|c u IH]; simpl; [destruct v; reflexivity|]. rewrite IH; reflexivity. Qed.

Lemma endswith_app (u v : string) : endswith v (u ++ v) = true.
Proof.
  unfold endswith. rewrite length_app.
  replace (String.length u + String.length v - String.length v) with (String.length u) by lia.
  rewrite substring_app_r, String.eqb_refl, Bool.andb_true_r. apply Nat.leb_le; lia.
Qed.

Lemma take_app (u v : string) : take (String.length (u ++ v) - String.length v) (u ++ v) = u.
Proof.
  rewrite length_app. replace (String.length u + String.length v - String.length v) with (String.length u) by lia.
  apply substring_app_l.
Qed.

Lemma split_once_app (c : ascii) (u v : string) :
  mem_char c u = false -> split_once c (u ++ String c v) = Some (u, v).
Proof.
  induction u as [|d u IH]; simpl.
  - rewrite ascii_eqb_refl; reflexivity.
  - intros [Hd Hu]%Bool.orb_false_iff. rewrite Hd, IH by exact Hu; reflexivity.
Qed.

(** C2, against the claim: for an [http://] or [https://] URL whose netloc
    carries userinfo [user:pw@host], [normalize_url] cuts the netloc at its
    first [:] (the code means to remove a port) and so returns the user
    name in place of the host: the result is [user] joined by [/] to the
    path stripped of slashes, and [host] is lost. *)
Theorem normalize_url_userinfo (ok : string -> bool) (scheme user pw host path : string) :
  scheme = "http" \/ scheme = "https" ->
  mem_char ":" user = false ->
  Spec.avoids Spec.netloc_stop (user ++ ":" ++ pw ++ "@" ++ host) = true ->
  Spec.avoids Spec.path_stop path = true ->
  endswith ".git" (scheme ++ "://" ++ (user ++ ":" ++ pw ++ "@" ++ host) ++ "/" ++ path) = false ->
  normalize_url ok (scheme ++ "://" ++ (user ++ ":" ++ pw ++ "@" ++ host) ++ "/" ++ path)
  = Ok (let p := strip_chars "/" path in if String.eqb p "" then user else user ++ "/" ++ p).
Proof.
  intros Hs Hu Hn Hp Hg.
  unfold normalize_url. rewrite Hg.
  rewrite urlparse_plain by assumption.
  assert (Pfx : forall s, String.prefix "" s = true) by (destruct s; reflexivity).
  assert (St : strip_chars "/" (String "/" path) = strip_chars "/" path) by reflexivity.
  assert (Sp : split_once ":" (user ++ ":" ++ pw ++ "@" ++ host) = Some (user, pw ++ "@" ++ host))
    by (apply split_once_app; exact Hu).
  simpl in Sp, St.
  destruct Hs as [->| ->]; simpl; rewrite ?Pfx; simpl; rewrite St, Sp; reflexivity.
Qed.

Lemma normalize_url_userinfo_witness :
  normalize_url (fun _ => true) "https://user:pw@host/x" = Ok "user/x".
Proof.
  exact (normalize_url_userinfo (fun _ => true) "https" "user" "pw" "host" "x"
           (or_intror eq_refl) eq_refl eq_refl eq_refl eq_refl).
Defined.

End NormalizeProps.

(* ------------------------------------------------------------------ *)
(** ** [RepoIdentifier.get_repo_identifier] *)

Module RepoIdProps.
Import Py RepoIdentifier.

Lemma first_other_chain (g : git_env) (N : string -> string) (rs : list (string * string)) :
  (forall u, In u (map snd rs) -> normalize_url (bracketed_ok g) u = Ok (N u)) ->
  first_other g rs = Ok (Spec.first_nonempty (map N (Spec.other_urls rs))).
Proof.
  induction rs as [|[n u] rs IH]; intros Hn; simpl; [reflexivity|].
  unfold Spec.other_urls; simpl.
  destruct (String.eqb n "origin"); simpl.
  - apply IH; intros v Hv; apply Hn; right; exact Hv.
  - rewrite (Hn u) by (left; reflexivity). simpl.
    destruct (String.eqb (N u) ""); simpl; [|reflexivity].
    apply IH; intros v Hv; apply Hn; right; exact Hv.
Qed.

(** Closes a goal that has reached the fallback of the chain. *)
Local Ltac finish :=
  match goal with
  | Eg : git_dir _ = _ |- _ =>
      destruct (Spec.first_nonempty _);
      [reflexivity|unfold get_local_identifier; rewrite Eg; reflexivity]
  end.

(** C9: outside a repository the identifier is [local/unknown], whatever
    [git] would do. Inside one, at [git_dir] [gd], when [git remote
    get-url origin] fails, if at all, only by a non-zero exit or a missing
    executable, when [get_all_remotes] returns (its listing is well formed
    and [git remote -v] raises nothing but these two), and when the URLs
    [git] yields normalise without raising, the identifier is the
    normalised [origin] URL, else the first non-empty normalised URL of
    another remote in listing order, else [local/<name>-<8 hex digits of
    the digest of the resolved root>], the root being the parent of
    [gd]. *)
Theorem get_repo_identifier_chain (g : git_env) :
  (git_dir g = None -> get_repo_identifier g = Ok "local/unknown")
  /\ (forall (gd : PathLib.path) (N : string -> string) (remotes : list (string * string)),
        git_dir g = Some gd ->
        remote_get_url g "origin" <> OtherOSError ->
        get_all_remotes g = Ok remotes ->
        (forall u, Spec.origin_url g = Some u \/ In u (map snd remotes) ->
           normalize_url (bracketed_ok g) u = Ok (N u)) ->
        get_repo_identifier g
        = Ok (Spec.identity_chain (option_map N (Spec.origin_url g))
                (map N (Spec.other_urls remotes))
                ("local/" ++ name (parent gd) ++ "-"
                 ++ take 8 (md5_hex g (resolved g (parent gd)))))).
Proof.
  split.
  - intros Eg. unfold get_repo_identifier, get_remote_url, get_all_remotes, get_local_identifier.
    rewrite Eg. reflexivity.
  - intros gd N remotes Eg Ho Hr Hn.
    assert (Hfo : first_other g remotes = Ok (Spec.first_nonempty (map N (Spec.other_urls remotes))))
      by (apply first_other_chain; intros u Hu; apply Hn; right; exact Hu).
    unfold get_repo_identifier, get_remote_url, Spec.identity_chain.
    unfold Spec.origin_url in Hn |- *. rewrite Eg in Hn |- *.
    destruct (remote_get_url g "origin") as [out| | |] eqn:Er; simpl;
      try (rewrite Hr; simpl; rewrite Hfo; simpl; finish).
    + unfold ConfigManager.truthy in Hn |- *.
      destruct (String.eqb (strip out) "") eqn:Es; simpl.
      * rewrite Hr; simpl; rewrite Hfo; simpl; finish.
      * rewrite (Hn (strip out)) by (left; reflexivity). simpl.
        destruct (String.eqb (N (strip out)) ""); simpl; [|reflexivity].
        rewrite Hr; simpl; rewrite Hfo; simpl; finish.
    + exfalso; apply Ho; reflexivity.
Qed.

Lemma get_repo_identifier_chain_witness :
  get_repo_identifier Spec.outside_env = Ok "local/unknown"
  /\ get_repo_identifier Spec.two_remotes_env = Ok "example.org/team/proj".
Proof.
  split.
  - exact (proj1 (get_repo_identifier_chain Spec.outside_env) eq_refl).
  - refine (eq_trans (proj2 (get_repo_identifier_chain Spec.two_remotes_env)
              (PathLib.mk_path "/" ["home"; "u"; "proj"; ".git"])
              (fun u => match normalize_url (fun _ => true) u with Ok v => v | Err _ => "" end)
              [("upstream", "git@example.org:team/proj.git"); ("origin", "https://example.org/o/p")]
              eq_refl _ _ _) _).
    + discriminate.
    + vm_compute; reflexivity.
    + intros u [H|H]; [discriminate|].
      simpl in H; destruct H as [<-|[<-|[]]]; reflexivity.
    + vm_compute; reflexivity.
Defined.

(** C9, against the claim: an [origin] URL that [urlparse] refuses makes
    [get_repo_identifier] raise [ValueError], and a [git] that cannot be run
    for a reason other than a missing file raises [OSError]; neither reaches
    the fallback. *)
Lemma get_repo_identifier_counterexample :
  get_repo_identifier Spec.bad_origin_env = Err ValueError
  /\ get_repo_identifier Spec.no_exec_env = Err OSError.
Proof. split; vm_compute; reflexivity. Qed.

End RepoIdProps.

(* ------------------------------------------------------------------ *)
(** ** The file system *)

Module DirFacts.
Import Py PathLib DirectoryManager.

Lemma find_app {A} (p : A -> bool) (l1 l2 : list A) :
  find p (app l1 l2) = match find p l1 with Some x => Some x | None => find p l2 end.
Proof. induction l1 as [|x l1 IH]; simpl; [reflexivity|]. destruct (p x); [reflexivity|exact IH]. Qed.

(** Entries are only ever appended: what a path is does not change. *)
Lemma kind_of_app (f l : fs) (a : list string) (k : kind) :
  kind_of f a = Some k -> kind_of (app f l) a = Some k.
Proof.
  destruct a as [|x a]; simpl; [tauto|].
  rewrite find_app. destruct (find _ f); simpl; [tauto|discriminate].
Qed.

Lemma names_eqb_refl (a : list string) : names_eqb a a = true.
Proof. unfold names_eqb; destruct (list_eq_dec string_dec a a); congruence. Qed.

Lemma kind_of_new (f : fs) (p : list string) :
  p <> [] -> kind_of f p = None -> kind_of (app f [(p, Dir)]) p = Some Dir.
Proof.
  destruct p as [|x p]; [congruence|]. intros _. simpl.
  rewrite find_app. destruct (find _ f); simpl; [discriminate|].
  rewrite names_eqb_refl; reflexivity.
Qed.

Definition extends (f g : fs) : Prop := exists l, g = app f l.

Lemma extends_refl (f : fs) : extends f f.
Proof. exists []; symmetry; apply app_nil_r. Qed.

Lemma extends_trans (f g h : fs) : extends f g -> extends g h -> extends f h.
Proof. intros [l1 ->] [l2 ->]; exists (app l1 l2); symmetry; apply app_assoc. Qed.

Lemma kind_of_extends (f g : fs) (a : list string) (k : kind) :
  extends f g -> kind_of f a = Some k -> kind_of g a = Some k.
Proof. intros [l ->]; apply kind_of_app. Qed.

(** [mkdir(parents=True, exist_ok=True)] only appends directories, leaves
    the path a directory, and once it has succeeded, succeeds again without
    change on any later file system. *)
Lemma mkdir_from_spec (f f' : fs) (pre rest : list string) :
  mkdir_from f pre rest = Ok f' ->
  extends f f'
  /\ (rest <> [] -> kind_of f' (app pre rest) = Some Dir)
  /\ (forall g, extends f' g -> mkdir_from g pre rest = Ok g).
Proof.
  revert f pre; induction rest as [|c rest IH]; intros f pre H; simpl in H.
  - injection H as <-. split; [apply extends_refl|]. split; [congruence|].
    intros g _; reflexivity.
  - destruct (kind_of f (app pre [c])) as [[|]|] eqn:E.
    + destruct (IH _ _ H) as (Hx & Hk & Hg). split; [exact Hx|]. split.
      * intros _. destruct rest as [|c' rest'].
        -- apply (kind_of_extends f); assumption.
        -- replace (app pre (c :: c' :: rest')) with (app (app pre [c]) (c' :: rest'))
             by (rewrite <- app_assoc; reflexivity).
           apply Hk; discriminate.
      * intros g Hfg. simpl. rewrite (kind_of_extends f g _ Dir) by (eauto using extends_trans).
        apply Hg; exact Hfg.
    + discriminate.
    + assert (Hn : kind_of (app f [(app pre [c], Dir)]) (app pre [c]) = Some Dir)
        by (apply kind_of_new; [destruct pre; discriminate|exact E]).
      destruct (IH _ _ H) as (Hx & Hk & Hg). split.
      { destruct Hx as [l ->]. exists ((app pre [c], Dir) :: l). rewrite <- app_assoc; reflexivity. }
      split.
      * intros _. destruct rest as [|c' rest'].
        -- apply (kind_of_extends _ _ _ _ Hx Hn).
        -- replace (app pre (c :: c' :: rest')) with (app (app pre [c]) (c' :: rest'))
             by (rewrite <- app_assoc; reflexivity).
           apply Hk; discriminate.
      * intros g Hfg. simpl.
        rewrite (kind_of_extends (app f [(app pre [c], Dir)]) g _ Dir (extends_trans _ _ _ Hx Hfg) Hn).
        apply Hg; exact Hfg.
Qed.

Lemma mkdir_spec (o : os) (f f' : fs) (p : path) :
  mkdir o f p = Ok f' ->
  extends f f'
  /\ kind_of f' (abs o p) = Some Dir
  /\ (forall g, extends f' g -> mkdir o g p = Ok g).
Proof.
  unfold mkdir. intros H. destruct (mkdir_from_spec _ _ _ _ H) as (Hx & Hk & Hg).
  split; [exact Hx|]. split; [|exact Hg].
  destruct (abs o p) as [|x a] eqn:E; [reflexivity|]. apply Hk; discriminate.
Qed.

(** [get_workspace_base] does not read the file system: once it has
    succeeded, it returns the same root again on any later file system,
    without change. *)
Lemma get_workspace_base_spec (o : os) (st : ConfigManager.cm) (g g' : fs)
  (rid : option string) (ws : path) :
  get_workspace_base o st g rid = Ok (ws, g') ->
  extends g g'
  /\ kind_of g' (abs o ws) = Some Dir
  /\ (forall h, extends g' h -> get_workspace_base o st h rid = Ok (ws, h))
  /\ (forall h, extends g' h -> mkdir o h ws = Ok h).
Proof.
  unfold get_workspace_base.
  destruct (ConfigManager.get_path _ _ _ _ None rid) as [W|e]; [|discriminate].
  destruct (ConfigManager.get_path _ _ _ _ (Some "~/tickets") None) as [D|e]; [|discriminate].
  cbv beta iota delta [bind].
  set (b := match ConfigManager.truthy rid with
            | Some r => if path_eqb W D then div W (sanitize_repo_name r) else W
            | None => W
            end).
  destruct (mkdir o g b) as [g1|e] eqn:EM; [|discriminate]. intros [= <- <-].
  destruct (mkdir_spec _ _ _ _ EM) as (Hx & Hk & Hg).
  split; [exact Hx|]. split; [exact Hk|]. split; [|exact Hg].
  intros h Hh. rewrite (Hg h Hh). reflexivity.
Qed.

End DirFacts.

(* ------------------------------------------------------------------ *)
(** ** [DirectoryManager.get_workspace_base] *)

Module WorkspaceProps.
Import Py PathLib DirectoryManager DirFacts.
Module CP := ConfigParser.

Lemma path_eqb_refl (p : path) : path_eqb p p = true.
Proof.
  destruct p as [root parts]; unfold path_eqb; simpl. rewrite String.eqb_refl; simpl.
  induction parts as [|x parts IH]; simpl; [reflexivity|]. rewrite String.eqb_refl; exact IH.
Qed.

Lemma get_nonempty_fallback (st : ConfigManager.cm) (section key : string)
  (fb ro : option string) (v : string) :
  ConfigManager.get st section key None ro = Ok v -> v <> "" ->
  ConfigManager.get st section key fb ro = Ok v.
Proof.
  intros H Hv. unfold ConfigManager.get in *. cbv zeta in *.
  destruct (ConfigManager.truthy _) as [r|].
  - destruct (CP.has_section _ _ && CP.has_option _ _ _); [exact H|].
    destruct (CP.has_section _ _ && CP.has_option _ _ _); [exact H|].
    injection H as <-; contradiction.
  - destruct (CP.has_section _ _ && CP.has_option _ _ _); [exact H|].
    injection H as <-; contradiction.
Qed.

(** C5, against the claim: in a manager built with the instance [repo_id]
    [r], as [TicketManager] always builds it, [get_workspace_base(r)]
    resolves [W] (for [r]) and [D] (with [repo_id=None], which falls back
    to the instance [r]) from the same configuration entry. So whenever
    that entry is non-empty the root is the entry's path extended by
    [_sanitize_repo_name(r)], also when the entry is an explicit override
    of [r]. *)
Theorem get_workspace_base_instance_suffix (o : os) (st : ConfigManager.cm) (f : fs)
  (r v : string) (base : path) (f' : fs) :
  ConfigManager.repo_id0 st = Some r -> r <> "" ->
  ConfigManager.get st "paths" "workspace_base" None (Some r) = Ok v -> v <> "" ->
  get_workspace_base o st f (Some r) = Ok (base, f') ->
  base = div (parse (expanduser (os_env o) v)) (sanitize_repo_name r).
Proof.
  intros Hr0 Hr Hv Hne H.
  assert (Ht : ConfigManager.truthy (Some r) = Some r)
    by (unfold ConfigManager.truthy; apply String.eqb_neq in Hr; rewrite Hr; reflexivity).
  assert (HD : ConfigManager.get st "paths" "workspace_base" (Some "~/tickets") (Some r) = Ok v)
    by (apply get_nonempty_fallback; assumption).
  unfold get_workspace_base, ConfigManager.get_path in H. rewrite Hr0 in H.
  cbv zeta in H. rewrite Hv, HD in H. cbv beta iota delta [bind] in H.
  apply String.eqb_neq in Hne. rewrite Hne in H. simpl negb in H. cbv iota in H.
  rewrite Ht, path_eqb_refl in H.
  destruct (mkdir o f _) as [g|e]; [|discriminate]. simpl in H. injection H as <- _.
  reflexivity.
Qed.

Lemma get_workspace_base_instance_suffix_witness :
  CP.has_option (ConfigManager.config Spec.instance_override) "repo:r" "paths.workspace_base" = true
  /\ ConfigManager.get Spec.instance_override "paths" "workspace_base" None (Some "r") = Ok "/work/x"
  /\ exists f', get_workspace_base Spec.os0 Spec.instance_override [] (Some "r")
                = Ok (mk_path "/" ["work"; "x"; "r"], f')
  /\ mk_path "/" ["work"; "x"; "r"]
     = div (parse (expanduser (os_env Spec.os0) "/work/x")) (sanitize_repo_name "r").
Proof.
  assert (Hv : ConfigManager.get Spec.instance_override "paths" "workspace_base" None (Some "r")
               = Ok "/work/x") by (vm_compute; reflexivity).
  assert (E : match get_workspace_base Spec.os0 Spec.instance_override [] (Some "r") with
              | Ok (b, _) => path_eqb b (mk_path "/" ["work"; "x"; "r"])
              | Err _ => false end = true) by (vm_compute; reflexivity).
  destruct (get_workspace_base Spec.os0 Spec.instance_override [] (Some "r"))
    as [[b f']|e] eqn:Eb; [|discriminate].
  refine (conj _ (conj Hv (ex_intro _ f' _))); [vm_compute; reflexivity|].
  assert (Hb : b = div (parse (expanduser (os_env Spec.os0) "/work/x")) (sanitize_repo_name "r"))
    by (apply (get_workspace_base_instance_suffix Spec.os0 Spec.instance_override [] "r"
                 "/work/x" b f'); [vm_compute; reflexivity|discriminate|exact Hv|discriminate|exact Eb]).
  split; [rewrite Hb; vm_compute; reflexivity|].
  vm_compute; reflexivity.
Defined.

End WorkspaceProps.

(* ------------------------------------------------------------------ *)
(** ** What [sanitize_directory_name] leaves for [Path.__truediv__] *)

Module SanitizeFacts.
Import Py PathLib DirectoryManager StringFacts.

Lemma mem_lstrip (p : ascii -> bool) (c : ascii) (s : string) :
  mem_char c (lstrip_by p s) = true -> mem_char c s = true.
Proof.
  induction s as [|d s IH]; simpl; [tauto|].
  destruct (p d); [intros H; rewrite (IH H); apply Bool.orb_true_r|tauto].
Qed.

Lemma mem_rstrip (p : ascii -> bool) (c : ascii) (s : string) :
  mem_char c (rstrip_by p s) = true -> mem_char c s = true.
Proof.
  induction s as [|d s IH]; simpl; [tauto|].
  destruct (rstrip_by p s) as [|x t] eqn:E.
  - destruct (p d); simpl; [discriminate|]. rewrite Bool.orb_false_r. intros ->; reflexivity.
  - simpl. intros [H|H]%Bool.orb_true_iff; [rewrite H; reflexivity|].
    rewrite (IH H); apply Bool.orb_true_r.
Qed.

Lemma mem_take (n : nat) (c : ascii) (s : string) :
  mem_char c (take n s) = true -> mem_char c s = true.
Proof.
  unfold take; revert s; induction n as [|n IH]; intros s; simpl; [destruct s; discriminate|].
  destruct s as [|d s]; simpl; [discriminate|].
  intros [H|H]%Bool.orb_true_iff; [rewrite H; reflexivity|].
  rewrite (IH s H); apply Bool.orb_true_r.
Qed.

Lemma no_slash_replaced (s : string) :
  mem_char "/" (replace_all_chars invalid_chars "_" s) = false.
Proof.
  apply Bool.not_true_iff_false. intros [i Hi]%mem_char_spec.
  rewrite get_replace_all_chars in Hi by reflexivity.
  destruct (String.get i s) as [x|]; cbn [option_map] in Hi; [|discriminate].
  destruct (mem_char x invalid_chars) eqn:E.
  - inversion Hi.
  - injection Hi as ->. discriminate E.
Qed.

Lemma lstrip_head (p : ascii -> bool) (s t : string) (c : ascii) :
  lstrip_by p s = String c t -> p c = false.
Proof.
  induction s as [|d s IH]; simpl; [discriminate|].
  destruct (p d) eqn:E; [exact IH|]. intros [= <- _]; exact E.
Qed.

Lemma rstrip_head (p : ascii -> bool) (c : ascii) (s t : string) (d : ascii) :
  rstrip_by p (String c s) = String d t -> d = c.
Proof.
  simpl. destruct (rstrip_by p s); [destruct (p c); [discriminate|]|]; intros [= <- _]; reflexivity.
Qed.

Lemma strip_head (p : ascii -> bool) (s : string) (c : ascii) :
  String.get 0 (strip_by p s) = Some c -> p c = false.
Proof.
  unfold strip_by. destruct (lstrip_by p s) as [|x t] eqn:E; [discriminate|].
  destruct (rstrip_by p (String x t)) as [|y u] eqn:F; [discriminate|].
  simpl. intros [= <-]. apply rstrip_head in F; subst y. exact (lstrip_head _ _ _ _ E).
Qed.

Lemma take_head (n : nat) (s : string) (c : ascii) :
  String.get 0 (take (S n) s) = Some c -> String.get 0 s = Some c.
Proof. unfold take; destruct s; simpl; tauto. Qed.

(** The name has no slash, and does not start with a dot. *)
Lemma sanitize_directory_name_plain (w : bool) (name : string) :
  mem_char "/" (sanitize_directory_name w name) = false
  /\ String.get 0 (sanitize_directory_name w name) <> Some "."%char.
Proof.
  pose proof (no_slash_replaced name) as H1.
  set (s1 := replace_all_chars invalid_chars "_" name) in *.
  assert (H2 : mem_char "/" (strip_chars ". " s1) = false).
  { apply Bool.not_true_iff_false; intros H.
    unfold strip_chars, strip_by in H. apply mem_rstrip, mem_lstrip in H. congruence. }
  assert (D2 : String.get 0 (strip_chars ". " s1) <> Some "."%char).
  { intros H. apply strip_head in H. discriminate. }
  set (s2 := strip_chars ". " s1) in *.
  set (s3 := if existsb (String.eqb (upper s2)) reserved then "_" ++ s2 else s2).
  assert (H3 : mem_char "/" s3 = false) by (unfold s3; destruct existsb; [simpl; exact H2|exact H2]).
  assert (D3 : String.get 0 s3 <> Some "."%char)
    by (unfold s3; destruct existsb; [simpl; discriminate|exact D2]).
  unfold sanitize_directory_name. fold s1 s2 s3.
  assert (T : forall n, mem_char "/" (take n s3) = false).
  { intros n; apply Bool.not_true_iff_false; intros H%mem_take; congruence. }
  destruct w.
  - cbv zeta. destruct (_ <? _)%Z.
    + split; [apply T|]. change (Z.to_nat (max_name_len 100)) with (S 109).
      intros H; apply take_head in H; contradiction.
    + split; assumption.
  - destruct (255 <? _).
    + split; [apply T|]. change 255 with (S 254). intros H; apply take_head in H; contradiction.
    + split; assumption.
Qed.

Lemma count_lead_no (c : ascii) (s : string) : mem_char c s = false -> count_lead c s = 0.
Proof. destruct s as [|d s]; simpl; [reflexivity|]. intros [-> _]%Bool.orb_false_iff; reflexivity. Qed.

Lemma split_on_no (c : ascii) (s : string) : mem_char c s = false -> split_on c s = [s].
Proof.
  induction s as [|d s IH]; simpl; [reflexivity|].
  intros [H1 H2]%Bool.orb_false_iff. rewrite H1, IH by exact H2. reflexivity.
Qed.

Lemma drop_0 (s : string) : drop 0 s = s.
Proof. unfold drop; rewrite Nat.sub_0_r. apply NormalizeProps.substring_0_length. Qed.

(** [p / s] for such a name is the child [s] of [p], or [p] itself when
    the name is empty. *)
Lemma div_plain (p : path) (s : string) :
  mem_char "/" s = false -> String.get 0 s <> Some "."%char ->
  div p s = if String.eqb s "" then p else child p s.
Proof.
  intros H1 H2. unfold div, parse. rewrite count_lead_no by exact H1. simpl.
  rewrite drop_0, split_on_no by exact H1. simpl.
  destruct (String.eqb_spec s "") as [->|Hne]; simpl.
  - rewrite app_nil_r. destruct p; reflexivity.
  - replace (String.eqb s ".") with false; [reflexivity|].
    symmetry; apply String.eqb_neq; intros ->; apply H2; reflexivity.
Qed.

End SanitizeFacts.

(* ------------------------------------------------------------------ *)
(** ** Listing and searching the workspace root *)

Module ListingFacts.
Import Py PathLib Regex DirectoryManager DirFacts.

(** The entries [mkdir] adds are prefixes of the path it creates. *)
Lemma mkdir_from_new (f f' : fs) (pre rest : list string) :
  mkdir_from f pre rest = Ok f' ->
  exists l, f' = app f l
    /\ forall e, In e l -> exists k, 1 <= k <= length rest /\ fst e = app pre (firstn k rest).
Proof.
  revert f pre; induction rest as [|c rest IH]; intros f pre H; simpl in H.
  - injection H as <-. exists []. split; [symmetry; apply app_nil_r|intros e []].
  - destruct (kind_of f (app pre [c])) as [[|]|] eqn:E.
    + destruct (IH _ _ H) as (l & -> & Hl). exists l. split; [reflexivity|].
      intros e He. destruct (Hl e He) as (k & Hk & ->). exists (S k). split; [simpl; lia|].
      simpl. rewrite <- app_assoc. reflexivity.
    + discriminate.
    + destruct (IH _ _ H) as (l & -> & Hl). exists ((app pre [c], Dir) :: l).
      split; [rewrite <- app_assoc; reflexivity|].
      intros e [<-|He].
      * exists 1. split; [simpl; lia|]. reflexivity.
      * destruct (Hl e He) as (k & Hk & ->). exists (S k). split; [simpl; lia|].
        simpl. rewrite <- app_assoc. reflexivity.
Qed.

Lemma child_name_spec (a b : list string) (n : string) :
  child_name a b = Some n -> b = app a [n].
Proof.
  revert b; induction a as [|x a IH]; intros b; destruct b as [|y b]; simpl; try discriminate.
  - destruct b; [intros [= ->]; reflexivity|discriminate].
  - destruct (String.eqb_spec x y) as [->|]; [|discriminate].
    intros H; rewrite (IH _ H); reflexivity.
Qed.

Lemma child_name_app (a : list string) (n : string) : child_name a (app a [n]) = Some n.
Proof. induction a as [|x a IH]; simpl; [reflexivity|]. rewrite String.eqb_refl; exact IH. Qed.

Lemma listdir_app (f l : fs) (a : list string) :
  listdir (app f l) a = app (listdir f a) (listdir l a).
Proof. unfold listdir. apply flat_map_app. Qed.

Lemma in_listdir (f : fs) (a : list string) (n : string) :
  In n (listdir f a) -> exists k, In (app a [n], k) f.
Proof.
  unfold listdir. intros ((b, k) & Hin & Hn)%in_flat_map. simpl in Hn.
  destruct (child_name a b) as [m|] eqn:E; [|destruct Hn].
  destruct Hn as [<-|[]]. apply child_name_spec in E; subst b. exists k; exact Hin.
Qed.

Lemma kind_of_in (f : fs) (a : list string) (k : kind) :
  In (a, k) f -> exists k', kind_of f a = Some k'.
Proof.
  destruct a as [|x a]; [intros; exists Dir; reflexivity|]. intros Hin. simpl.
  destruct (find (fun e => names_eqb (fst e) (x :: a)) f) as [[b k']|] eqn:E.
  - exists k'; reflexivity.
  - exfalso. apply (find_none _ _ E) in Hin. simpl in Hin. rewrite names_eqb_refl in Hin. discriminate.
Qed.

Lemma abs_child (o : os) (p : path) (n : string) :
  abs o (child p n) = app (abs o p) [n].
Proof. unfold abs, child; simpl. destruct (String.eqb (p_root p) ""); [apply app_assoc|reflexivity]. Qed.

Lemma first_match_app (o : os) (f : fs) (r : re) (l1 l2 : list path) :
  first_match o f r (app l1 l2)
  = match first_match o f r l1 with Some x => Some x | None => first_match o f r l2 end.
Proof. induction l1 as [|x l1 IH]; simpl; [reflexivity|]. destruct (_ && _); [reflexivity|exact IH]. Qed.

(** The search over entries that exist already does not change when
    entries are appended. *)
Lemma first_match_extends (o : os) (f g : fs) (r : re) (ws : path) (ns : list string) :
  extends f g ->
  (forall n, In n ns -> exists k, kind_of f (app (abs o ws) [n]) = Some k) ->
  first_match o g r (map (child ws) ns) = first_match o f r (map (child ws) ns).
Proof.
  intros Hx; induction ns as [|n ns IH]; intros Hn; simpl; [reflexivity|].
  destruct (Hn n (or_introl eq_refl)) as (k & Hk).
  unfold is_dir. rewrite abs_child, (kind_of_extends _ _ _ _ Hx Hk), Hk.
  rewrite IH; [reflexivity|]. intros m Hm; apply Hn; right; exact Hm.
Qed.

Lemma listdir_exist (f : fs) (a : list string) (n : string) :
  In n (listdir f a) -> exists k, kind_of f (app a [n]) = Some k.
Proof. intros H. destruct (in_listdir _ _ _ H) as (k & Hk). exact (kind_of_in _ _ _ Hk). Qed.

(** A search over copies of one path finds that path or nothing. *)
Lemma first_match_same (o : os) (f : fs) (r : re) (ws : path) (s : string) (ns : list string) :
  (forall n, In n ns -> n = s) ->
  first_match o f r (map (child ws) ns) = None
  \/ first_match o f r (map (child ws) ns) = Some (child ws s).
Proof.
  induction ns as [|n ns IH]; intros Hn; simpl; [left; reflexivity|].
  rewrite (Hn n (or_introl eq_refl)). destruct (_ && _); [right; reflexivity|].
  apply IH; intros m Hm; apply Hn; right; exact Hm.
Qed.

End ListingFacts.

(* ------------------------------------------------------------------ *)
(** ** [DirectoryManager.create_ticket_directory] *)

Module CreateProps.
Import Py PathLib Regex RegexParser DirectoryManager DirFacts SanitizeFacts ListingFacts.

(** Once the root is in place, the search reads the listing of the file
    system it is given and changes nothing. *)
Lemma find_existing_at (o : os) (st : ConfigManager.cm) (f f1 h : fs)
  (rid : option string) (ws : path) (prefix number : string) :
  get_workspace_base o st f rid = Ok (ws, f1) -> extends f1 h ->
  find_existing_ticket_dir o st h prefix number rid
  = match compile (ticket_dir_pattern prefix number) with
    | Compiled r _ => Ok (first_match o h r (iterdir o h ws), h)
    | _ => Err ReError
    end.
Proof.
  intros G Hx. destruct (get_workspace_base_spec _ _ _ _ _ _ G) as (_ & Hk & Hg & _).
  unfold find_existing_ticket_dir. rewrite (Hg h Hx). cbv beta iota delta [bind].
  unfold exists_. rewrite (kind_of_extends _ _ _ _ Hx Hk). reflexivity.
Qed.

(** What [mkdir] adds under the root [ws] is at most the child [n]. *)
Lemma mkdir_children (o : os) (f f' : fs) (ws : path) (n : string) :
  mkdir o f (child ws n) = Ok f' ->
  exists l, f' = app f l /\ forall m, In m (listdir l (abs o ws)) -> m = n.
Proof.
  unfold mkdir. rewrite abs_child. intros M.
  destruct (mkdir_from_new _ _ _ _ M) as (l & -> & Hl). exists l. split; [reflexivity|].
  intros m Hm. destruct (in_listdir _ _ _ Hm) as (k & Hk).
  destruct (Hl _ Hk) as (j & Hj & Ej). simpl in Ej, Hj.
  rewrite length_app in Hj; simpl in Hj.
  assert (Lj : length (app (abs o ws) [m]) = length (firstn j (app (abs o ws) [n])))
    by (rewrite Ej; reflexivity).
  rewrite length_firstn, !length_app in Lj. simpl in Lj.
  replace j with (length (app (abs o ws) [n])) in Ej by (rewrite length_app; simpl; lia).
  rewrite firstn_all in Ej. apply app_inj_tail in Ej. destruct Ej as [_ ->]; reflexivity.
Qed.

(** C3: a second call of [create_ticket_directory] with the same
    arguments, on the file system the first call left, returns the same
    directory and leaves the file system as it is. The first call returns
    the directory the search finds, unchanged; only when the search finds
    none does it create [workspace_base / sanitize_directory_name(branch)]
    with its parents. *)
Theorem create_ticket_directory_idempotent (o : os) (st : ConfigManager.cm) (f : fs)
  (branch prefix number : string) (rid : option string) (d : path) (f' : fs) :
  create_ticket_directory o st f branch prefix number rid = Ok (d, f') ->
  create_ticket_directory o st f' branch prefix number rid = Ok (d, f')
  /\ exists ws f1,
       get_workspace_base o st f rid = Ok (ws, f1)
       /\ ((find_existing_ticket_dir o st f1 prefix number rid = Ok (Some d, f1) /\ f' = f1)
           \/ (find_existing_ticket_dir o st f1 prefix number rid = Ok (None, f1)
               /\ d = div ws (sanitize_directory_name (os_windows o) branch)
               /\ mkdir o f1 d = Ok f'
               /\ kind_of f' (abs o d) = Some Dir)).
Proof.
  intros H. unfold create_ticket_directory in H.
  destruct (get_workspace_base o st f rid) as [[ws f1]|e] eqn:G; [|discriminate].
  cbv beta iota delta [bind] in H.
  destruct (get_workspace_base_spec _ _ _ _ _ _ G) as (Hx1 & Hk1 & Hg1 & Hw1).
  pose proof (find_existing_at o st f f1 f1 rid ws prefix number G (extends_refl f1)) as Q1.
  rewrite Q1 in H.
  destruct (compile (ticket_dir_pattern prefix number)) as [r ng| |] eqn:C; try discriminate.
  cbv beta iota in H.
  destruct (first_match o f1 r (iterdir o f1 ws)) as [e|] eqn:F.
  - (* the search finds a directory: it is returned as it is *)
    injection H as <- <-. split.
    + unfold create_ticket_directory. rewrite (Hg1 f1 (extends_refl f1)). cbv beta iota delta [bind].
      rewrite Q1. reflexivity.
    + exists ws, f1. split; [reflexivity|]. left. split; [exact Q1|reflexivity].
  - (* it finds none: the sanitized name is created under the root *)
    set (s := sanitize_directory_name (os_windows o) branch) in *.
    destruct (mkdir o f1 (div ws s)) as [f3|err] eqn:M; [|discriminate].
    cbv beta iota delta [bind] in H. injection H as <- <-.
    destruct (mkdir_spec _ _ _ _ M) as (Hx3 & Hk3 & Hg3).
    split.
    + unfold create_ticket_directory.
      rewrite (Hg1 f3 Hx3). cbv beta iota delta [bind].
      rewrite (find_existing_at o st f f1 f3 rid ws prefix number G Hx3), C. cbv beta iota.
      assert (Hm : first_match o f3 r (iterdir o f3 ws) = None
                   \/ first_match o f3 r (iterdir o f3 ws) = Some (div ws s)).
      { destruct (sanitize_directory_name_plain (os_windows o) branch) as [P1 P2].
        fold s in P1, P2. rewrite (div_plain ws s P1 P2) in M |- *.
        destruct (String.eqb s "").
        - (* [ws / ''] is [ws] itself, which is there already *)
          rewrite (Hw1 f1 (extends_refl f1)) in M. injection M as <-. left; exact F.
        - destruct (mkdir_children _ _ _ _ _ M) as (l & El & Hl). subst f3.
          unfold iterdir. rewrite listdir_app, map_app, first_match_app.
          rewrite (first_match_extends o f1 (app f1 l) r ws) by
            (exact (ex_intro _ l eq_refl) || (intros n Hn; apply listdir_exist; exact Hn)).
          unfold iterdir in F. rewrite F.
          apply first_match_same. intros m Hm.
          apply Hl. exact Hm. }
      destruct Hm as [Hm|Hm]; rewrite Hm; cbv beta iota; [|reflexivity].
      fold s. rewrite (Hg3 f3 (extends_refl f3)). reflexivity.
    + exists ws, f1. split; [reflexivity|]. right.
      split; [exact Q1|]. split; [reflexivity|]. split; [exact M|exact Hk3].
Qed.

Lemma create_ticket_directory_idempotent_witness :
  create_ticket_directory Spec.os0 Spec.fresh
    [(["home"], Dir); (["home"; "u"], Dir); (["home"; "u"; "tickets"], Dir);
     (["home"; "u"; "tickets"; "JIRA-123-login-fix"], Dir)]
    "JIRA-123-login-fix" "JIRA" "123" None
  = Ok (mk_path "/" ["home"; "u"; "tickets"; "JIRA-123-login-fix"],
        [(["home"], Dir); (["home"; "u"], Dir); (["home"; "u"; "tickets"], Dir);
         (["home"; "u"; "tickets"; "JIRA-123-login-fix"], Dir)]).
Proof.
  refine (proj1 (create_ticket_directory_idempotent Spec.os0 Spec.fresh []
            "JIRA-123-login-fix" "JIRA" "123" None
            (mk_path "/" ["home"; "u"; "tickets"; "JIRA-123-login-fix"])
            [(["home"], Dir); (["home"; "u"], Dir); (["home"; "u"; "tickets"], Dir);
             (["home"; "u"; "tickets"; "JIRA-123-login-fix"], Dir)] _)).
  vm_compute; reflexivity.
Defined.

End CreateProps.

(* ------------------------------------------------------------------ *)
(** ** The matcher against the semantics of regular expressions *)

Module RegexFacts.
Import Py Regex Spec StringFacts.

Definition mspec (m : mres) (Q : Prop) : Prop :=
  match m with Matched _ => Q | NoMatch => ~ Q | OutOfFuel => False end.

Lemma mspec_iff (m : mres) (Q Q' : Prop) : (Q <-> Q') -> mspec m Q -> mspec m Q'.
Proof. destruct m; simpl; tauto. Qed.

Lemma mspec_orelse (a : mres) (b : unit -> mres) (Q1 Q2 : Prop) :
  mspec a Q1 -> mspec (b tt) Q2 -> mspec (orelse a b) (Q1 \/ Q2).
Proof. destruct a; simpl; [tauto| |tauto]. destruct (b tt); simpl; tauto. Qed.

Section Adequacy.
Variable icase : bool.
Variable inp : string.

Definition kspec (k : nat -> caps -> mres) (P : nat -> Prop) (i : nat) : Prop :=
  forall j cs, i <= j -> j <= String.length inp -> mspec (k j cs) (P j).

Lemma kspec_mono (k : nat -> caps -> mres) (P : nat -> Prop) (i j : nat) :
  i <= j -> kspec k P i -> kspec k P j.
Proof. intros H Hk j' cs H1 H2. apply Hk; lia. Qed.

Lemma sem_bounds (r : re) (i j : nat) :
  sem icase inp r i j -> i <= j /\ (i <= String.length inp -> j <= String.length inp).
Proof.
  induction 1; try (split; lia). apply get_some_lt in H0. lia.
Qed.

Lemma single_case (r : re) (i : nat) (cs : caps) (k : nat -> caps -> mres) (P : nat -> Prop) :
  single r = true -> kspec k P i ->
  mspec (match String.get i inp with
         | Some c => if char_ok icase r c then k (S i) cs else NoMatch
         | None => NoMatch end)
        (exists j, sem icase inp r i j /\ P j).
Proof.
  intros Hs Hk. destruct (String.get i inp) as [c|] eqn:G.
  - destruct (char_ok icase r c) eqn:C.
    + apply mspec_iff with (P (S i)).
      * split; [intros Hp; exists (S i); split; [eapply sem_single; eauto|exact Hp]|].
        intros (j & Hj & Hp). inversion Hj; subst; try discriminate. exact Hp.
      * apply Hk; [lia|]. apply get_some_lt in G; lia.
    + simpl. intros (j & Hj & _). inversion Hj; subst; try discriminate. congruence.
  - simpl. intros (j & Hj & _). inversion Hj; subst; try discriminate. congruence.
Qed.


(** [mt] with the minimum of a repeat spent. *)
Lemma rep0_iff (r : re) (mx : option nat) (g : bool) (i : nat) (P : nat -> Prop) :
  mx <> Some 0 ->
  ((exists j, sem icase inp (RRep r 0 mx g) i j /\ P j)
   <-> P i \/ exists j, sem icase inp r i j
                  /\ (i <> j /\ exists j', sem icase inp (RRep r 0 (option_map pred mx) g) j j' /\ P j')).
Proof.
  intros Hmx. split.
  - intros (j & Hj & Hp). inversion Hj; subst; try discriminate.
    + left; exact Hp.
    + right. eexists; split; [eassumption|]. split; [assumption|]. eexists; split; eassumption.
  - intros [Hp|(j & Hj & Hne & j' & Hj' & Hp)].
    + exists i; split; [apply sem_rep_zero|exact Hp].
    + exists j'; split; [eapply sem_rep_more; eassumption|exact Hp].
Qed.

Lemma mt_rep_more (f : nat) (r : re) (mx : option nat) (g : bool) (i : nat) (cs : caps)
  (k : nat -> caps -> mres) :
  mx <> Some 0 ->
  mt (S f) icase inp (RRep r 0 mx g) i cs k
  = let more := fun _ : unit =>
      mt f icase inp r i cs
         (fun j cs' => if j =? i then NoMatch
                       else mt f icase inp (RRep r 0 (option_map pred mx) g) j cs' k) in
    if g then orelse (more tt) (fun _ => k i cs) else orelse (k i cs) more.
Proof. intros H. destruct mx as [[|m]|]; [congruence|reflexivity|reflexivity]. Qed.

(** The matcher decides [sem] with the continuation's answer, and the
    fuel [need] is never exhausted. *)
Lemma mt_adequate (r : re) : forall f i cs k P,
  need (String.length inp) r <= f -> i <= String.length inp -> kspec k P i ->
  mspec (mt f icase inp r i cs k) (exists j, sem icase inp r i j /\ P j).
Proof.
  induction r as [| | | | | | |n r IH|r1 IH1 r2 IH2|r1 IH1 r2 IH2|r IH mn0 mx0 g];
    intros f i cs k P Hf Hi Hk.
  1-7: destruct f as [|f]; [simpl in Hf; lia|].
  - (* REps *)
    apply mspec_iff with (P i); [|apply Hk; lia].
    split; [intros Hp; exists i; split; [apply sem_eps|exact Hp]|].
    intros (j & Hj & Hp). inversion Hj; subst; try discriminate. exact Hp.
  - apply single_case; [reflexivity|exact Hk].
  - apply single_case; [reflexivity|exact Hk].
  - apply single_case; [reflexivity|exact Hk].
  - apply single_case; [reflexivity|exact Hk].
  - (* RBol *)
    cbn [mt]. destruct (Nat.eqb_spec i 0) as [->|Hn].
    + apply mspec_iff with (P 0); [|apply Hk; lia].
      split; [intros Hp; exists 0; split; [apply sem_bol|exact Hp]|].
      intros (j & Hj & Hp). inversion Hj; subst; try discriminate. exact Hp.
    + simpl. intros (j & Hj & _). inversion Hj; subst; try discriminate. congruence.
  - (* REol *)
    change (mspec (if eol_at inp i then k i cs else NoMatch) (exists j, sem icase inp REol i j /\ P j)).
    destruct (eol_at inp i) eqn:E.
    + apply mspec_iff with (P i); [|apply Hk; lia].
      split; [intros Hp; exists i; split; [apply sem_eol; exact E|exact Hp]|].
      intros (j & Hj & Hp). inversion Hj; subst; try discriminate. exact Hp.
    + simpl. intros (j & Hj & _). inversion Hj; subst; try discriminate. congruence.
  - (* RGroup *)
    destruct f as [|f]; [simpl in Hf; lia|]. cbn [mt]. simpl in Hf.
    eapply mspec_iff; [|apply IH; [lia|exact Hi|]].
    + split; intros (j & Hj & Hp); exists j; (split; [|exact Hp]).
      * apply sem_group; exact Hj.
      * inversion Hj; subst; try discriminate; assumption.
    + intros j cs' H1 H2. apply Hk; assumption.
  - (* RCat *)
    destruct f as [|f]; [simpl in Hf; lia|]. cbn [mt]. simpl in Hf.
    eapply mspec_iff; [|apply IH1 with (P := fun j => exists j', sem icase inp r2 j j' /\ P j');
                        [lia|exact Hi|]].
    + split.
      * intros (j & Hj & j' & Hj' & Hp). exists j'; split; [eapply sem_cat; eassumption|exact Hp].
      * intros (j' & Hj' & Hp). inversion Hj'; subst; try discriminate. eexists; split; [eassumption|].
        eexists; split; eassumption.
    + intros j cs' H1 H2. apply IH2; [lia|exact H2|]. apply kspec_mono with i; assumption.
  - (* RAlt *)
    destruct f as [|f]; [simpl in Hf; lia|]. cbn [mt]. simpl in Hf.
    eapply mspec_iff; [|apply mspec_orelse; [apply IH1|apply IH2]; (lia || exact Hi || exact Hk)].
    split.
    + intros [(j & Hj & Hp)|(j & Hj & Hp)]; exists j; split; try exact Hp.
      * apply sem_altl; exact Hj.
      * apply sem_altr; exact Hj.
    + intros (j & Hj & Hp). inversion Hj; subst; try discriminate; [left|right]; exists j; split; assumption.
  - (* RRep *)
    assert (REP : forall N mn mx i cs k P f,
               mn + (String.length inp - i) <= N -> S (N + need (String.length inp) r) <= f ->
               i <= String.length inp -> kspec k P i ->
               mspec (mt f icase inp (RRep r mn mx g) i cs k)
                     (exists j, sem icase inp (RRep r mn mx g) i j /\ P j)).
    { clear f i cs k P Hf Hi Hk mn0 mx0.
      induction N as [N IHN] using lt_wf_ind.
      intros mn mx i cs k P f HN Hf Hi Hk.
      destruct f as [|f]; [lia|].
      destruct mn as [|mn].
      - assert (Hd : mx = Some 0 \/ mx <> Some 0)
          by (destruct mx as [[|m]|]; [left; reflexivity|right; congruence|right; congruence]).
        destruct Hd as [->|Hmx].
        + cbn [mt]. apply mspec_iff with (P i); [|apply Hk; lia].
          split; [intros Hp; exists i; split; [apply sem_rep_zero|exact Hp]|].
          intros (j & Hj & Hp). inversion Hj; subst; try discriminate; [exact Hp|congruence].
        + rewrite (mt_rep_more _ _ _ _ _ _ _ Hmx). cbv zeta.
          eapply mspec_iff; [symmetry; apply (rep0_iff _ _ g i P Hmx)|].
          assert (Hmore : mspec (mt f icase inp r i cs
                     (fun j cs' => if j =? i then NoMatch
                        else mt f icase inp (RRep r 0 (option_map pred mx) g) j cs' k))
                   (exists j, sem icase inp r i j
                      /\ (i <> j /\ exists j', sem icase inp (RRep r 0 (option_map pred mx) g) j j' /\ P j'))).
          { apply IH; [lia|exact Hi|]. intros j cs' H1 H2.
            destruct (Nat.eqb_spec j i) as [->|Hne].
            - simpl. intros [H _]; apply H; reflexivity.
            - eapply mspec_iff; [|apply (IHN (N - 1)) with (i := j); [lia|lia|lia|exact H2|]].
              + split; [intros Hq; split; [lia|exact Hq]|intros [_ Hq]; exact Hq].
              + apply kspec_mono with i; [lia|exact Hk]. }
          destruct g.
          * eapply mspec_iff; [|apply mspec_orelse; [exact Hmore|apply Hk; lia]]. tauto.
          * apply mspec_orelse; [apply Hk; lia|exact Hmore].
      - cbn [mt].
        eapply mspec_iff;
          [|apply IH with (P := fun j => exists j', sem icase inp (RRep r mn (option_map pred mx) g) j j' /\ P j');
            [lia|exact Hi|]].
        + split.
          * intros (j & Hj & j' & Hj' & Hp). exists j'; split; [eapply sem_rep_once; eassumption|exact Hp].
          * intros (j' & Hj' & Hp). inversion Hj'; subst; try discriminate. eexists; split; [eassumption|].
            eexists; split; eassumption.
        + intros j cs' H1 H2. apply (IHN (N - 1)); [lia|lia|lia|exact H2|].
          apply kspec_mono with i; assumption. }
    apply REP with (N := mn0 + (String.length inp - i)); [lia| |exact Hi|exact Hk].
    simpl in Hf. lia.
Qed.

End Adequacy.

(** [pattern.match(name)] succeeds exactly when [sem] has a match from the
    start. *)
Lemma matches_sem (r : re) (name : string) :
  DirectoryManager.matches r name = true <-> exists j, sem true name r 0 j.
Proof.
  unfold DirectoryManager.matches, rmatch, match_fuel.
  pose proof (mt_adequate true name r (need (String.length name) r) 0 [] (fun _ cs => Matched cs)
                (fun _ => True) (le_n _) (le_0_n _)) as H.
  destruct (mt _ _ _ _ _ _ _) eqn:E; simpl in H.
  - split; [intros _|reflexivity].
    destruct H as (j & Hj & _); [intros j cs _ _; exact I|]. exists j; exact Hj.
  - split; [discriminate|]. intros (j & Hj). exfalso; apply H; [intros j' cs _ _; exact I|].
    exists j; split; [exact Hj|exact I].
  - exfalso; apply H. intros j cs _ _; exact I.
Qed.

End RegexFacts.

(* ------------------------------------------------------------------ *)
(** ** The pattern of [find_existing_ticket_dir] as [compile] reads it *)

Module PatternFacts.
Import Py Regex RegexParser StringFacts.

(** The literal characters of [s] in front of [R]. *)
Fixpoint lits (s : string) (R : re) : re :=
  match s with
  | EmptyString => R
  | String c s' => RCat (RChar c) (lits s' R)
  end.

Definition dash_set : re := RSet false [CIChar "-"; CIChar "_"].

(** The end of the pattern: an optional group of a separator and any
    characters but a newline, then the end. *)
Definition tail_re : re :=
  RCat (RRep (RGroup 1 (RCat dash_set (RCat (RRep RAny 0 None true) REps))) 0 (Some 1) true)
       (RCat REol REps).

Definition ticket_re (prefix number : string) : re :=
  RCat RBol (lits prefix (RCat dash_set (lits number tail_re))).

Lemma not_special (c d : ascii) :
  mem_char c special_chars = false -> mem_char d special_chars = true -> ascii_eqb c d = false.
Proof.
  intros Hc Hd. destruct (ascii_eqb c d) eqn:E; [|reflexivity].
  apply ascii_eqb_true in E; subst; congruence.
Qed.

Lemma escape_special (c : ascii) :
  mem_char c special_chars = true -> escape_code false c = ELit c.
Proof.
  intros H. apply mem_char_spec in H as [i H].
  do 24 (destruct i as [|i]; [injection H as <-; reflexivity|]). discriminate.
Qed.

Lemma atom_special (N : nat) (c : ascii) (rest : string) (g : nat) :
  mem_char c special_chars = true ->
  p_atom (S N) (String "\" (String c rest)) g = POk (RChar c) rest g.
Proof. intros H. cbn [p_atom]. simpl. rewrite (escape_special c H). reflexivity. Qed.

Local Ltac plain H d := rewrite (not_special _ d H eq_refl).

Lemma atom_plain (N : nat) (c : ascii) (rest : string) (g : nat) :
  mem_char c special_chars = false ->
  p_atom (S N) (String c rest) g = POk (RChar c) rest g.
Proof.
  intros H. cbn [p_atom].
  plain H "("%char. plain H "["%char. plain H "."%char. plain H "^"%char. plain H "$"%char.
  plain H "\"%char. simpl mem_char. plain H "*"%char. plain H "+"%char. plain H "?"%char.
  plain H "{"%char. reflexivity.
Qed.

Lemma quant_plain (c : ascii) (rest : string) :
  mem_char c special_chars = false -> quant (String c rest) = QNone.
Proof.
  intros H. unfold quant. plain H "*"%char. plain H "+"%char. plain H "?"%char.
  plain H "{"%char. reflexivity.
Qed.

Lemma quant_escape (s t : string) : quant t = QNone -> quant (escape s ++ t) = QNone.
Proof.
  intros Ht. destruct s as [|c s]; [exact Ht|]. cbn [escape].
  destruct (mem_char c special_chars) eqn:E; [reflexivity|]. apply quant_plain; exact E.
Qed.

Lemma p_cat_step (n : nat) (c : ascii) (rest : string) (g : nat) :
  ascii_eqb c "|" || ascii_eqb c ")" = false ->
  p_cat (S n) (String c rest) g
  = match p_piece n (String c rest) g with
    | POk r1 s1 g1 =>
        match p_cat n s1 g1 with POk r2 s2 g2 => POk (RCat r1 r2) s2 g2 | e => e end
    | e => e
    end.
Proof. intros H. cbn [p_cat]. rewrite H. reflexivity. Qed.

Lemma p_piece_lit (n : nat) (s rest : string) (a : re) (g : nat) :
  p_atom n s g = POk a rest g -> quant rest = QNone -> p_piece (S n) s g = POk a rest g.
Proof. intros H Hq. cbn [p_piece]. rewrite H, Hq. reflexivity. Qed.

Lemma p_cat_escape (s t : string) (m g : nat) :
  2 <= m -> quant t = QNone ->
  p_cat (String.length s + m) (escape s ++ t) g
  = match p_cat m t g with POk R t' g' => POk (lits s R) t' g' | e => e end.
Proof.
  intros Hm Ht. induction s as [|c s IH].
  - simpl. destruct (p_cat m t g); reflexivity.
  - assert (HN : exists N, String.length s + m = S (S N)) by (exists (String.length s + m - 2); lia).
    destruct HN as [N HN].
    change (String.length (String c s) + m) with (S (String.length s + m)). rewrite HN.
    pose proof (quant_escape s t Ht) as Hq.
    cbn [escape]. destruct (mem_char c special_chars) eqn:E; cbn [append].
    + rewrite p_cat_step by reflexivity.
      rewrite (p_piece_lit _ _ _ _ _ (atom_special _ _ _ _ E) Hq).
      rewrite <- HN, IH. destruct (p_cat m t g); reflexivity.
    + rewrite p_cat_step by (plain E "|"%char; plain E ")"%char; reflexivity).
      rewrite (p_piece_lit _ _ _ _ _ (atom_plain _ _ _ _ E) Hq).
      rewrite <- HN, IH. destruct (p_cat m t g); reflexivity.
Qed.

Lemma atom_set (N : nat) (rest : string) (g : nat) :
  p_atom (S N) (String "[" (String "-" (String "_" (String "]" rest)))) g = POk dash_set rest g.
Proof. reflexivity. Qed.

Lemma tail_parse (M : nat) : p_cat (20 + M) "([-_].*)?$" 0 = POk tail_re "" 1.
Proof. reflexivity. Qed.

Lemma length_escape (s : string) : String.length s <= String.length (escape s).
Proof.
  induction s as [|c s IH]; [simpl; lia|]. cbn [escape].
  destruct (mem_char c special_chars); simpl; lia.
Qed.

Lemma p_alt_step (n : nat) (s : string) (g : nat) :
  p_alt (S n) s g
  = match p_cat n s g with
    | POk r1 s1 g1 =>
        match s1 with
        | String c s2 =>
            if ascii_eqb c "|" then
              match p_alt n s2 g1 with POk r2 s3 g2 => POk (RAlt r1 r2) s3 g2 | e => e end
            else POk r1 s1 g1
        | EmptyString => POk r1 s1 g1
        end
    | e => e
    end.
Proof. reflexivity. Qed.

Lemma compile_ticket (prefix number : string) :
  compile (DirectoryManager.ticket_dir_pattern prefix number) = Compiled (ticket_re prefix number) 1.
Proof.
  unfold compile, DirectoryManager.ticket_dir_pattern.
  set (tl := "([-_].*)?$").
  pose proof (length_escape prefix) as Ep. pose proof (length_escape number) as En.
  assert (HK : exists M, 4 * String.length ("^" ++ escape prefix ++ "[-_]" ++ escape number ++ tl) + 8
    = S (S (S (S (String.length prefix + S (S (S (String.length number + (20 + M))))))))).
  { rewrite !NormalizeProps.length_app.
    exists (4 * (1 + String.length (escape prefix) + 4 + String.length (escape number) + 10) + 8
            - (String.length prefix + String.length number + 27)).
    unfold tl. simpl String.length. lia. }
  destruct HK as [M ->].
  assert (Hq2 : quant (escape number ++ tl) = QNone) by (apply quant_escape; reflexivity).
  assert (Hq1 : quant (escape prefix ++ "[-_]" ++ escape number ++ tl) = QNone)
    by (apply quant_escape; reflexivity).
  assert (C2 : p_cat (S (S (S (S (S (String.length number + (20 + M)))))))
                 ("[-_]" ++ escape number ++ tl) 0
               = POk (RCat dash_set (lits number tail_re)) "" 1).
  { cbn [append]. rewrite p_cat_step by reflexivity.
    rewrite (p_piece_lit _ _ _ _ _ (atom_set _ _ _) Hq2).
    replace (S (S (S (S (String.length number + (20 + M))))))
      with (String.length number + S (S (S (S (20 + M))))) by lia.
    rewrite p_cat_escape by (lia || exact (eq_refl : quant tl = QNone)).
    replace (S (S (S (S (20 + M))))) with (20 + S (S (S (S M)))) by lia.
    rewrite tail_parse. reflexivity. }
  rewrite p_alt_step.
  change ("^" ++ escape prefix ++ "[-_]" ++ escape number ++ tl)
    with (String "^" (escape prefix ++ "[-_]" ++ escape number ++ tl)).
  rewrite p_cat_step by reflexivity.
  rewrite (p_piece_lit _ _ _ _ _
             (eq_refl : p_atom (S _) (String "^" (escape prefix ++ "[-_]" ++ escape number ++ tl)) 0
                        = POk RBol _ 0) Hq1).
  replace (S (S (String.length prefix + S (S (S (String.length number + (20 + M)))))))
    with (String.length prefix + S (S (S (S (S (String.length number + (20 + M)))))))
    by lia.
  rewrite p_cat_escape by (lia || exact (eq_refl : quant ("[-_]" ++ escape number ++ tl) = QNone)).
  rewrite C2. reflexivity.
Qed.

End PatternFacts.

(* ------------------------------------------------------------------ *)
(** ** The names the pattern matches *)

Module TicketSem.
Import Py Regex Spec StringFacts PatternFacts.

Lemma get_app_len (x y : string) : String.get (String.length x) (x ++ y) = String.get 0 y.
Proof. induction x as [|c x IH]; simpl; [reflexivity|exact IH]. Qed.

Lemma app_snoc (x : string) (c : ascii) (y : string) : x ++ String c y = (x ++ String c "") ++ y.
Proof. induction x as [|d x IH]; simpl; [reflexivity|congruence]. Qed.

Lemma app_assoc_str (x y z : string) : (x ++ y) ++ z = x ++ (y ++ z).
Proof. induction x as [|c x IH]; simpl; congruence. Qed.

Lemma length_snoc (x : string) (c : ascii) : String.length (x ++ String c "") = S (String.length x).
Proof. rewrite NormalizeProps.length_app; simpl; lia. Qed.

Lemma length_lower (s : string) : String.length (lower s) = String.length s.
Proof. unfold lower. apply length_map_chars. Qed.

Lemma sem_single_inv (icase : bool) (inp : string) (r : re) (i j : nat) :
  single r = true -> sem icase inp r i j ->
  j = S i /\ exists c, String.get i inp = Some c /\ char_ok icase r c = true.
Proof. intros Hs H; inversion H; subst; try discriminate; eauto. Qed.

Lemma sem_cat_iff (icase : bool) (inp : string) (r1 r2 : re) (i j : nat) :
  sem icase inp (RCat r1 r2) i j <-> exists m, sem icase inp r1 i m /\ sem icase inp r2 m j.
Proof.
  split; [intros H; inversion H; subst; try discriminate; eauto|].
  intros (m & H1 & H2); eapply sem_cat; eassumption.
Qed.

Lemma dash_ok (c : ascii) : char_ok true dash_set c = true <-> is_sep c.
Proof.
  unfold is_sep. split.
  - destruct c as [[] [] [] [] [] [] [] []]; vm_compute; intros H;
      first [discriminate H | left; reflexivity | right; reflexivity].
  - intros [-> | ->]; reflexivity.
Qed.

Lemma sem_group_inv (icase : bool) (inp : string) (n : nat) (r : re) (i j : nat) :
  sem icase inp (RGroup n r) i j -> sem icase inp r i j.
Proof. intros H; inversion H; subst; try discriminate; assumption. Qed.

Lemma sem_eps_inv (icase : bool) (inp : string) (i j : nat) : sem icase inp REps i j -> j = i.
Proof. intros H; inversion H; subst; try discriminate; reflexivity. Qed.

Lemma sem_eol_inv (icase : bool) (inp : string) (i j : nat) :
  sem icase inp REol i j -> j = i /\ eol_at inp i = true.
Proof. intros H; inversion H; subst; try discriminate; split; [reflexivity|assumption]. Qed.

Lemma sem_rep0_inv (icase : bool) (inp : string) (r : re) (mx : option nat) (g : bool) (i j : nat) :
  sem icase inp (RRep r 0 mx g) i j ->
  j = i \/ (mx <> Some 0 /\ exists m, i <> m /\ sem icase inp r i m
                                      /\ sem icase inp (RRep r 0 (option_map pred mx) g) m j).
Proof. intros H; inversion H; subst; try discriminate; [left; reflexivity|right; eauto 7]. Qed.

Section OnName.
Variable name : string.

Lemma sem_lits (s : string) (R : re) : forall x y j, name = x ++ y ->
  (sem true name (lits s R) (String.length x) j
   <-> exists a y', y = a ++ y' /\ lower a = lower s
                    /\ sem true name R (String.length x + String.length s) j).
Proof.
  induction s as [|c s IH]; intros x y j Hn; simpl lits.
  - rewrite Nat.add_0_r. split.
    + intros H. exists "", y. split; [reflexivity|split; [reflexivity|exact H]].
    + intros (a & y' & -> & Ha & H). exact H.
  - rewrite sem_cat_iff. split.
    + intros (m & H1 & H2). apply sem_single_inv in H1 as [-> (d & Hd & Hc)]; [|reflexivity].
      rewrite Hn, get_app_len in Hd. destruct y as [|d' y1]; [discriminate|].
      injection Hd as ->.
      rewrite <- (length_snoc x d) in H2. rewrite (app_snoc x d y1) in Hn.
      apply (IH _ _ _ Hn) in H2 as (a & y' & -> & Ha & H2).
      exists (String d a), y'. split; [reflexivity|]. split.
      * unfold lower in Ha |- *. simpl map_chars. rewrite Ha. apply ascii_eqb_true in Hc. rewrite Hc. reflexivity.
      * rewrite length_snoc in H2. simpl String.length. rewrite <- Nat.add_succ_comm. exact H2.
    + intros (a & y' & -> & Ha & H). destruct a as [|d a]; [discriminate Ha|].
      simpl in Ha. injection Ha as Hd Ha.
      exists (S (String.length x)). split.
      * eapply sem_single; [reflexivity| |].
        -- rewrite Hn, get_app_len. reflexivity.
        -- simpl. rewrite Hd. apply ascii_eqb_refl.
      * simpl in Hn. rewrite (app_snoc x d (a ++ y')) in Hn. rewrite <- (length_snoc x d).
        apply (IH _ _ _ Hn). exists a, y'. split; [reflexivity|]. split; [exact Ha|].
        rewrite length_snoc. simpl String.length in H. rewrite <- Nat.add_succ_comm in H. exact H.
Qed.

Lemma sem_dash (R : re) (x y : string) (j : nat) : name = x ++ y ->
  (sem true name (RCat dash_set R) (String.length x) j
   <-> exists c y1, y = String c y1 /\ is_sep c /\ sem true name R (S (String.length x)) j).
Proof.
  intros Hn. rewrite sem_cat_iff. split.
  - intros (m & H1 & H2). destruct (sem_single_inv _ _ dash_set _ _ eq_refl H1) as [-> (d & Hd & Hc)].
    rewrite Hn, get_app_len in Hd. destruct y as [|d' y1]; [discriminate|]. injection Hd as ->.
    exists d, y1. split; [reflexivity|]. split; [apply dash_ok; exact Hc|exact H2].
  - intros (c & y1 & -> & Hc & H). exists (S (String.length x)). split; [|exact H].
    eapply sem_single; [reflexivity| |apply dash_ok; exact Hc].
    rewrite Hn, get_app_len. reflexivity.
Qed.

Lemma no_newline_cons (c : ascii) (u : string) :
  no_newline (String c u) <-> c <> "010"%char /\ no_newline u.
Proof. unfold no_newline. simpl. tauto. Qed.

Lemma star_fwd (r : re) (i m : nat) : sem true name r i m ->
  r = RRep RAny 0 None true -> forall x y, name = x ++ y -> i = String.length x ->
  exists u y', y = u ++ y' /\ no_newline u /\ m = String.length x + String.length u.
Proof.
  induction 1; intros Er x y Hn Ei; try discriminate Er; try (subst; discriminate).
  - exists "", y. split; [reflexivity|]. split; [intros []|]. simpl; lia.
  - injection Er as -> -> ->. subst i.
    destruct (sem_single_inv _ _ RAny _ _ eq_refl H1) as [-> (c & Hc & Ho)].
    rewrite Hn, get_app_len in Hc. destruct y as [|c' y1]; [discriminate|]. injection Hc as ->.
    rewrite (app_snoc x c y1) in Hn.
    destruct (IHsem2 eq_refl _ _ Hn (eq_sym (length_snoc x c))) as (u & y' & -> & Hu & ->).
    exists (String c u), y'. split; [reflexivity|]. split.
    + apply no_newline_cons. split; [|exact Hu]. intros E; subst c. discriminate Ho.
    + rewrite length_snoc. simpl. lia.
Qed.

Lemma sem_star (x y : string) (m : nat) : name = x ++ y ->
  (sem true name (RRep RAny 0 None true) (String.length x) m
   <-> exists u y', y = u ++ y' /\ no_newline u /\ m = String.length x + String.length u).
Proof.
  intros Hn. split; [intros H; exact (star_fwd _ _ _ H eq_refl _ _ Hn eq_refl)|].
  intros (u & y' & -> & Hu & ->). revert x Hn. induction u as [|c u IH]; intros x Hn.
  - rewrite Nat.add_0_r. apply sem_rep_zero.
  - apply no_newline_cons in Hu as [Hc Hu].
    apply sem_rep_more with (j := S (String.length x)); [discriminate|lia| |].
    + eapply sem_single; [reflexivity| |].
      * rewrite Hn, get_app_len. reflexivity.
      * simpl. destruct (ascii_eqb c "010") eqn:E; [|reflexivity].
        apply ascii_eqb_true in E. contradiction.
    + simpl in Hn. rewrite (app_snoc x c (u ++ y')) in Hn.
      replace (String.length x + String.length (String c u))
        with (String.length (x ++ String c "") + String.length u)
        by (rewrite length_snoc; simpl; lia).
      rewrite <- (length_snoc x c). exact (IH Hu _ Hn).
Qed.

Lemma eol_app (x y : string) : name = x ++ y ->
  eol_at name (String.length x) = true <-> y = "" \/ y = String "010" "".
Proof.
  intros Hn. unfold eol_at. rewrite Hn, get_app_len, NormalizeProps.length_app.
  destruct y as [|c y1].
  - simpl. rewrite Nat.add_0_r, Nat.eqb_refl. split; [left; reflexivity|reflexivity].
  - simpl String.length. simpl String.get.
    rewrite Bool.orb_true_iff, Bool.andb_true_iff, !Nat.eqb_eq, ascii_eqb_true. split.
    + intros [H|[H ->]]; [lia|]. destruct y1; [right; reflexivity|simpl in H; lia].
    + intros [H|H]; [discriminate|]. injection H as -> ->. right. simpl. split; [lia|reflexivity].
Qed.

Lemma sem_tail (x y : string) : name = x ++ y ->
  (exists j, sem true name tail_re (String.length x) j)
  <-> exists rest nl, y = rest ++ nl
        /\ (rest = "" \/ exists sep u, rest = String sep u /\ is_sep sep /\ no_newline u)
        /\ (nl = "" \/ nl = String "010" "").
Proof.
  intros Hn. unfold tail_re. split.
  - intros (j & H). apply sem_cat_iff in H as (m & H1 & H2).
    apply sem_cat_iff in H2 as (m' & He & _). apply sem_eol_inv in He as [_ Hm].
    apply sem_rep0_inv in H1 as [-> | (_ & j0 & Hne & HG & Hr)].
    + exists "", y. split; [reflexivity|]. split; [left; reflexivity|].
      apply (eol_app x y Hn); exact Hm.
    + apply sem_rep0_inv in Hr as [-> | ([] & _)]; [|reflexivity].
      apply sem_group_inv in HG.
      apply (sem_dash _ x y _ Hn) in HG as (c & y1 & -> & Hc & H4).
      apply sem_cat_iff in H4 as (m2 & Hs & Hz). apply sem_eps_inv in Hz as ->.
      rewrite (app_snoc x c y1) in Hn. rewrite <- (length_snoc x c) in Hs.
      apply (sem_star _ _ _ Hn) in Hs as (u & y' & -> & Hu & ->).
      rewrite <- NormalizeProps.length_app in Hm. rewrite <- app_assoc_str in Hn.
      apply (eol_app _ _ Hn) in Hm.
      exists (String c u), y'. split; [reflexivity|]. split; [|exact Hm].
      right; exists c, u; split; [reflexivity|split; assumption].
  - intros (rest & nl & -> & Hr & Hnl). destruct Hr as [-> | (c & u & -> & Hc & Hu)].
    + exists (String.length x). apply sem_cat with (String.length x); [apply sem_rep_zero|].
      apply sem_cat with (String.length x); [|apply sem_eps].
      apply sem_eol. apply (eol_app x nl Hn); exact Hnl.
    + set (x' := x ++ String c "").
      assert (Hn' : name = (x' ++ u) ++ nl)
        by (rewrite Hn; unfold x'; rewrite !app_assoc_str; reflexivity).
      exists (String.length (x' ++ u)).
      apply sem_cat with (String.length (x' ++ u)).
      * apply sem_rep_more with (j := String.length (x' ++ u)); [discriminate| | |].
        -- unfold x'. rewrite !NormalizeProps.length_app. simpl. lia.
        -- apply sem_group. apply (sem_dash _ x _ _ Hn). exists c, (u ++ nl).
           split; [reflexivity|]. split; [exact Hc|].
           apply sem_cat with (String.length (x' ++ u)); [|apply sem_eps].
           rewrite <- (length_snoc x c). fold x'.
           assert (Hx : name = x' ++ (u ++ nl)) by (rewrite Hn'; apply app_assoc_str).
           apply (sem_star _ _ _ Hx). exists u, nl. split; [reflexivity|]. split; [exact Hu|].
           apply NormalizeProps.length_app.
        -- apply sem_rep_zero.
      * apply sem_cat with (String.length (x' ++ u)); [|apply sem_eps].
        apply sem_eol. apply (eol_app _ _ Hn'); exact Hnl.
Qed.

Lemma lower_length (a p : string) : lower a = lower p -> String.length a = String.length p.
Proof. intros H. rewrite <- (length_lower a), <- (length_lower p), H. reflexivity. Qed.

(** The names the compiled pattern matches from the start. *)
Lemma ticket_sem (prefix number : string) :
  (exists j, sem true name (ticket_re prefix number) 0 j) <-> ticket_name_ok prefix number name.
Proof.
  unfold ticket_re, ticket_name_ok. assert (H0 : name = "" ++ name) by reflexivity.
  split.
  - intros (j & H). apply sem_cat_iff in H as (m & Hb & H).
    assert (m = 0) as -> by (inversion Hb; subst; try discriminate; reflexivity).
    change 0 with (String.length "") in H.
    apply (sem_lits _ _ _ _ _ H0) in H as (a & y1 & Hy & Ha & H).
    rewrite <- (lower_length _ _ Ha) in H. simpl in H.
    apply (sem_dash _ _ _ _ Hy) in H as (c & y2 & -> & Hc & H).
    rewrite (app_snoc a c y2) in Hy. rewrite <- (length_snoc a c) in H.
    apply (sem_lits _ _ _ _ _ Hy) in H as (b & y3 & -> & Hb' & H).
    rewrite <- (lower_length _ _ Hb'), <- NormalizeProps.length_app in H.
    rewrite <- app_assoc_str in Hy.
    destruct (proj1 (sem_tail _ _ Hy) (ex_intro _ j H)) as (rest & nl & -> & Hr & Hnl).
    exists a, c, b, rest, nl. split.
    + rewrite Hy, !app_assoc_str. reflexivity.
    + repeat split; assumption.
  - intros (a & c & b & rest & nl & Hn & Ha & Hc & Hb & Hr & Hnl).
    set (x2 := a ++ String c "").
    assert (Hn2 : name = (x2 ++ b) ++ (rest ++ nl))
      by (rewrite Hn; unfold x2; rewrite !app_assoc_str; reflexivity).
    destruct (proj2 (sem_tail _ _ Hn2) (ex_intro _ rest (ex_intro _ nl (conj eq_refl (conj Hr Hnl)))))
      as (j & Hj).
    exists j. apply sem_cat with 0; [apply sem_bol|].
    change 0 with (String.length "").
    apply (sem_lits _ _ _ _ _ H0). exists a, (String c (b ++ rest ++ nl)).
    split; [exact Hn|]. split; [exact Ha|].
    rewrite <- (lower_length _ _ Ha). simpl.
    assert (Hn1 : name = a ++ String c (b ++ rest ++ nl)) by exact Hn.
    apply (sem_dash _ _ _ _ Hn1). exists c, (b ++ rest ++ nl). split; [reflexivity|].
    split; [exact Hc|].
    assert (Hx : name = x2 ++ (b ++ (rest ++ nl))) by (rewrite Hn; apply app_snoc).
    rewrite <- (length_snoc a c). fold x2.
    apply (sem_lits _ _ _ _ _ Hx). exists b, (rest ++ nl). split; [reflexivity|]. split; [exact Hb|].
    rewrite <- (lower_length _ _ Hb), <- NormalizeProps.length_app. exact Hj.
Qed.

End OnName.
End TicketSem.

(* ------------------------------------------------------------------ *)
(** ** [DirectoryManager.find_existing_ticket_dir] *)

Module FindProps.
Import Py PathLib Regex RegexParser DirectoryManager Spec DirFacts ListingFacts CreateProps
       RegexFacts PatternFacts TicketSem.

Lemma matches_ticket (prefix number nm : string) :
  matches (ticket_re prefix number) nm = true <-> ticket_name_ok prefix number nm.
Proof. rewrite matches_sem. apply ticket_sem. Qed.

(** The loop returns the first entry that is a directory and whose name
    satisfies [Q]. *)
Lemma first_match_spec (o : os) (f : fs) (r : re) (Q : string -> Prop) (items : list path) :
  (forall nm, matches r nm = true <-> Q nm) ->
  match first_match o f r items with
  | Some d => exists before after, items = app before (d :: after)
              /\ is_dir o f d = true /\ Q (last (p_parts d) "")
              /\ forall e, In e before -> ~ (is_dir o f e = true /\ Q (last (p_parts e) ""))
  | None => forall e, In e items -> ~ (is_dir o f e = true /\ Q (last (p_parts e) ""))
  end.
Proof.
  intros HQ. induction items as [|it items IH]; simpl; [intros e []|].
  destruct (is_dir o f it) eqn:D; destruct (matches r (last (p_parts it) "")) eqn:M; simpl.
  - exists [], items. split; [reflexivity|]. split; [exact D|]. split; [apply HQ; exact M|].
    intros e [].
  - destruct (first_match o f r items) as [d|].
    + destruct IH as (before & after & -> & Hd & Hq & Hb). exists (it :: before), after.
      split; [reflexivity|]. split; [exact Hd|]. split; [exact Hq|].
      intros e [<-|He]; [|exact (Hb e He)]. intros [_ Hq']. apply HQ in Hq'. congruence.
    + intros e [<-|He]; [|exact (IH e He)]. intros [_ Hq']. apply HQ in Hq'. congruence.
  - destruct (first_match o f r items) as [d|].
    + destruct IH as (before & after & -> & Hd & Hq & Hb). exists (it :: before), after.
      split; [reflexivity|]. split; [exact Hd|]. split; [exact Hq|].
      intros e [<-|He]; [|exact (Hb e He)]. intros [Hd' _]. congruence.
    + intros e [<-|He]; [|exact (IH e He)]. intros [Hd' _]. congruence.
  - destruct (first_match o f r items) as [d|].
    + destruct IH as (before & after & -> & Hd & Hq & Hb). exists (it :: before), after.
      split; [reflexivity|]. split; [exact Hd|]. split; [exact Hq|].
      intros e [<-|He]; [|exact (Hb e He)]. intros [Hd' _]. congruence.
    + intros e [<-|He]; [|exact (IH e He)]. intros [Hd' _]. congruence.
Qed.

(** C6: once [get_workspace_base] has returned the root [ws] (and the file
    system [f1] with it in place), [find_existing_ticket_dir] looks only at
    the entries [iterdir] lists, the immediate children [ws / n] of the
    root, in their enumeration order, and returns the first one that is a
    directory and whose name the pattern [^prefix[-_]number] followed by an
    optional separated suffix accepts under [re.IGNORECASE] (prefix and
    number compared literally, without case); it returns [None] when no
    entry qualifies. The file system is left as [get_workspace_base] left
    it. *)
Theorem find_existing_ticket_dir_first (o : os) (st : ConfigManager.cm) (f : fs)
  (prefix number : string) (rid : option string) (ws : path) (f1 : fs) :
  get_workspace_base o st f rid = Ok (ws, f1) ->
  (forall e, In e (iterdir o f1 ws) ->
     exists n k, e = child ws n /\ In (app (abs o ws) [n], k) f1)
  /\ exists found,
       find_existing_ticket_dir o st f prefix number rid = Ok (found, f1)
       /\ match found with
          | Some d =>
              exists before after, iterdir o f1 ws = app before (d :: after)
              /\ is_dir o f1 d = true /\ ticket_name_ok prefix number (last (p_parts d) "")
              /\ forall e, In e before ->
                   ~ (is_dir o f1 e = true /\ ticket_name_ok prefix number (last (p_parts e) ""))
          | None =>
              forall e, In e (iterdir o f1 ws) ->
                ~ (is_dir o f1 e = true /\ ticket_name_ok prefix number (last (p_parts e) ""))
          end.
Proof.
  intros G. split.
  - intros e He. unfold iterdir in He. apply in_map_iff in He as (n & <- & Hn).
    destruct (in_listdir _ _ _ Hn) as (k & Hk). exists n, k. split; [reflexivity|exact Hk].
  - exists (first_match o f1 (ticket_re prefix number) (iterdir o f1 ws)). split.
    + destruct (get_workspace_base_spec _ _ _ _ _ _ G) as (_ & Hk & Hg & _).
      unfold find_existing_ticket_dir. rewrite G. cbv beta iota delta [bind].
      unfold exists_. rewrite Hk. simpl negb. cbv iota. rewrite compile_ticket. reflexivity.
    + apply first_match_spec. intros nm. apply matches_ticket.
Qed.

Lemma find_existing_ticket_dir_first_witness :
  get_workspace_base os0 fresh tickets_fs None = Ok (tickets_root, tickets_fs)
  /\ find_existing_ticket_dir os0 fresh tickets_fs "JIRA" "123" None
     = Ok (Some (child tickets_root "JIRA-123-old-name"), tickets_fs)
  /\ ticket_name_ok "JIRA" "123" "JIRA-123-old-name".
Proof.
  assert (G : get_workspace_base os0 fresh tickets_fs None = Ok (tickets_root, tickets_fs))
    by (vm_compute; reflexivity).
  destruct (find_existing_ticket_dir_first os0 fresh tickets_fs "JIRA" "123" None _ _ G)
    as (_ & found & Hf & Hm).
  assert (Hs : found = Some (child tickets_root "JIRA-123-old-name")).
  { assert (E : find_existing_ticket_dir os0 fresh tickets_fs "JIRA" "123" None
                = Ok (Some (child tickets_root "JIRA-123-old-name"), tickets_fs))
      by (vm_compute; reflexivity).
    rewrite E in Hf. injection Hf as ->. reflexivity. }
  subst found. destruct Hm as (_ & _ & _ & _ & Hok & _).
  split; [exact G|]. split; [exact Hf|exact Hok].
Defined.

End FindProps.

(* ------------------------------------------------------------------ *)
(** ** Writing a clean parser and reading it back *)

Module RoundTripFacts.
Import Py StringFacts ConfigFacts SetFacts.
Module CP := ConfigParser.








Lemma mem_char_append (c : ascii) (a b : string) :
  mem_char c (a ++ b) = mem_char c a || mem_char c b.
Proof. induction a as [|d a IH]; simpl; [reflexivity|]. rewrite IH, Bool.orb_assoc. reflexivity. Qed.





Lemma split_on_app (c : ascii) (a b : string) :
  mem_char c a = false -> split_on c (a ++ String c b) = a :: split_on c b.
Proof.
  induction a as [|d a IH]; simpl; intros H.
  - rewrite ascii_eqb_refl. reflexivity.
  - apply Bool.orb_false_iff in H as [H1 H2]. rewrite H1, IH by exact H2. reflexivity.
Qed.































































































Lemma in_assoc_set {V} (k : string) (v : V) (l : list (string * V)) (x : string * V) :
  In x (assoc_set k v l) -> x = (k, v) \/ In x l.
Proof.
  induction l as [|[k' v'] l IH]; cbn.
  - intros [<-|[]]. left. reflexivity.
  - destruct (String.eqb_spec k k') as [->|_]; cbn.
    + intros [<-|Hin]; [left; reflexivity|right; right; exact Hin].
    + intros [<-|Hin]; [right; left; reflexivity|].
      destruct (IH Hin) as [H|H]; [left; exact H|right; right; exact H].
Qed.







End RoundTripFacts.

(* ------------------------------------------------------------------ *)
(** ** [set] followed by [get], in place and after a fresh load *)

Module RoundTripProps.
Import Py StringFacts ConfigFacts SetFacts RoundTripFacts.
Module CP := ConfigParser.





End RoundTripProps.


Module ListSettingFacts.
Import Py StringFacts SanitizeFacts RoundTripFacts.

Lemma rstrip_by_idem (p : ascii -> bool) (s : string) :
  rstrip_by p (rstrip_by p s) = rstrip_by p s.
Proof.
  induction s as [|c s IH]; [reflexivity|]. cbn [rstrip_by].
  destruct (rstrip_by p s) as [|d r] eqn:E.
  - destruct (p c) eqn:Pc; [reflexivity|]. cbn. rewrite Pc. reflexivity.
  - replace (rstrip_by p (String c (String d r)))
      with (match rstrip_by p (String d r) with
            | EmptyString => if p c then EmptyString else String c EmptyString
            | r' => String c r' end) by reflexivity.
    rewrite IH. reflexivity.
Qed.

Lemma strip_by_idem (p : ascii -> bool) (s : string) :
  strip_by p (strip_by p s) = strip_by p s.
Proof.
  unfold strip_by. destruct (lstrip_by p s) as [|c t] eqn:E; [reflexivity|].
  pose proof (lstrip_head p s t c E) as Hc.
  destruct (rstrip_by p (String c t)) as [|d u] eqn:F; [reflexivity|].
  pose proof (rstrip_head p c t u d F) as ->.
  rewrite lstrip_by_keep by exact Hc. rewrite <- F. apply rstrip_by_idem.
Qed.

Lemma split_on_no_sep (c : ascii) (s w : string) :
  In w (split_on c s) -> mem_char c w = false.
Proof.
  revert w; induction s as [|d s IH]; cbn [split_on]; intros w Hin.
  - destruct Hin as [<-|[]]; reflexivity.
  - destruct (ascii_eqb c d) eqn:E.
    + destruct Hin as [<-|Hin]; [reflexivity|exact (IH w Hin)].
    + destruct (split_on c s) as [|w0 ws] eqn:Es.
      * destruct Hin as [<-|[]]. cbn. rewrite E. reflexivity.
      * destruct Hin as [<-|Hin].
        -- cbn [mem_char]. rewrite E. apply IH. left; reflexivity.
        -- apply IH. right; exact Hin.
Qed.

(** An item of a comma-separated setting as [get_list] returns it. *)
Definition list_item (x : string) : Prop :=
  x <> "" /\ strip x = x /\ mem_char "," x = false.

Lemma items_shape (v : string) :
  Forall list_item
    (map strip (filter (fun item => negb (String.eqb (strip item) "")) (split_on "," v))).
Proof.
  apply Forall_forall. intros x Hx. apply in_map_iff in Hx as (item & <- & Hin).
  apply filter_In in Hin as [Hin Hne]. apply Bool.negb_true_iff, String.eqb_neq in Hne.
  split; [exact Hne|]. split; [unfold strip; apply strip_by_idem|].
  apply Bool.not_true_iff_false. intros H. unfold strip, strip_by in H.
  apply mem_rstrip, mem_lstrip in H. rewrite (split_on_no_sep _ _ _ Hin) in H. discriminate.
Qed.

Lemma items_blank (v : string) :
  forallb (fun item => String.eqb (strip item) "") (split_on "," v) = true ->
  map strip (filter (fun item => negb (String.eqb (strip item) "")) (split_on "," v)) = [].
Proof.
  induction (split_on "," v) as [|w ws IH]; cbn; [reflexivity|].
  intros [-> H]%Bool.andb_true_iff. exact (IH H).
Qed.

Lemma strip_space (y : string) : strip (String " " y) = strip y.
Proof. reflexivity. Qed.

Lemma split_join (l : list string) (x : string) :
  mem_char "," x = false -> Forall (fun y => mem_char "," y = false) l ->
  split_on "," (join ", " (x :: l)) = x :: map (fun y => String " " y) l.
Proof.
  revert x. induction l as [|y l IH]; intros x Hx Hl.
  - cbn [join map]. apply split_on_no. exact Hx.
  - inversion Hl as [|? ? Hy Hl']; subst.
    change (join ", " (x :: y :: l)) with (x ++ String "," (String " " (join ", " (y :: l)))).
    rewrite split_on_app by exact Hx. f_equal.
    cbn [split_on]. change (ascii_eqb "," " ") with false. rewrite (IH y Hy Hl'). reflexivity.
Qed.

Lemma items_join (l : list string) :
  l <> [] -> Forall list_item l ->
  map strip (filter (fun item => negb (String.eqb (strip item) "")) (split_on "," (join ", " l))) = l.
Proof.
  destruct l as [|x l]; [contradiction|]. intros _ Hl.
  inversion Hl as [|? ? (Hx1 & Hx2 & Hx3) Hl']; subst.
  rewrite split_join; [|exact Hx3|].
  - cbn [filter map]. rewrite Hx2. apply String.eqb_neq in Hx1. rewrite Hx1. cbn [negb map].
    rewrite Hx2. f_equal. clear Hl Hx1 Hx2 Hx3.
    induction l as [|y l IH]; [reflexivity|].
    inversion Hl' as [|? ? (Hy1 & Hy2 & _) Hl'']; subst.
    cbn [map filter]. rewrite strip_space, Hy2. apply String.eqb_neq in Hy1. rewrite Hy1.
    cbn [negb map]. rewrite strip_space, Hy2, (IH Hl''). reflexivity.
  - eapply Forall_impl; [|exact Hl']. intros y (_ & _ & H). exact H.
Qed.

Lemma join_nonempty (l : list string) :
  l <> [] -> Forall list_item l -> String.eqb (join ", " l) "" = false.
Proof.
  destruct l as [|x l]; [contradiction|]. intros _ Hl.
  inversion Hl as [|? ? (Hx1 & _) _]; subst. destruct x as [|c x]; [contradiction|].
  destruct l; reflexivity.
Qed.

End ListSettingFacts.

Module ListSettingProps.
Import Py ConfigManager ListSettingFacts.

(** [get_list] on the value [get] finds: an empty (or missing) value gives
    the fallback, or [[]] without one; otherwise each returned item is
    non-empty, has no surrounding whitespace and holds no comma, and a value
    made only of commas and blanks gives [[]], not the fallback. *)
Theorem get_list_items (st : cm) (section key : string) (fallback : option (list string))
  (repo_id : option string) (v : string) :
  get st section key None (match repo_id with Some r => Some r | None => repo_id0 st end) = Ok v ->
  (v = "" -> ConfigManagerExt.get_list st section key fallback repo_id
             = Ok (match fallback with Some l => l | None => [] end))
  /\ (v <> "" ->
      exists l, ConfigManagerExt.get_list st section key fallback repo_id = Ok l
        /\ Forall list_item l
        /\ (forallb (fun item => String.eqb (strip item) "") (split_on "," v) = true -> l = [])).
Proof.
  intros H. unfold ConfigManagerExt.get_list. rewrite H. cbn [bind]. split.
  - intros ->. reflexivity.
  - intros Hv. apply String.eqb_neq in Hv. rewrite Hv. cbn [negb].
    eexists. split; [reflexivity|]. split; [apply items_shape|apply items_blank].
Qed.

Lemma get_list_items_witness :
  ConfigManagerExt.get_list Spec.fresh "branches" "standard_branches" None None
  = Ok ["main"; "master"; "develop"; "stage"; "production"].
Proof.
  assert (H : get Spec.fresh "branches" "standard_branches" None
                (match (None : option string) with Some r => Some r | None => repo_id0 Spec.fresh end)
              = Ok "main, master, develop, stage, production") by (vm_compute; reflexivity).
  destruct (proj2 (get_list_items Spec.fresh "branches" "standard_branches" None None _ H)
              ltac:(discriminate)) as (l & Hl & _).
  rewrite Hl. vm_compute in Hl. exact (eq_sym Hl).
Defined.

(** A list written as [", ".join(items)], with items that are non-empty,
    stripped and comma-free, is read back by [get_list] as the same list. *)
Theorem get_list_join (st : cm) (section key : string) (fallback : option (list string))
  (repo_id : option string) (l : list string) :
  get st section key None (match repo_id with Some r => Some r | None => repo_id0 st end)
  = Ok (join ", " l) ->
  l <> [] -> Forall list_item l ->
  ConfigManagerExt.get_list st section key fallback repo_id = Ok l.
Proof.
  intros H Hne Hl. unfold ConfigManagerExt.get_list. rewrite H. cbn [bind].
  rewrite join_nonempty by assumption. cbn [negb]. rewrite items_join by assumption. reflexivity.
Qed.

Lemma get_list_join_witness :
  ConfigManagerExt.get_list Spec.fresh "links" "tools_to_link" None None
  = Ok ["notebooks"; "scripts"; "utils"].
Proof.
  apply get_list_join.
  - vm_compute. reflexivity.
  - discriminate.
  - repeat constructor; (discriminate || reflexivity).
Defined.

(** A branch the analyzer treats as standard is never empty, never has
    surrounding whitespace and never holds a comma: such names can never
    be listed in [standard_branches]. *)
Theorem standard_branch_shape (st : cm) (a : BranchAnalyzer.analyzer) (b : string) :
  BranchAnalyzer.init st = Ok a -> BranchAnalyzer.is_standard_branch a b = true ->
  list_item b.
Proof.
  intros Hi Hb. unfold BranchAnalyzer.init in Hi.
  destruct (BranchAnalyzer.get_list st "branches" "standard_branches") as [std|e] eqn:E;
    [|discriminate]. cbn [bind] in Hi.
  assert (Hs : BranchAnalyzer.standard_branches a = std).
  { destruct (get st "ticket_pattern" "prefix_pattern" None None); [|discriminate]. cbn [bind] in Hi.
    destruct (get st "ticket_pattern" "separator" None None); [|discriminate]. cbn [bind] in Hi.
    destruct (get st "ticket_pattern" "number_pattern" None None); [|discriminate]. cbn [bind] in Hi.
    destruct (get st "ticket_pattern" "description_pattern" None None); [|discriminate].
    cbn [bind] in Hi. destruct (RegexParser.compile _); try discriminate; injection Hi as <-; reflexivity. }
  unfold BranchAnalyzer.is_standard_branch in Hb. rewrite Hs in Hb.
  apply existsb_exists in Hb as (x & Hin & Hx). apply String.eqb_eq in Hx. subst x.
  unfold BranchAnalyzer.get_list in E.
  destruct (get st "branches" "standard_branches" None (repo_id0 st)) as [v|]; [|discriminate].
  cbn [bind] in E. destruct (String.eqb v ""); injection E as <-; [destruct Hin|].
  exact (proj1 (Forall_forall _ _) (items_shape v) b Hin).
Qed.

Lemma standard_branch_shape_witness :
  exists a, BranchAnalyzer.init Spec.fresh = Ok a
            /\ BranchAnalyzer.is_standard_branch a "main" = true /\ list_item "main".
Proof.
  assert (H : match BranchAnalyzer.init Spec.fresh with
              | Ok a => BranchAnalyzer.is_standard_branch a "main"
              | Err _ => false end = true) by (vm_compute; reflexivity).
  destruct (BranchAnalyzer.init Spec.fresh) as [a|e] eqn:E; [|discriminate].
  exists a. split; [reflexivity|]. split; [exact H|].
  exact (standard_branch_shape Spec.fresh a "main" E H).
Defined.

End ListSettingProps.

Module RepoSectionFacts.
Import Py ConfigManager StringFacts SanitizeFacts ConfigFacts SetFacts RoundTripFacts.
Module CP := ConfigParser.
Module RCP := RawConfigParser.

Lemma drop_prefix (p r : string) : drop (String.length p) (p ++ r) = r.
Proof.
  induction p as [|c p IH]; [apply drop_0|]. unfold drop in *. exact IH.
Qed.

Lemma prefix_drop (p s : string) :
  String.prefix p s = true -> s = p ++ drop (String.length p) s.
Proof.
  revert s. induction p as [|a p IH]; intros s H; [symmetry; apply drop_0|].
  destruct s as [|b s]; [discriminate|]. cbn [String.prefix] in H.
  destruct (ascii_dec a b) as [<-|]; [|discriminate].
  cbn [append String.length]. f_equal. rewrite (IH s H) at 1. unfold drop. reflexivity.
Qed.

Lemma prefix_app (p r : string) : String.prefix p (p ++ r) = true.
Proof.
  induction p as [|a p IH]; [destruct r; reflexivity|].
  cbn [String.prefix append]. destruct (ascii_dec a a); [exact IH|congruence].
Qed.

Lemma assoc_mem_in {V} (k : string) (l : list (string * V)) :
  assoc_mem k l = true <-> In k (map fst l).
Proof.
  unfold assoc_mem. induction l as [|[k' v'] l IH]; cbn; [split; [discriminate|intros []]|].
  destruct (String.eqb_spec k k') as [->|Hne]; [split; [left; reflexivity|reflexivity]|].
  rewrite IH. split; [right; assumption|]. intros [->|H]; [congruence|exact H].
Qed.

Lemma list_configured_in (st : cm) (r : string) :
  In r (ConfigManagerExt.list_configured_repos st)
  <-> CP.has_section (config st) ("repo:" ++ r) = true.
Proof.
  unfold ConfigManagerExt.list_configured_repos, CP.has_section, CP.sections.
  rewrite assoc_mem_in, in_map_iff. split.
  - intros (s & <- & Hs). apply filter_In in Hs as [Hin Hp].
    rewrite (prefix_drop "repo:" s Hp) in Hin. exact Hin.
  - intros Hin. exists ("repo:" ++ r). split; [exact (drop_prefix "repo:" r)|].
    apply filter_In. split; [exact Hin|apply prefix_app].
Qed.

(** The sections [remove_section] keeps. *)
Definition others (n : string) (S : list (string * list (string * string))) :=
  filter (fun sd => negb (String.eqb (fst sd) n)) S.






(** [ConfigParser]'s merge of DEFAULT under a section, as a fold of
    [assoc_set]. *)
Lemma merge_in (D S : list (string * string)) (kv : string * string) :
  In kv (RCP.merge D S) -> In kv D \/ In kv S.
Proof.
  unfold RCP.merge. revert D. induction S as [|[k v] S IH]; intros D; cbn [fold_left]; [left; exact H|].
  intros Hin. destruct (IH _ Hin) as [H|H].
  - destruct (in_assoc_set k v D kv H) as [->|H']; [right; left; reflexivity|left; exact H'].
  - right; right; exact H.
Qed.

Lemma assoc_merge (D S : list (string * string)) (o : string) :
  NoDup (map fst S) -> assoc o (RCP.merge D S) = assoc o (app S D).
Proof.
  unfold RCP.merge. revert D. induction S as [|[k v] S IH]; intros D HN; cbn [fold_left app]; [reflexivity|].
  inversion HN as [|? ? Hk HN']; subst. rewrite (IH _ HN'). rewrite assoc_app. cbn [assoc].
  destruct (String.eqb_spec o k) as [->|Hne].
  - assert (HS : assoc k S = None).
    { destruct (assoc k S) as [w|] eqn:E; [|reflexivity]. exfalso. apply Hk.
      apply (in_map fst _ (k, w)). exact (assoc_in _ _ _ E). }
    rewrite HS. apply assoc_set_same.
  - rewrite assoc_app. destruct (assoc o S); [reflexivity|]. apply assoc_set_other. exact Hne.
Qed.

Lemma length_assoc_set {V} (k : string) (v : V) (l : list (string * V)) :
  0 < length (assoc_set k v l) /\ length l <= length (assoc_set k v l).
Proof.
  induction l as [|[k' v'] l IH]; cbn; [lia|].
  destruct (String.eqb k k'); cbn; lia.
Qed.

Lemma length_merge (D S : list (string * string)) :
  (0 <? length (RCP.merge D S)) = (0 <? length S + length D).
Proof.
  unfold RCP.merge.
  assert (G : forall D, length D <= length (fold_left (fun d '(k, v) => assoc_set k v d) S D)
                /\ (S <> [] -> 0 < length (fold_left (fun d '(k, v) => assoc_set k v d) S D))).
  { induction S as [|[k v] S IH]; intros D0; cbn [fold_left]; [split; [lia|congruence]|].
    destruct (length_assoc_set k v D0) as [A B]. destruct (IH (assoc_set k v D0)) as [C E].
    split; [lia|]. intros _. lia. }
  destruct (G D) as [A B]. destruct S as [|x S].
  - reflexivity.
  - assert (0 < length (fold_left (fun d '(k, v) => assoc_set k v d) (x :: S) D)) by (apply B; congruence).
    cbn [length]. apply Nat.ltb_lt in H. rewrite H. symmetry. apply Nat.ltb_lt. lia.
Qed.

Lemma map_res_interp (d m : list (string * string)) :
  (forall kv, In kv m -> mem_char "%" (snd kv) = false) ->
  RCP.map_res (fun '(option, value) =>
                 let* v := CP.interp CP.MAX_INTERPOLATION_DEPTH d value in Ok (option, v)) m
  = Ok m.
Proof.
  induction m as [|[k v] m IH]; intros H; [reflexivity|]. cbn [RCP.map_res].
  change CP.MAX_INTERPOLATION_DEPTH with (S 9).
  rewrite interp_no_pct by exact (H (k, v) (or_introl eq_refl)). cbn [bind].
  change (S 9) with CP.MAX_INTERPOLATION_DEPTH.
  rewrite IH by (intros kv Hin; exact (H kv (or_intror Hin))). reflexivity.
Qed.

Lemma items_sect (c : CP.cp) (s : string) (d : list (string * string)) :
  Spec.pct_free c = true -> assoc s (CP.cp_sections c) = Some d ->
  RCP.items c s = Ok (RCP.merge (CP.cp_defaults c) d).
Proof.
  intros Hp Hs. unfold RCP.items. rewrite Hs. cbn [bind]. apply map_res_interp.
  unfold Spec.pct_free in Hp. apply Bool.andb_true_iff in Hp as [HD HS].
  rewrite forallb_forall in HD, HS.
  intros kv Hin. apply Bool.negb_true_iff. destruct (merge_in _ _ _ Hin) as [H|H].
  - exact (HD kv H).
  - apply assoc_in in Hs.
    specialize (HS _ Hs). rewrite forallb_forall in HS. exact (HS kv H).
Qed.

(** A manager whose file configures repository [x] with one override. *)
Definition repo_st : cm :=
  mk_cm (CP.mk_cp [("workspace_base", "~/tickets")]
                  [("repo:x", [("paths.workspace_base", "/w")]); ("repo:y", [])])
        "" None.

End RepoSectionFacts.

Module RepoSectionProps.
Import Py ConfigManager RepoSectionFacts.
Module CP := ConfigParser.

(** A repository id is listed by [list_configured_repos] exactly when the
    parser has the section ["repo:" + id]: stripping the ["repo:"] prefix
    loses nothing, whatever the id holds. *)
Theorem list_configured_repos_iff (st : cm) (r : string) :
  In r (ConfigManagerExt.list_configured_repos st)
  <-> CP.has_section (config st) ("repo:" ++ r) = true.
Proof. apply list_configured_in. Qed.





(** When no value holds a [%], [repo_is_configured] is true exactly when
    ["repo:" + id] exists and its items, DEFAULT's included, are not all
    empty: a repository whose section is empty still counts as configured
    as soon as DEFAULT holds an option. *)
Theorem repo_is_configured_iff (st : cm) (r : string) :
  Spec.pct_free (config st) = true ->
  ConfigManagerExt.repo_is_configured st r
  = Ok (match assoc ("repo:" ++ r) (CP.cp_sections (config st)) with
        | Some d => 0 <? length d + length (CP.cp_defaults (config st))
        | None => false
        end).
Proof.
  intros H. unfold ConfigManagerExt.repo_is_configured, CP.has_section, assoc_mem.
  destruct (assoc ("repo:" ++ r) (CP.cp_sections (config st))) as [d|] eqn:E; [|reflexivity].
  rewrite (items_sect _ _ d H E). cbn [bind]. rewrite length_merge. reflexivity.
Qed.

Lemma repo_is_configured_iff_witness :
  ConfigManagerExt.repo_is_configured repo_st "y" = Ok true.
Proof. rewrite repo_is_configured_iff by (vm_compute; reflexivity). reflexivity. Defined.

(** When no value holds a [%] and the section's options are distinct,
    [get_repo_config] gives for each option the section's own value, else
    DEFAULT's, and nothing at all for a repository without a section. *)
Theorem get_repo_config_lookup (st : cm) (r : string) :
  Spec.pct_free (config st) = true ->
  (forall d, assoc ("repo:" ++ r) (CP.cp_sections (config st)) = Some d -> NoDup (map fst d)) ->
  exists m, ConfigManagerExt.get_repo_config st r = Ok m
    /\ forall o, assoc o m
                 = match assoc ("repo:" ++ r) (CP.cp_sections (config st)) with
                   | Some d => assoc o (app d (CP.cp_defaults (config st)))
                   | None => None
                   end.
Proof.
  intros H HN. unfold ConfigManagerExt.get_repo_config, CP.has_section, assoc_mem.
  destruct (assoc ("repo:" ++ r) (CP.cp_sections (config st))) as [d|] eqn:E.
  - rewrite (items_sect _ _ d H E). eexists. split; [reflexivity|].
    intros o. apply assoc_merge. exact (HN d eq_refl).
  - exists []. split; reflexivity.
Qed.

Lemma get_repo_config_lookup_witness :
  exists m, ConfigManagerExt.get_repo_config repo_st "x" = Ok m
    /\ forall o, assoc o m
                 = match assoc ("repo:" ++ "x") (CP.cp_sections (config repo_st)) with
                   | Some d => assoc o (app d (CP.cp_defaults (config repo_st)))
                   | None => None
                   end.
Proof.
  apply get_repo_config_lookup; [vm_compute; reflexivity|].
  intros d Hd. vm_compute in Hd. injection Hd as <-. repeat constructor. intros [].
Defined.





End RepoSectionProps.

Module RemotesFacts.
Import Py PathLib StringFacts RoundTripFacts RepoSectionFacts ListSettingFacts RepoIdentifier.

Lemma split_ws_words (cur s w : string) :
  (forall c, mem_char c cur = true -> isspace c = false) ->
  In w (split_ws_aux cur s) ->
  w <> "" /\ forall c, mem_char c w = true -> isspace c = false.
Proof.
  revert cur. induction s as [|d s IH]; intros cur Hc Hin; cbn [split_ws_aux] in Hin.
  - destruct (String.eqb_spec cur "") as [_|Hne]; [destruct Hin|].
    destruct Hin as [<-|[]]. split; assumption.
  - destruct (isspace d) eqn:Hd.
    + apply in_app_or in Hin as [Hin|Hin].
      * destruct (String.eqb_spec cur "") as [_|Hne]; [destruct Hin|].
        destruct Hin as [<-|[]]. split; assumption.
      * apply (IH "" (fun c H => ltac:(discriminate H)) Hin).
    + refine (IH _ _ Hin). intros c H. rewrite mem_char_append in H.
      apply Bool.orb_true_iff in H as [H|H]; [exact (Hc c H)|].
      cbn in H. rewrite Bool.orb_false_r in H. apply ascii_eqb_true in H. subst. exact Hd.
Qed.

Lemma parse_remotes_spec (acc : list (string * string)) (lines : list string)
  (m : list (string * string)) :
  parse_remotes acc lines = Ok m ->
  exists ext, m = app acc ext
    /\ (forall n, In n (map fst ext) -> ~ In n (map fst acc))
    /\ NoDup (map fst ext)
    /\ forall n u, In (n, u) ext ->
         mem_char "009" n = false /\ u <> "" /\ forall c, mem_char c u = true -> isspace c = false.
Proof.
  revert acc. induction lines as [|line ls IH]; intros acc H; cbn [parse_remotes] in H.
  - injection H as <-. exists []. rewrite app_nil_r.
    split; [reflexivity|]. split; [intros ? []|]. split; [constructor|intros ? ? []].
  - destruct (String.eqb line ""); [exact (IH acc H)|].
    destruct (split_on "009" line) as [|name [|field rest]] eqn:Es; try exact (IH acc H).
    destruct (split_ws field) as [|url us] eqn:Ew; [discriminate|].
    destruct (assoc_mem name acc) eqn:Em; [exact (IH acc H)|].
    destruct (IH _ H) as (ext & -> & Hfresh & HN & Hshape).
    exists ((name, url) :: ext). split; [rewrite <- app_assoc; reflexivity|].
    assert (Hn : ~ In name (map fst acc)).
    { intros Hin. apply assoc_mem_in in Hin. congruence. }
    split; [|split].
    + intros x [<-|Hin]; [exact Hn|]. intros Hacc. apply (Hfresh x Hin).
      rewrite map_app. apply in_or_app. left. exact Hacc.
    + constructor; [|exact HN]. intros Hin. apply (Hfresh name Hin).
      rewrite map_app. apply in_or_app. right. left. reflexivity.
    + intros x y [Heq|Hin]; [|exact (Hshape x y Hin)]. injection Heq as <- <-.
      split; [apply (split_on_no_sep "009" line); rewrite Es; left; reflexivity|].
      apply (split_ws_words "" field url (fun c H => ltac:(discriminate H))).
      unfold split_ws in Ew. rewrite Ew. left. reflexivity.
Qed.

Lemma parse_remotes_app (acc : list (string * string)) (L1 L2 : list string) :
  parse_remotes acc (app L1 L2) = let* m1 := parse_remotes acc L1 in parse_remotes m1 L2.
Proof.
  revert acc. induction L1 as [|line L1 IH]; intros acc; [reflexivity|].
  cbn [app parse_remotes]. destruct (String.eqb line ""); [apply IH|].
  destruct (split_on "009" line) as [|name [|field rest]]; try apply IH.
  destruct (split_ws field); [reflexivity|apply IH].
Qed.

Lemma split_on_nonempty (c : ascii) (s : string) : split_on c s <> [].
Proof.
  destruct s as [|d s]; cbn; [discriminate|]. destruct (ascii_eqb c d); [discriminate|].
  destruct (split_on c s); discriminate.
Qed.

Lemma split_on_single (c : ascii) (s w : string) : split_on c s = [w] -> s = w.
Proof.
  revert w. induction s as [|d s IH]; intros w; cbn; [congruence|].
  destruct (ascii_eqb c d).
  - intros [= _ H]. exfalso. exact (split_on_nonempty c s H).
  - destruct (split_on c s) as [|w' ws] eqn:E; [exfalso; exact (split_on_nonempty c s E)|].
    intros [= <- ->]. rewrite (IH w' eq_refl). reflexivity.
Qed.

Lemma split_on_last (c : ascii) (s : string) :
  exists pre, s = pre ++ last (split_on c s) "".
Proof.
  induction s as [|d s [pre IH]]; [exists ""; reflexivity|]. cbn [split_on].
  destruct (ascii_eqb c d).
  - exists (String d pre). destruct (split_on c s) as [|w ws] eqn:E;
      [exfalso; exact (split_on_nonempty c s E)|].
    change (last ("" :: w :: ws) "") with (last (w :: ws) ""). rewrite IH at 1. reflexivity.
  - destruct (split_on c s) as [|w [|w2 ws]] eqn:E; [exfalso; exact (split_on_nonempty c s E)| |].
    + exists "". cbn. rewrite (split_on_single _ _ _ E). reflexivity.
    + exists (String d pre). change (last (String d w :: w2 :: ws) "") with (last (w :: w2 :: ws) "").
      rewrite IH at 1. reflexivity.
Qed.

Lemma last_in {A} (l : list A) (d : A) : l <> [] -> In (last l d) l.
Proof.
  induction l as [|x [|y l] IH]; intros H; [congruence|left; reflexivity|].
  right. apply IH. discriminate.
Qed.

Lemma firstn_removelast {A} (k : nat) (l : list A) :
  k < length l -> firstn k (removelast l) = firstn k l.
Proof.
  revert k. induction l as [|a [|b l] IH]; intros k Hk; cbn [length] in Hk.
  - lia.
  - replace k with 0 by lia. reflexivity.
  - destruct k as [|k]; [reflexivity|].
    change (removelast (a :: b :: l)) with (a :: removelast (b :: l)).
    cbn [firstn]. f_equal. apply IH. cbn [length]. lia.
Qed.

Lemma length_removelast {A} (l : list A) : length (removelast l) = length l - 1.
Proof. induction l as [|a [|b l] IH]; [reflexivity|reflexivity|]. cbn [removelast length] in *. lia. Qed.

Import DirectoryManager GitHookManager.

Lemma find_loop_spec (f : fs) (fuel : nat) (cur : list string) :
  length cur <= fuel ->
  match find_loop f fuel cur with
  | Some g =>
      exists k, 1 <= k <= length cur /\ g = app (firstn k cur) [".git"]
        /\ kind_of f g <> None
        /\ forall k', k < k' <= length cur -> kind_of f (app (firstn k' cur) [".git"]) = None
  | None => forall k, 1 <= k <= length cur -> kind_of f (app (firstn k cur) [".git"]) = None
  end.
Proof.
  revert cur. induction fuel as [|n IH]; intros cur Hlen.
  - destruct cur; cbn in Hlen |- *; [intros k Hk; lia|lia].
  - cbn [find_loop]. destruct cur as [|x xs] eqn:Ec; [intros k Hk; cbn in Hk; lia|].
    rewrite <- Ec. destruct (kind_of f (app cur [".git"])) as [kd|] eqn:Ek.
    + exists (length cur). split; [subst; cbn; lia|]. rewrite firstn_all.
      split; [reflexivity|]. split; [congruence|]. intros k' Hk'. lia.
    + assert (Hl : length (removelast cur) <= n) by (rewrite length_removelast; subst; cbn in *; lia).
      assert (Hc : cur <> []) by (subst; discriminate).
      specialize (IH (removelast cur) Hl).
      destruct (find_loop f n (removelast cur)) as [g|].
      * destruct IH as (k & Hk & -> & Hg & Hmax). rewrite length_removelast in Hk.
        exists k. split; [lia|]. rewrite firstn_removelast in Hg |- * by lia.
        split; [reflexivity|]. split; [exact Hg|]. intros k' Hk'.
        destruct (Nat.eq_dec k' (length cur)) as [->|Hne]; [rewrite firstn_all; exact Ek|].
        rewrite <- firstn_removelast by lia. apply Hmax. rewrite length_removelast. lia.
      * intros k Hk. destruct (Nat.eq_dec k (length cur)) as [->|Hne]; [rewrite firstn_all; exact Ek|].
        rewrite <- firstn_removelast by lia. apply IH. rewrite length_removelast. lia.
Qed.

End RemotesFacts.

Module RemotesProps.
Import Py StringFacts RemotesFacts RepoIdentifier.

(** Reading [git remote -v] line by line, a remote recorded from the first
    lines is never replaced by a later line (the first occurrence wins), no
    name is recorded twice, each name holds no tab and each URL is a
    non-empty word without whitespace. *)
Theorem parse_remotes_first_wins (L1 L2 : list string) (m : list (string * string)) :
  parse_remotes [] (app L1 L2) = Ok m ->
  exists m1 ext, parse_remotes [] L1 = Ok m1 /\ m = app m1 ext
    /\ NoDup (map fst m)
    /\ forall n u, In (n, u) m ->
         mem_char "009" n = false /\ u <> "" /\ forall c, mem_char c u = true -> isspace c = false.
Proof.
  intros H. rewrite parse_remotes_app in H.
  destruct (parse_remotes [] L1) as [m1|e] eqn:E1; [|discriminate]. cbn [bind] in H.
  destruct (parse_remotes_spec _ _ _ E1) as (e1 & -> & _ & HN1 & HS1).
  destruct (parse_remotes_spec _ _ _ H) as (e2 & -> & Hfresh & HN2 & HS2).
  exists e1, e2. split; [reflexivity|]. split; [reflexivity|]. split.
  - rewrite map_app. apply NoDup_app; [exact HN1|exact HN2|].
    intros n Hin1 Hin2. exact (Hfresh n Hin2 Hin1).
  - intros n u Hin. apply in_app_or in Hin as [Hin|Hin]; [exact (HS1 n u Hin)|exact (HS2 n u Hin)].
Qed.

Lemma parse_remotes_first_wins_witness :
  exists m1 ext,
    parse_remotes [] [String.append "origin" (String "009" "git@a:x/y.git (fetch)")]
    = Ok m1
    /\ [("origin", "git@a:x/y.git")] = app m1 ext
    /\ parse_remotes []
         (app [String.append "origin" (String "009" "git@a:x/y.git (fetch)")]
              [String.append "origin" (String "009" "https://b/z (push)")])
       = Ok [("origin", "git@a:x/y.git")].
Proof.
  assert (H : parse_remotes []
                (app [String.append "origin" (String "009" "git@a:x/y.git (fetch)")]
                     [String.append "origin" (String "009" "https://b/z (push)")])
              = Ok [("origin", "git@a:x/y.git")]) by (vm_compute; reflexivity).
  destruct (parse_remotes_first_wins _ _ _ H) as (m1 & ext & H1 & H2 & _).
  exists m1, ext. split; [exact H1|]. split; [exact H2|exact H].
Defined.

(** [get_repo_name_for_path] on the identifier [get_repo_identifier]
    returns: for a ["local/"] identifier, the rest of it; otherwise a name
    without a slash that ends the identifier (its last [/] component). *)
Theorem repo_name_for_path_shape (g : git_env) (id : string) :
  get_repo_identifier g = Ok id ->
  exists n, RepoIdentifierExt.get_repo_name_for_path g = Ok n
    /\ (if startswith "local/" id then id = "local/" ++ n
        else mem_char "/" n = false /\ exists pre, id = pre ++ n).
Proof.
  intros H. unfold RepoIdentifierExt.get_repo_name_for_path. rewrite H. cbn [bind].
  destruct (startswith "local/" id) eqn:Hl.
  - eexists. split; [reflexivity|]. exact (RepoSectionFacts.prefix_drop "local/" id Hl).
  - destruct (split_on "/" id) as [|w [|w2 ws]] eqn:Es.
    + exfalso. exact (split_on_nonempty _ _ Es).
    + cbn. eexists. split; [reflexivity|]. pose proof (split_on_single _ _ _ Es) as <-.
      split; [apply (ListSettingFacts.split_on_no_sep "/" id); rewrite Es; left; reflexivity|].
      exists "". reflexivity.
    + cbn [length Nat.leb]. eexists. split; [reflexivity|]. rewrite <- Es. split.
      * apply (ListSettingFacts.split_on_no_sep "/" id). apply last_in. rewrite Es. discriminate.
      * apply split_on_last.
Qed.

Lemma repo_name_for_path_shape_witness :
  RepoIdentifierExt.get_repo_name_for_path Spec.two_remotes_env = Ok "proj".
Proof.
  assert (H : get_repo_identifier Spec.two_remotes_env = Ok "example.org/team/proj")
    by (vm_compute; reflexivity).
  destruct (repo_name_for_path_shape _ _ H) as (n & Hn & _). rewrite Hn.
  vm_compute in Hn. exact (eq_sym Hn).
Defined.

End RemotesProps.

Module GitRepoProps.
Import Py PathLib DirectoryManager GitHookManager RemotesFacts.

(** [find_git_repo] returns the [.git] entry of the deepest directory on
    the way from the working directory up to, but not including, the root:
    no deeper directory has one; and it returns nothing exactly when none of
    those directories has one, so a [/.git] is never found. *)
Theorem find_git_repo_nearest (o : os) (f : fs) :
  match find_git_repo o f with
  | Some p =>
      p_root p = "/"
      /\ exists k, 1 <= k <= length (os_cwd o)
         /\ p_parts p = app (firstn k (os_cwd o)) [".git"]
         /\ kind_of f (p_parts p) <> None
         /\ forall k', k < k' <= length (os_cwd o) ->
              kind_of f (app (firstn k' (os_cwd o)) [".git"]) = None
  | None =>
      forall k, 1 <= k <= length (os_cwd o) ->
        kind_of f (app (firstn k (os_cwd o)) [".git"]) = None
  end.
Proof.
  unfold find_git_repo. pose proof (find_loop_spec f (length (os_cwd o)) (os_cwd o) (le_n _)) as H.
  destruct (find_loop f (length (os_cwd o)) (os_cwd o)) as [g|]; cbn [option_map]; [|exact H].
  destruct H as (k & Hk & -> & Hg & Hmax). split; [reflexivity|].
  exists k. cbn [p_parts]. exact (conj Hk (conj eq_refl (conj Hg Hmax))).
Qed.

End GitRepoProps.

Module LinkProps.
Import Py PathLib ConfigManager.

Lemma get_effective (st : cm) (section key : string) (fallback repo_id : option string) :
  get st section key fallback (match repo_id with Some r => Some r | None => repo_id0 st end)
  = get st section key fallback repo_id.
Proof. destruct repo_id; [reflexivity|]. unfold get. destruct (repo_id0 st); reflexivity. Qed.

(** The link locations are the items [get_list] reads from
    [links.current_ticket_link_locations] (comma-separated, stripped, empty
    ones dropped), each passed through [expanduser] and made a [Path]; an
    empty setting gives no location. *)
Theorem link_locations_items (e : env) (st : cm) (repo_id : option string) :
  CurrentTicketLinker.get_link_locations e st repo_id
  = let* l := ConfigManagerExt.get_list st "links" "current_ticket_link_locations" None repo_id in
    Ok (map (fun loc => parse (expanduser e loc)) l).
Proof.
  unfold CurrentTicketLinker.get_link_locations, ConfigManagerExt.get_list.
  rewrite get_effective.
  change (get st "links" "current_ticket_link_locations" (Some "") repo_id)
    with (get st "links" "current_ticket_link_locations" None repo_id).
  destruct (get st "links" "current_ticket_link_locations" None repo_id) as [v|x]; [|reflexivity].
  cbn [bind]. destruct (String.eqb_spec v "") as [->|Hv]; [reflexivity|]. cbn [negb bind].
  rewrite map_map. reflexivity.
Qed.

End LinkProps.

Module TicketListProps.
Import Py PathLib Regex RegexParser DirectoryManager DirFacts SanitizeFacts ListingFacts CreateProps.

Lemma in_listdir_of_kind (f : fs) (a : list string) (n : string) (k : kind) :
  kind_of f (app a [n]) = Some k -> In n (listdir f a).
Proof.
  unfold kind_of. destruct (app a [n]) as [|x y] eqn:E; [destruct a; discriminate|].
  rewrite <- E. destruct (find _ f) as [e|] eqn:F; [|discriminate]. intros _.
  apply find_some in F as [Hin Heq]. unfold names_eqb in Heq.
  destruct (list_eq_dec string_dec (fst e) (app a [n])) as [He|]; [|discriminate].
  unfold listdir. apply in_flat_map. exists e. split; [exact Hin|].
  rewrite He, child_name_app. left; reflexivity.
Qed.

Lemma first_match_in (o : os) (f : fs) (r : re) (items : list path) (x : path) :
  first_match o f r items = Some x -> In x items /\ is_dir o f x = true.
Proof.
  induction items as [|it items IH]; cbn; [discriminate|].
  destruct (is_dir o f it) eqn:D; cbn.
  - destruct (matches r (last (p_parts it) "")).
    + intros [= <-]. split; [left; reflexivity|exact D].
    + intros H. destruct (IH H). split; [right|]; assumption.
  - intros H. destruct (IH H). split; [right|]; assumption.
Qed.

Lemma list_at (o : os) (st : ConfigManager.cm) (f f1 h : fs) (r : string) (ws : path) :
  get_workspace_base o st f (Some r) = Ok (ws, f1) -> extends f1 h ->
  TicketManager.list_ticket_directories o st h (Some r)
  = Ok (filter (fun d => is_dir o h d) (iterdir o h ws), h).
Proof.
  intros G Hx. destruct (get_workspace_base_spec _ _ _ _ _ _ G) as (_ & Hk & Hg & _).
  unfold TicketManager.list_ticket_directories. rewrite (Hg h Hx). cbv beta iota delta [bind].
  unfold exists_. rewrite (kind_of_extends _ _ _ _ Hx Hk). reflexivity.
Qed.

(** A directory [create_ticket_directory] returns for a repository is
    listed by [list_ticket_directories] for that repository afterwards,
    whether it was found or created, as long as the branch does not
    sanitize to the empty name. *)
Theorem created_dir_listed (o : os) (st : ConfigManager.cm) (f : fs)
  (branch prefix number r : string) (d : path) (f' : fs) :
  sanitize_directory_name (os_windows o) branch <> "" ->
  create_ticket_directory o st f branch prefix number (Some r) = Ok (d, f') ->
  exists l, TicketManager.list_ticket_directories o st f' (Some r) = Ok (l, f') /\ In d l.
Proof.
  intros Hs H. unfold create_ticket_directory in H.
  destruct (get_workspace_base o st f (Some r)) as [[ws f1]|x] eqn:G; [|discriminate].
  cbv beta iota delta [bind] in H.
  rewrite (find_existing_at o st f f1 f1 (Some r) ws prefix number G (extends_refl f1)) in H.
  destruct (compile (ticket_dir_pattern prefix number)) as [rr ng| |]; try discriminate.
  destruct (first_match o f1 rr (iterdir o f1 ws)) as [e|] eqn:Fm.
  - injection H as <- <-. rewrite (list_at o st f f1 f1 r ws G (extends_refl f1)).
    eexists. split; [reflexivity|]. apply filter_In. exact (first_match_in _ _ _ _ _ Fm).
  - set (s := sanitize_directory_name (os_windows o) branch) in *.
    destruct (sanitize_directory_name_plain (os_windows o) branch) as [P1 P2]. fold s in P1, P2.
    rewrite (div_plain ws s P1 P2) in H. apply String.eqb_neq in Hs. rewrite Hs in H.
    destruct (mkdir o f1 (child ws s)) as [f3|x] eqn:M; [|discriminate].
    injection H as <- <-. destruct (mkdir_spec _ _ _ _ M) as (Hx & Hk & _).
    rewrite (list_at o st f f1 f3 r ws G Hx). eexists. split; [reflexivity|].
    rewrite abs_child in Hk. apply filter_In. split.
    + unfold iterdir. apply in_map. exact (in_listdir_of_kind _ _ _ _ Hk).
    + unfold is_dir. rewrite abs_child, Hk. reflexivity.
Qed.

Lemma created_dir_listed_witness :
  exists d f', create_ticket_directory Spec.os0 Spec.fresh [] "JIRA-123-login-fix" "JIRA" "123" (Some "r")
               = Ok (d, f')
    /\ exists l, TicketManager.list_ticket_directories Spec.os0 Spec.fresh f' (Some "r") = Ok (l, f')
                 /\ In d l.
Proof.
  destruct (create_ticket_directory Spec.os0 Spec.fresh [] "JIRA-123-login-fix" "JIRA" "123" (Some "r"))
    as [[d f']|x] eqn:E.
  - exists d, f'. split; [reflexivity|].
    apply (created_dir_listed Spec.os0 Spec.fresh [] "JIRA-123-login-fix" "JIRA" "123" "r" d f');
      [vm_compute; discriminate|exact E].
  - vm_compute in E. discriminate.
Defined.

(** A branch name that sanitizes to the empty name (say one made only of
    dots and spaces) gets no directory of its own: unless a matching ticket
    directory exists, [create_ticket_directory] returns the workspace base
    itself and creates nothing more. *)
Theorem create_empty_name_gives_base (o : os) (st : ConfigManager.cm) (f : fs)
  (branch prefix number : string) (rid : option string) (d : path) (f' : fs) :
  sanitize_directory_name (os_windows o) branch = "" ->
  create_ticket_directory o st f branch prefix number rid = Ok (d, f') ->
  exists ws f1, get_workspace_base o st f rid = Ok (ws, f1)
    /\ (find_existing_ticket_dir o st f1 prefix number rid = Ok (Some d, f1)
        \/ (find_existing_ticket_dir o st f1 prefix number rid = Ok (None, f1) /\ d = ws))
    /\ f' = f1.
Proof.
  intros Hs H. unfold create_ticket_directory in H.
  destruct (get_workspace_base o st f rid) as [[ws f1]|x] eqn:G; [|discriminate].
  cbv beta iota delta [bind] in H. exists ws, f1. split; [reflexivity|].
  pose proof (find_existing_at o st f f1 f1 rid ws prefix number G (extends_refl f1)) as F.
  rewrite F in H |- *.
  destruct (compile (ticket_dir_pattern prefix number)) as [rr ng| |]; try discriminate.
  destruct (first_match o f1 rr (iterdir o f1 ws)) as [e|] eqn:Fm.
  - injection H as <- <-. split; [left; reflexivity|reflexivity].
  - destruct (sanitize_directory_name_plain (os_windows o) branch) as [P1 P2].
    rewrite (div_plain ws _ P1 P2), Hs in H. cbn in H.
    destruct (get_workspace_base_spec _ _ _ _ _ _ G) as (_ & _ & _ & Hm).
    rewrite (Hm f1 (extends_refl f1)) in H. injection H as <- <-.
    split; [right; split; reflexivity|reflexivity].
Qed.

Lemma create_empty_name_gives_base_witness :
  create_ticket_directory Spec.os0 Spec.fresh [] ". . ." "JIRA" "123" None
  = Ok (mk_path "/" ["home"; "u"; "tickets"],
        [(["home"], Dir); (["home"; "u"], Dir); (["home"; "u"; "tickets"], Dir)])
  /\ exists ws f1,
       get_workspace_base Spec.os0 Spec.fresh [] None = Ok (ws, f1)
       /\ (find_existing_ticket_dir Spec.os0 Spec.fresh f1 "JIRA" "123" None
              = Ok (Some (mk_path "/" ["home"; "u"; "tickets"]), f1)
            \/ (find_existing_ticket_dir Spec.os0 Spec.fresh f1 "JIRA" "123" None = Ok (None, f1)
                /\ mk_path "/" ["home"; "u"; "tickets"] = ws))
       /\ [(["home"], Dir); (["home"; "u"], Dir); (["home"; "u"; "tickets"], Dir)] = f1.
Proof.
  assert (E : create_ticket_directory Spec.os0 Spec.fresh [] ". . ." "JIRA" "123" None
              = Ok (mk_path "/" ["home"; "u"; "tickets"],
                    [(["home"], Dir); (["home"; "u"], Dir); (["home"; "u"; "tickets"], Dir)]))
    by (vm_compute; reflexivity).
  split; [exact E|].
  exact (create_empty_name_gives_base Spec.os0 Spec.fresh [] ". . ." "JIRA" "123" None _ _
           ltac:(vm_compute; reflexivity) E).
Defined.

End TicketListProps.

Module SanitizeSafety.
Import Py SanitizeFacts DirectoryManager StringFacts.

Lemma replace_char_removes (c : ascii) (r s : string) :
  mem_char c r = false -> mem_char c (replace_char c r s) = false.
Proof.
  intros Hr. induction s as [|d s IH]; [reflexivity|]. cbn [replace_char].
  destruct (ascii_eqb c d) eqn:E.
  - rewrite RoundTripFacts.mem_char_append, Hr, IH. reflexivity.
  - cbn [mem_char]. rewrite E, IH. reflexivity.
Qed.

Lemma replace_char_keeps (c d : ascii) (r s : string) :
  mem_char c r = false -> mem_char c s = false -> mem_char c (replace_char d r s) = false.
Proof.
  intros Hr. induction s as [|e s IH]; intros Hs; [reflexivity|]. cbn [mem_char] in Hs.
  apply Bool.orb_false_iff in Hs as [He Hs]. cbn [replace_char].
  destruct (ascii_eqb d e).
  - rewrite RoundTripFacts.mem_char_append, Hr, (IH Hs). reflexivity.
  - cbn [mem_char]. rewrite He, (IH Hs). reflexivity.
Qed.

Lemma replace_all_keeps (c : ascii) (chars r s : string) :
  mem_char c r = false -> mem_char c s = false -> mem_char c (replace_all_chars chars r s) = false.
Proof.
  revert s. induction chars as [|d chars IH]; intros s Hr Hs; [exact Hs|].
  cbn [replace_all_chars]. apply IH; [exact Hr|]. apply replace_char_keeps; assumption.
Qed.

Lemma replace_all_removes (c : ascii) (chars r s : string) :
  mem_char c chars = true -> mem_char c r = false ->
  mem_char c (replace_all_chars chars r s) = false.
Proof.
  revert s. induction chars as [|d chars IH]; intros s Hc Hr; [discriminate|].
  cbn [mem_char] in Hc. cbn [replace_all_chars].
  destruct (ascii_eqb c d) eqn:E.
  - apply ascii_eqb_true in E. subst d. apply replace_all_keeps; [exact Hr|].
    apply replace_char_removes. exact Hr.
  - apply IH; assumption.
Qed.

Lemma invalid_not_underscore (c : ascii) :
  mem_char c invalid_chars = true -> mem_char c "_" = false.
Proof.
  intros H. cbn [mem_char]. rewrite Bool.orb_false_r. apply Bool.not_true_iff_false.
  intros E. apply ascii_eqb_true in E. subst c. discriminate H.
Qed.

Lemma replaced_clean (c : ascii) (s : string) :
  mem_char c invalid_chars = true -> mem_char c (replace_all_chars invalid_chars "_" s) = false.
Proof. intros H. apply replace_all_removes; [exact H|exact (invalid_not_underscore c H)]. Qed.

Lemma take_clean (c : ascii) (n : nat) (s : string) :
  mem_char c s = false -> mem_char c (take n s) = false.
Proof. intros H. apply Bool.not_true_iff_false. intros T%mem_take. congruence. Qed.

Lemma length_upper (s : string) : String.length (upper s) = String.length s.
Proof. induction s as [|c s IH]; [reflexivity|]. cbn. rewrite <- IH. reflexivity. Qed.

Lemma reserved_shape :
  forallb (fun x => (String.length x <=? 4) && negb (String.prefix "_" x)) reserved = true.
Proof. vm_compute. reflexivity. Qed.

Lemma not_reserved_long (t : string) :
  4 < String.length t -> existsb (String.eqb (upper t)) reserved = false.
Proof.
  intros H. apply Bool.not_true_iff_false. intros (x & Hx & Heq)%existsb_exists.
  apply String.eqb_eq in Heq. pose proof (proj1 (forallb_forall _ _) reserved_shape x Hx) as Hs.
  apply Bool.andb_true_iff in Hs as [Hs _]. apply Nat.leb_le in Hs.
  rewrite <- Heq, length_upper in Hs. lia.
Qed.

Lemma not_reserved_underscore (u : string) :
  existsb (String.eqb (String "_" u)) reserved = false.
Proof.
  apply Bool.not_true_iff_false. intros (x & Hx & Heq)%existsb_exists.
  apply String.eqb_eq in Heq. pose proof (proj1 (forallb_forall _ _) reserved_shape x Hx) as Hs.
  apply Bool.andb_true_iff in Hs as [_ Hs]. rewrite <- Heq in Hs. destruct u; vm_compute in Hs; discriminate Hs.
Qed.

End SanitizeSafety.

Module SanitizeSafetyProps.
Import Py SanitizeFacts DirectoryManager StringFacts SanitizeSafety.

(** [_sanitize_repo_name] never leaves one of the invalid characters
    (less-than, greater-than, colon, double quote, slash, backslash, bar,
    question mark, star) in the name, and the name is at most 255
    characters long. *)
Theorem sanitize_repo_name_safe (repo_id : string) :
  (forall c, mem_char c invalid_chars = true -> mem_char c (sanitize_repo_name repo_id) = false)
  /\ String.length (sanitize_repo_name repo_id) <= 255.
Proof.
  unfold sanitize_repo_name.
  set (n1 := if startswith "local/" repo_id then replace_str "local/" "" repo_id else repo_id).
  set (n3 := replace_char "/" "_" (replace_all_chars invalid_chars "_" n1)).
  assert (I3 : forall c, mem_char c invalid_chars = true -> mem_char c n3 = false).
  { intros c Hc. apply replace_char_keeps; [exact (invalid_not_underscore c Hc)|].
    exact (replaced_clean c n1 Hc). }
  destruct (255 <? String.length n3) eqn:L.
  - split; [intros c Hc; apply take_clean; exact (I3 c Hc)|]. rewrite length_take. lia.
  - split; [exact I3|]. apply Nat.ltb_ge. exact L.
Qed.

(** [sanitize_directory_name] never leaves an invalid character in the
    name, never returns a reserved Windows device name (in any letter case),
    and never lets the name start with a dot or a space. *)
Theorem sanitize_directory_name_safe (w : bool) (name : string) :
  let s := sanitize_directory_name w name in
  (forall c, mem_char c invalid_chars = true -> mem_char c s = false)
  /\ existsb (String.eqb (upper s)) reserved = false
  /\ (forall c, String.get 0 s = Some c -> c <> "."%char /\ c <> " "%char).
Proof.
  intros s. unfold s, sanitize_directory_name.
  set (s1 := replace_all_chars invalid_chars "_" name).
  set (s2 := strip_chars ". " s1).
  set (s3 := if existsb (String.eqb (upper s2)) reserved then "_" ++ s2 else s2).
  assert (I2 : forall c, mem_char c invalid_chars = true -> mem_char c s2 = false).
  { intros c Hc. apply Bool.not_true_iff_false. intros H.
    unfold s2, strip_chars, strip_by in H. apply mem_rstrip, mem_lstrip in H.
    unfold s1 in H. rewrite (replaced_clean c name Hc) in H. discriminate. }
  assert (I3 : forall c, mem_char c invalid_chars = true -> mem_char c s3 = false).
  { intros c Hc. unfold s3. destruct existsb; [|exact (I2 c Hc)].
    cbn [append mem_char]. rewrite (I2 c Hc), Bool.orb_false_r.
    pose proof (invalid_not_underscore c Hc) as U. cbn in U. rewrite Bool.orb_false_r in U. exact U. }
  assert (R3 : existsb (String.eqb (upper s3)) reserved = false).
  { unfold s3. destruct (existsb (String.eqb (upper s2)) reserved) eqn:E; [|exact E].
    apply not_reserved_underscore. }
  assert (H3 : forall c, String.get 0 s3 = Some c -> c <> "."%char /\ c <> " "%char).
  { intros c. unfold s3. destruct existsb.
    - cbn. intros [= <-]. split; discriminate.
    - intros H. apply strip_head in H. cbn in H.
      split; intros ->; discriminate H. }
  assert (T : forall n, 4 < n -> n < String.length s3 ->
            (forall c, mem_char c invalid_chars = true -> mem_char c (take n s3) = false)
            /\ existsb (String.eqb (upper (take n s3))) reserved = false
            /\ String.length (take n s3) = n
            /\ (forall c, String.get 0 (take n s3) = Some c -> c <> "."%char /\ c <> " "%char)).
  { intros n Hn Hl. assert (Lt : String.length (take n s3) = n) by (rewrite length_take; lia).
    split; [intros c Hc; apply take_clean; exact (I3 c Hc)|].
    split; [apply not_reserved_long; lia|]. split; [exact Lt|].
    destruct n as [|n]; [lia|]. intros c Hc. apply take_head in Hc. exact (H3 c Hc). }
  destruct w; cbv zeta.
  - change (max_name_len 100) with 110%Z. change (Z.to_nat 110) with 110.
    destruct (110 <? Z.of_nat (String.length s3))%Z eqn:L.
    + apply Z.ltb_lt in L. destruct (T 110 ltac:(lia) ltac:(lia)) as (A & B & C & D).
      split; [exact A|]. split; [exact B|exact D].
    + apply Z.ltb_ge in L. split; [exact I3|]. split; [exact R3|exact H3].
  - destruct (255 <? String.length s3) eqn:L.
    + apply Nat.ltb_lt in L. destruct (T 255 ltac:(lia) L) as (A & B & C & D).
      split; [exact A|]. split; [exact B|exact D].
    + apply Nat.ltb_ge in L. split; [exact I3|]. split; [exact R3|exact H3].
Qed.

End SanitizeSafetyProps.
